(** * tg2tiktok-poster: a shallow embedding of the ingest-to-publish pipeline

    The development follows the layout of the Python package:

    - [Py]            the fragment of Python's data model the code relies on
                      (JSON-like values, truthiness, [str.strip], [str.lower],
                      the substring test [in]);
    - [models]        the ORM rows of [app/models.py];
    - [aggregator]    [app/telegram/aggregator.py];
    - [client]        [app/tiktok/client.py];
    - [oauth]         [app/tiktok/oauth.py];
    - [video_posting] [app/tiktok/video_posting.py];
    - [publisher]     [app/tiktok/publisher.py];
    - [tasks]         [app/queue/tasks.py];
    - [scenarios]     concrete worlds on which the code is run.

    The properties follow, module by module: [aggregator_facts],
    [string_facts], [client_facts], [resolve_facts], [oauth_facts],
    [video_facts], [publish_facts], [delivery_facts], [tasks_facts], and
    [run_facts] for the runs on the concrete worlds.

    Instants are integers counting microseconds (the resolution of
    [datetime]); tables are lists of rows in rowid order; everything the
    process does not own (the sink provider, the source platform, the file
    system, the transcoder, the clock) is an oracle collected in a record of
    functions, and the calls made to the provider are recorded in a trace. *)

From Stdlib Require Import ZArith String Ascii List Bool Lia Sorted Permutation.
From stdpp Require Import base option list gmap strings pretty.

Set Warnings "-register-all".

Open Scope string_scope.
Open Scope list_scope.
Open Scope Z_scope.

(* ===================================================================== *)
(** ** Python values and strings *)
(* ===================================================================== *)

Module Py.

(** What [json.loads] / [response.json()] can produce, floats apart. *)
Inductive value : Type :=
| VNone
| VBool (b : bool)
| VInt (n : Z)
| VStr (s : string)
| VList (l : list value)
| VDict (d : list (string * value)).

(** A [dict[str, Any]]: the items in insertion order, keys pairwise
    distinct. *)
Definition dict := list (string * value).

(** [d.get(k)]: the value under [k], [None] when the key is absent. *)
Fixpoint get (d : dict) (k : string) : value :=
  match d with
  | [] => VNone
  | (k', v) :: d' => if String.eqb k k' then v else get d' k
  end.

(** [k in d] *)
Fixpoint has_key (d : dict) (k : string) : bool :=
  match d with
  | [] => false
  | (k', _) :: d' => String.eqb k k' || has_key d' k
  end.

(** [bool(v)] *)
Definition truthy (v : value) : bool :=
  match v with
  | VNone => false
  | VBool b => b
  | VInt n => negb (n =? 0)
  | VStr s => negb (String.eqb s "")
  | VList l => match l with [] => false | _ => true end
  | VDict d => match d with [] => false | _ => true end
  end.

(** [a or b] on values *)
Definition or_ (a b : value) : value := if truthy a then a else b.

(** [a or b] on [str | None] *)
Definition nonempty (s : string) : bool := negb (String.eqb s "").

Definition opt_truthy (o : option string) : bool :=
  match o with Some s => nonempty s | None => false end.

Definition opt_or (a b : option string) : option string :=
  if opt_truthy a then a else b.

(** *** Characters *)

(** [c.isspace()] on the ASCII range: TAB, LF, VT, FF, CR, the four
    separators FS GS RS US, and the space. *)
Definition isspace (c : ascii) : bool :=
  let n := nat_of_ascii c in
  ((9 <=? n)%nat && (n <=? 13)%nat) || ((28 <=? n)%nat && (n <=? 32)%nat).

Definition isupper (c : ascii) : bool :=
  let n := nat_of_ascii c in (65 <=? n)%nat && (n <=? 90)%nat.

Definition lower_char (c : ascii) : ascii :=
  if isupper c then ascii_of_nat (nat_of_ascii c + 32) else c.

(** *** [str] methods *)

(** [s.lower()] *)
Fixpoint lower (s : string) : string :=
  match s with
  | EmptyString => EmptyString
  | String c s' => String (lower_char c) (lower s')
  end.

(** [s.lstrip()] *)
Fixpoint lstrip (s : string) : string :=
  match s with
  | EmptyString => EmptyString
  | String c s' => if isspace c then lstrip s' else s
  end.

(** [s.rstrip()]: the characters are kept from the right end on, as soon as
    one of them is not a space. *)
Fixpoint rstrip (s : string) : string :=
  match s with
  | EmptyString => EmptyString
  | String c s' =>
      match rstrip s' with
      | EmptyString => if isspace c then EmptyString else String c EmptyString
      | r => String c r
      end
  end.

(** [s.strip()] *)
Definition strip (s : string) : string := rstrip (lstrip s).

(** [needle in hay] *)
Fixpoint contains (needle hay : string) : bool :=
  String.prefix needle hay ||
  match hay with
  | EmptyString => false
  | String _ hay' => contains needle hay'
  end.

(** [s[:n]] *)
Definition take (n : nat) (s : string) : string := String.substring 0 n s.

(** [s[:n]] for an integer [n] that may be negative *)
Definition slice_to (n : Z) (s : string) : string :=
  if n <? 0 then take (Z.to_nat (Z.of_nat (String.length s) + n)) s
  else take (Z.to_nat n) s.

(** [any(p(x) for x in xs)] *)
Definition any {A} (p : A -> bool) (xs : list A) : bool := List.existsb p xs.

(** [next((x for x in xs if p(x)), default)] *)
Fixpoint next_or {A} (p : A -> bool) (xs : list A) (default : A) : A :=
  match xs with
  | [] => default
  | x :: xs' => if p x then x else next_or p xs' default
  end.

(** The two built-ins whose behaviour on arbitrary values is Python's own
    and not the repository's: [str(v)] and [int(v)] ([None] of the option
    stands for [TypeError] or [ValueError]). *)
Class Builtins := {
  py_str : value -> string;
  py_int : value -> option Z;
}.

End Py.

Import Py.

(* ===================================================================== *)
(** ** Exceptions *)
(* ===================================================================== *)

Module exceptions.

(** [TikTokAPIError] of [app/tiktok/client.py]: [str(exc)] is [message];
    [payload] is [payload or {}]. *)
Record TikTokAPIError := {
  message : string;
  status_code : option Z;
  payload : dict;
}.

(** The exception classes the code distinguishes in its [except] clauses,
    and one constructor for all the others (transport errors of the HTTP
    library, [OSError], ...). *)
Inductive exn : Type :=
| ApiError (e : TikTokAPIError)
| ValueError (msg : string)
| RuntimeError (msg : string)
| IntegrityError (msg : string)
| AttributeError (msg : string)
| OtherError (msg : string).

(** [str(exc)] *)
Definition exn_str (x : exn) : string :=
  match x with
  | ApiError e => message e
  | ValueError m | RuntimeError m | IntegrityError m
  | AttributeError m | OtherError m => m
  end.

(** [except TikTokAPIError], [except IntegrityError], [except Exception] *)
Definition is_api_error (x : exn) : bool :=
  match x with ApiError _ => true | _ => false end.

Definition is_integrity_error (x : exn) : bool :=
  match x with IntegrityError _ => true | _ => false end.

Definition is_exception (x : exn) : bool := true.

(** A call either returns or raises. *)
Inductive outcome (A : Type) : Type :=
| Return (a : A)
| Raise (x : exn).
Arguments Return {A} a.
Arguments Raise {A} x.

End exceptions.

Import exceptions.

(* ===================================================================== *)
(** ** Sorting rows ([ORDER BY ... ASC]) *)
(* ===================================================================== *)

Section OrderBy.
Context {A : Type} (leb : A -> A -> bool).

Fixpoint insert_sorted (x : A) (l : list A) : list A :=
  match l with
  | [] => [x]
  | y :: l' => if leb x y then x :: l else y :: insert_sorted x l'
  end.

(** Rows are taken in rowid order and inserted from the right, so rows
    with equal keys keep their rowid order. *)
Fixpoint order_by (l : list A) : list A :=
  match l with
  | [] => []
  | x :: l' => insert_sorted x (order_by l')
  end.
End OrderBy.

(* ===================================================================== *)
(** ** app/models.py and app/telegram/parser.py: the records *)
(* ===================================================================== *)

Module models.

(** A [datetime]: microseconds since the epoch. *)
Definition instant := Z.

(** [timedelta(seconds=n)] *)
Definition seconds (n : Z) : Z := n * 1000000.

(** The next autoincrement primary key of a table. *)
Definition next_id {R} (id : R -> Z) (table : list R) : Z :=
  1 + fold_right (fun r m => Z.max (id r) m) 0 table.

End models.

Import models.

Module ParsedMessage.
Record t := {
  source_chat_id : Z;
  message_id : Z;
  media_group_id : option string;
  content_type : string;
  telegram_file_id : string;
  caption : string;
  text : string;
  created_at : instant;
}.
End ParsedMessage.

Module parser.
(** [_safe_text] of [app/telegram/parser.py], through which
    [parse_message] passes the caption, the text and the album id. *)
Definition _safe_text `{Builtins} (value : Py.value) : string :=
  match value with
  | VNone => ""
  | _ => strip (py_str value)
  end.
End parser.

Module MediaGroupBuffer.
(** A row of [media_group_buffer]. [raw_message_json] holds the message
    that [json.dumps] serialises. *)
Record t := {
  id : Z;
  media_group_id : string;
  source_chat_id : Z;
  source_message_id : Z;
  content_type : string;
  telegram_file_id : string;
  caption : string;
  source_text : string;
  raw_message_json : dict;
  created_at : instant;
}.

(** [uq_media_group_buffer_item]: two rows clash when they agree on
    [(media_group_id, source_message_id, telegram_file_id)]. *)
Definition clash (a b : t) : bool :=
  String.eqb (media_group_id a) (media_group_id b)
  && (source_message_id a =? source_message_id b)
  && String.eqb (telegram_file_id a) (telegram_file_id b).

(** [db.add(row); db.commit()]: the INSERT is refused with
    [IntegrityError] when a stored row clashes with the new one; the
    primary key is assigned by the table. *)
Definition insert (row : t) (table : list t) : outcome (list t) :=
  if List.existsb (clash row) table
  then Raise (IntegrityError "UNIQUE constraint failed: uq_media_group_buffer_item")
  else Return (table ++ [row]).
End MediaGroupBuffer.

(* ===================================================================== *)
(** ** app/telegram/aggregator.py *)
(* ===================================================================== *)

Module aggregator.

Record MediaGroupBundle := {
  media_group_id : string;
  source_chat_id : Z;
  source_message_ids : list Z;
  file_ids : list string;
  caption : string;
  source_text : string;
  created_at : instant;
}.

Record MediaGroupAggregator := { flush_seconds : Z }.

(** [MediaGroupAggregator.__init__] *)
Definition __init__ (flush_seconds : Z) : MediaGroupAggregator :=
  {| flush_seconds := Z.max 1 flush_seconds |}.

(** [MediaGroupAggregator.add]: the state after the call and how the call
    ended. Nothing catches the [IntegrityError] of [db.commit()]. *)
Definition add (db : list MediaGroupBuffer.t) (parsed : ParsedMessage.t)
    (raw_message : dict) : outcome unit * list MediaGroupBuffer.t :=
  match ParsedMessage.media_group_id parsed with
  | None => (Return tt, db)
  | Some group_id =>
      if negb (nonempty group_id) then (Return tt, db) else
      let row := {|
        MediaGroupBuffer.id := next_id MediaGroupBuffer.id db;
        MediaGroupBuffer.media_group_id := group_id;
        MediaGroupBuffer.source_chat_id := ParsedMessage.source_chat_id parsed;
        MediaGroupBuffer.source_message_id := ParsedMessage.message_id parsed;
        MediaGroupBuffer.content_type := ParsedMessage.content_type parsed;
        MediaGroupBuffer.telegram_file_id := ParsedMessage.telegram_file_id parsed;
        MediaGroupBuffer.caption := ParsedMessage.caption parsed;
        MediaGroupBuffer.source_text := ParsedMessage.text parsed;
        MediaGroupBuffer.raw_message_json := raw_message;
        MediaGroupBuffer.created_at := ParsedMessage.created_at parsed;
      |} in
      match MediaGroupBuffer.insert row db with
      | Return db' => (Return tt, db')
      | Raise x => (Raise x, db)
      end
  end.

(** The rows of one album, [WHERE media_group_id = group_id]. *)
Definition rows_of (group_id : string) (db : list MediaGroupBuffer.t)
    : list MediaGroupBuffer.t :=
  List.filter (fun r => String.eqb (MediaGroupBuffer.media_group_id r) group_id) db.

(** [min(xs)] of a non-empty sequence given as head and tail. *)
Definition min_of (x : Z) (xs : list Z) : Z := fold_right Z.min x xs.

(** [func.min(created_at)] of a group; [None] for a group without rows. *)
Definition min_created_at (rows : list MediaGroupBuffer.t) : option instant :=
  match rows with
  | [] => None
  | r :: rows' =>
      Some (min_of (MediaGroupBuffer.created_at r)
                   (map MediaGroupBuffer.created_at rows'))
  end.

Definition is_due (threshold : instant) (db : list MediaGroupBuffer.t)
    (group_id : string) : bool :=
  match min_created_at (rows_of group_id db) with
  | Some m => m <=? threshold
  | None => false
  end.

(** [SELECT media_group_id ... GROUP BY media_group_id HAVING
    min(created_at) <= threshold]: one id per group; SQL leaves the order
    of the groups open, here it is the order of their last rows. *)
Definition due_group_ids (threshold : instant) (db : list MediaGroupBuffer.t)
    : list string :=
  List.filter (is_due threshold db)
    (remove_dups (map MediaGroupBuffer.media_group_id db)).

(** [ORDER BY source_message_id ASC] *)
Definition by_message_id (a b : MediaGroupBuffer.t) : bool :=
  MediaGroupBuffer.source_message_id a <=? MediaGroupBuffer.source_message_id b.

Definition nonblank (s : string) : bool := nonempty (strip s).

(** The body of the [for group_id in due_group_ids] loop: the bundle of
    one group, or nothing ([continue]) when the group has no rows. *)
Definition bundle_of (db : list MediaGroupBuffer.t) (group_id : string)
    : option MediaGroupBundle :=
  let rows := order_by by_message_id (rows_of group_id db) in
  match rows with
  | [] => None
  | row0 :: rows' =>
      Some {|
        media_group_id := group_id;
        source_chat_id := MediaGroupBuffer.source_chat_id row0;
        source_message_ids := map MediaGroupBuffer.source_message_id rows;
        file_ids := map MediaGroupBuffer.telegram_file_id rows;
        caption := next_or nonblank (map MediaGroupBuffer.caption rows) "";
        source_text := next_or nonblank (map MediaGroupBuffer.source_text rows) "";
        created_at := min_of (MediaGroupBuffer.created_at row0)
                        (map MediaGroupBuffer.created_at rows');
      |}
  end.

(** [MediaGroupAggregator.flush_due_groups] with [now] given: the bundles
    and the table after the DELETE. *)
Definition flush_due_groups (self : MediaGroupAggregator)
    (db : list MediaGroupBuffer.t) (now : instant)
    : list MediaGroupBundle * list MediaGroupBuffer.t :=
  let threshold := now - seconds (flush_seconds self) in
  let due := due_group_ids threshold db in
  match due with
  | [] => ([], db)
  | _ =>
      let result := omap (bundle_of db) due in
      let db' :=
        List.filter
          (fun r => negb (List.existsb (String.eqb (MediaGroupBuffer.media_group_id r)) due))
          db in
      (result, db')
  end.

End aggregator.

(* ===================================================================== *)
(** ** app/models.py: accounts, content items, deliveries *)
(* ===================================================================== *)

Module TikTokAccount.
(** A row of [tiktok_accounts]; [account_label] is unique. The
    bookkeeping columns [created_at] and [updated_at], which no code
    reads, are left out here and in the other rows.

    [expires_at] is a [datetime]: its instant, and in [expires_at_tz]
    whether the object carries a time zone. A [datetime] the code
    assigns is aware, [utcnow()] being aware; a [datetime] read from the
    table is naive, the [DateTime] column of sqlite keeping no zone. *)
Record t := {
  id : Z;
  account_label : string;
  open_id : option string;
  access_token : option string;
  refresh_token : option string;
  expires_at : option instant;
  expires_at_tz : bool;
  granted_scopes : option string;
  posting_mode : string;
  needs_reauth : bool;
}.

(** The row as the table keeps it and hands it out again. *)
Definition stored (a : t) : t :=
  {| id := id a;
     account_label := account_label a;
     open_id := open_id a;
     access_token := access_token a;
     refresh_token := refresh_token a;
     expires_at := expires_at a;
     expires_at_tz := false;
     granted_scopes := granted_scopes a;
     posting_mode := posting_mode a;
     needs_reauth := needs_reauth a |}.
End TikTokAccount.

Module ContentItem.
(** A row of [content_items]. The two JSON columns hold what
    [json.dumps] was given, a list of strings. *)
Record t := {
  id : Z;
  content_type : string;
  source_chat_id : Z;
  source_message_id : option Z;
  media_group_id : option string;
  caption : string;
  source_text : string;
  telegram_file_ids_json : list string;
  local_files_json : list string;
  raw_update_json : dict;
  processed_at : option instant;
}.

(** [_read_json_list]: the items whose text is not blank. *)
Definition _read_json_list (raw : list string) : list string :=
  List.filter (fun item => nonempty (strip item)) raw.

Definition telegram_file_ids (self : t) : list string :=
  _read_json_list (telegram_file_ids_json self).

Definition local_files (self : t) : list string :=
  _read_json_list (local_files_json self).

(** [ContentItem.source_key] *)
Definition source_key (self : t) : string :=
  if opt_truthy (media_group_id self) then
    "group:" +:+ pretty (source_chat_id self) +:+ ":" +:+ default "" (media_group_id self)
  else
    match source_message_id self with
    | Some m => "msg:" +:+ pretty (source_chat_id self) +:+ ":" +:+ pretty m
    | None => "content:" +:+ pretty (id self)
    end.
End ContentItem.

Module Delivery.
Record t := {
  id : Z;
  content_item_id : Z;
  source_key : string;
  account_label : string;
  status : string;
  error_text : option string;
  tiktok_post_id : option string;
}.

(** The key of [uq_delivery_source_account]. *)
Definition key (d : t) : string * string := (source_key d, account_label d).

Definition has_key (sk label : string) (d : t) : bool :=
  String.eqb (source_key d) sk && String.eqb (account_label d) label.

(** [db.scalar(select(Delivery).where(source_key == sk,
    account_label == label))]: the first matching row. *)
Definition lookup (sk label : string) (table : list t) : option t :=
  List.find (has_key sk label) table.

(** The INSERT of one row; refused by the unique constraint when a row
    with the same key is stored. *)
Definition insert (row : t) (table : list t) : outcome (list t) :=
  if List.existsb (has_key (source_key row) (account_label row)) table
  then Raise (IntegrityError "UNIQUE constraint failed: uq_delivery_source_account")
  else Return (table ++ [row]).

(** The UPDATE a commit issues for an object that was assigned to:
    [assign] sets the assigned columns of the row with primary key [pk]. *)
Definition update (pk : Z) (assign : t -> t) (table : list t) : list t :=
  map (fun d => if id d =? pk then assign d else d) table.

Definition with_status (d : t) (status : string) (error_text : option string)
    (tiktok_post_id : option string) : t :=
  {| id := id d; content_item_id := content_item_id d;
     source_key := source_key d; account_label := account_label d;
     status := status; error_text := error_text;
     tiktok_post_id := tiktok_post_id |}.
End Delivery.

(* ===================================================================== *)
(** ** app/config.py *)
(* ===================================================================== *)

Module config.

(** The settings the pipeline reads. [tg_to_tiktok_mapping_json] is the
    decoded JSON text ([None] when the text is blank or does not decode). *)
Record Settings := {
  tg_bot_token : string;
  tiktok_client_key : string;
  tiktok_client_secret : string;
  posting_mode : string;
  fallback_to_draft : bool;
  append_hashtags : string;
  caption_template : string;
  caption_max_length : Z;
  media_storage_path : string;
  media_group_flush_seconds : Z;
  slide_seconds : Z;
  slideshow_fps : Z;
  enable_photo_api : bool;
  tg_to_tiktok_mapping_json : option value;
}.

Section Mapping.
Context `{Builtins}.

(** The body of the [for key, value in payload.items()] loop of
    [chat_account_mapping]. *)
Definition mapping_step (mapping : gmap Z (list string)) (item : string * value)
    : gmap Z (list string) :=
  match py_int (VStr item.1) with
  | None => mapping
  | Some chat_id =>
      match item.2 with
      | VList value =>
          let labels :=
            map (fun item => strip (py_str item))
                (List.filter (fun item => nonempty (strip (py_str item))) value) in
          match labels with
          | [] => mapping
          | _ => <[chat_id := labels]> mapping
          end
      | _ => mapping
      end
  end.

(** [Settings.chat_account_mapping] *)
Definition chat_account_mapping (self : Settings) : gmap Z (list string) :=
  match tg_to_tiktok_mapping_json self with
  | Some (VDict payload) => fold_left mapping_step payload ∅
  | _ => ∅
  end.
End Mapping.

End config.

(* ===================================================================== *)
(** ** The process state, the outside world and the effect monad *)
(* ===================================================================== *)

Module runtime.

(** One call of the HTTP library: [client.request(method, url, json=,
    data=, headers=)] or [client.put(url, content=, headers=)]. *)
Record http_call := {
  method : string;
  url : string;
  json : option value;
  data : option dict;
  content : option string;
  headers : list (string * string);
}.

(** An [httpx.Response]: [json_body] is [None] when [response.json()]
    raises [ValueError]. *)
Record Response := {
  status_code : Z;
  json_body : option value;
  text : string;
}.

(** What the process does not own. Each oracle is a function of what the
    process can observe: the provider answers a call knowing the calls made
    before it, the clock answers the n-th reading. [path_suffix] is
    [Path.suffix], [tg_get_file] and [tg_download_file] are the two calls
    of the source platform's client, [photo_to_video] and [album_to_video]
    the transcoder of [app/media/ffmpeg.py], [format_text t x] is
    [t.format(text=x)]. *)
Record Env := {
  settings : config.Settings;
  http : list http_call -> http_call -> outcome Response;
  utcnow_at : nat -> instant;
  path_exists : string -> bool;
  path_suffix : string -> string;
  stat_size : string -> outcome Z;
  read_bytes : string -> outcome string;
  write_bytes : string -> string -> outcome unit;
  mkdir : string -> outcome unit;
  tg_get_file : string -> outcome dict;
  tg_download_file : string -> outcome string;
  photo_to_video : string -> string -> Z -> Z -> outcome unit;
  album_to_video : list string -> string -> Z -> Z -> outcome unit;
  format_text : string -> string -> outcome string;
}.

(** The database and the observations made so far. [publish_calls] lists
    the calls of [publisher.publish], as (content item id, account label),
    most recent last. *)
Record World := {
  accounts : list TikTokAccount.t;
  content_items : list ContentItem.t;
  deliveries : list Delivery.t;
  trace : list http_call;
  clock_reads : nat;
  publish_calls : list (Z * string);
}.

Definition M (A : Type) : Type := World -> outcome A * World.

#[global] Instance M_ret : MRet M := fun A a w => (Return a, w).

#[global] Instance M_bind : MBind M := fun A B k m w =>
  match m w with
  | (Return a, w') => k a w'
  | (Raise x, w') => (Raise x, w')
  end.

Definition raise {A} (x : exn) : M A := fun w => (Raise x, w).

(** [try: body except <handles>: handler] *)
Definition try_except {A} (body : M A) (handles : exn -> bool)
    (handler : exn -> M A) : M A := fun w =>
  match body w with
  | (Raise x, w') => if handles x then handler x w' else (Raise x, w')
  | r => r
  end.

(** Running [body] and looking at how it ended. *)
Definition attempt {A} (body : M A) : M (outcome A) := fun w =>
  let '(r, w') := body w in (Return r, w').

(** [for x in xs: body(x)] *)
Fixpoint for_each {A} (xs : list A) (body : A -> M unit) : M unit :=
  match xs with
  | [] => mret tt
  | x :: xs' => body x;; for_each xs' body
  end.

(** Lifting an oracle's answer. *)
Definition lift {A} (o : outcome A) : M A := fun w => (o, w).

Definition get_world : M World := fun w => (Return w, w).

Definition set_accounts (l : list TikTokAccount.t) : M unit := fun w =>
  (Return tt,
   {| accounts := l; content_items := content_items w;
      deliveries := deliveries w; trace := trace w;
      clock_reads := clock_reads w; publish_calls := publish_calls w |}).

Definition set_content_items (l : list ContentItem.t) : M unit := fun w =>
  (Return tt,
   {| accounts := accounts w; content_items := l;
      deliveries := deliveries w; trace := trace w;
      clock_reads := clock_reads w; publish_calls := publish_calls w |}).

Definition set_deliveries (l : list Delivery.t) : M unit := fun w =>
  (Return tt,
   {| accounts := accounts w; content_items := content_items w;
      deliveries := l; trace := trace w;
      clock_reads := clock_reads w; publish_calls := publish_calls w |}).

Definition note_publish (c : Z * string) : M unit := fun w =>
  (Return tt,
   {| accounts := accounts w; content_items := content_items w;
      deliveries := deliveries w; trace := trace w;
      clock_reads := clock_reads w;
      publish_calls := publish_calls w ++ [c] |}).

Section WithEnv.
Context (env : Env).

(** One call of the HTTP library: recorded, then answered. *)
Definition send (c : http_call) : M Response := fun w =>
  (http env (trace w) c,
   {| accounts := accounts w; content_items := content_items w;
      deliveries := deliveries w; trace := trace w ++ [c];
      clock_reads := clock_reads w; publish_calls := publish_calls w |}).

(** [utcnow()] *)
Definition utcnow : M instant := fun w =>
  (Return (utcnow_at env (clock_reads w)),
   {| accounts := accounts w; content_items := content_items w;
      deliveries := deliveries w; trace := trace w;
      clock_reads := S (clock_reads w); publish_calls := publish_calls w |}).
End WithEnv.

End runtime.

Import runtime.

(* ===================================================================== *)
(** ** app/tiktok/client.py *)
(* ===================================================================== *)

Module client.

Definition TIKTOK_OPEN_API_BASE := "https://open.tiktokapis.com".
Definition OAUTH_TOKEN_ENDPOINT := "/v2/oauth/token/".
Definition VIDEO_INIT_ENDPOINT := "/v2/post/publish/video/init/".
Definition VIDEO_FINALIZE_ENDPOINT := "/v2/post/publish/video/publish/".
Definition PHOTO_INIT_ENDPOINT := "/v2/post/publish/content/init/".
Definition PHOTO_FINALIZE_ENDPOINT := "/v2/post/publish/content/publish/".

(** [TikTokAPIError(message, status_code=, payload=)] *)
Definition error (message : string) (status_code : option Z) (payload : dict)
    : TikTokAPIError :=
  {| exceptions.message := message;
     exceptions.status_code := status_code;
     exceptions.payload := payload |}.

Definition markers : list string :=
  [ "unsupported"; "not support"; "permission"; "scope"; "forbidden";
    "insufficient"; "not authorized"; "not available" ].

Definition _build_url (path_or_url : string) : string :=
  if String.prefix "http://" path_or_url || String.prefix "https://" path_or_url
  then path_or_url
  else TIKTOK_OPEN_API_BASE +:+ path_or_url.

Definition _unwrap_data (payload : dict) : dict :=
  match get payload "data" with
  | VDict data => data
  | _ => payload
  end.

Definition _safe_json (response : Response) : dict :=
  match json_body response with
  | None => [("raw", VStr (text response))]
  | Some (VDict data) => data
  | Some data => [("raw", data)]
  end.

(** [error_code not in (None, 0, "0")]; [False == 0] holds in Python. *)
Definition not_in_none_0_str0 (v : value) : bool :=
  match v with
  | VNone => false
  | VInt n => negb (n =? 0)
  | VBool b => b
  | VStr s => negb (String.eqb s "0")
  | _ => true
  end.

Section Client.
Context `{Builtins} (env : Env).

(** [TikTokAPIError.is_unsupported_or_permission] *)
Definition is_unsupported_or_permission (self : TikTokAPIError) : bool :=
  let text := lower (message self) in
  if match exceptions.status_code self with
     | Some c => (c =? 403) || (c =? 404)
     | None => false
     end
  then true
  else if any (fun marker => contains marker text) markers then true
  else
    let error_text := lower (py_str (VDict (payload self))) in
    any (fun marker => contains marker error_text) markers.

Definition _raise_if_api_error (payload : dict) : M unit :=
  let error_ := get payload "error" in
  if truthy error_ then
    raise (ApiError (error ("TikTok API error: " +:+ py_str error_) None payload))
  else
    let error_code := get payload "error_code" in
    if not_in_none_0_str0 error_code then
      raise (ApiError (error ("TikTok API error_code=" +:+ py_str error_code)
                             None payload))
    else mret tt.

(** [TikTokClient._request] *)
Definition _request (method path_or_url : string) (access_token : option string)
    (json_body : option Py.value) (data : option dict)
    (headers : list (string * string)) : M dict :=
  let url := _build_url path_or_url in
  let request_headers :=
    match access_token with
    | Some tok =>
        if nonempty tok then headers ++ [("Authorization", "Bearer " +:+ tok)]
        else headers
    | None => headers
    end in
  response ← send env {|
    runtime.method := method; runtime.url := url;
    runtime.json := json_body;
    runtime.data := data;
    runtime.content := None; runtime.headers := request_headers |};
  let payload := _safe_json response in
  if 400 <=? runtime.status_code response then
    raise (ApiError (error ("TikTok API HTTP " +:+ pretty (runtime.status_code response))
                           (Some (runtime.status_code response)) payload))
  else
    _raise_if_api_error payload;;
    mret payload.

Definition refresh_access_token (client_key client_secret refresh_token : string)
    : M dict :=
  payload ← _request "POST" OAUTH_TOKEN_ENDPOINT None None
    (Some [ ("client_key", VStr client_key);
            ("client_secret", VStr client_secret);
            ("grant_type", VStr "refresh_token");
            ("refresh_token", VStr refresh_token) ])
    [("Content-Type", "application/x-www-form-urlencoded")];
  mret (_unwrap_data payload).

Definition init_video_upload (access_token caption mode : string)
    (video_size_bytes : Z) : M dict :=
  payload ← _request "POST" VIDEO_INIT_ENDPOINT (Some access_token)
    (Some (VDict [ ("post_mode", VStr mode);
                   ("post_info", VDict [("title", VStr caption)]);
                   ("source_info", VDict [ ("source", VStr "FILE_UPLOAD");
                                           ("video_size", VInt video_size_bytes) ]) ]))
    None [];
  mret (_unwrap_data payload).

Definition finalize_video (access_token : string) (publish_id : option string)
    (caption mode : string) : M dict :=
  if negb (opt_truthy publish_id) then mret [] else
  payload ← _request "POST" VIDEO_FINALIZE_ENDPOINT (Some access_token)
    (Some (VDict [ ("publish_id", VStr (default "" publish_id));
                   ("post_mode", VStr mode);
                   ("post_info", VDict [("title", VStr caption)]) ]))
    None [];
  mret (_unwrap_data payload).

Definition init_photo_upload (access_token caption mode : string)
    (media_count : Z) : M dict :=
  payload ← _request "POST" PHOTO_INIT_ENDPOINT (Some access_token)
    (Some (VDict [ ("post_mode", VStr mode);
                   ("post_info", VDict [("title", VStr caption)]);
                   ("source_info", VDict [ ("source", VStr "FILE_UPLOAD");
                                           ("media_count", VInt media_count);
                                           ("media_type", VStr "PHOTO") ]) ]))
    None [];
  mret (_unwrap_data payload).

Definition finalize_photo_upload (access_token : string)
    (publish_id : option string) (caption mode : string) : M dict :=
  if negb (opt_truthy publish_id) then mret [] else
  payload ← _request "POST" PHOTO_FINALIZE_ENDPOINT (Some access_token)
    (Some (VDict [ ("publish_id", VStr (default "" publish_id));
                   ("post_mode", VStr mode);
                   ("post_info", VDict [("title", VStr caption)]) ]))
    None [];
  mret (_unwrap_data payload).

Definition upload_binary (upload_url file_path content_type : string) : M unit :=
  bytes ← lift (read_bytes env file_path);
  response ← send env {|
    runtime.method := "PUT"; runtime.url := upload_url;
    runtime.json := None; runtime.data := None;
    runtime.content := Some bytes;
    runtime.headers := [("Content-Type", content_type)] |};
  if 400 <=? runtime.status_code response then
    raise (ApiError (error ("Binary upload failed: HTTP "
                              +:+ pretty (runtime.status_code response))
                           (Some (runtime.status_code response))
                           (_safe_json response)))
  else mret tt.
End Client.

End client.

(* ===================================================================== *)
(** ** app/tiktok/oauth.py *)
(* ===================================================================== *)

Module oauth.

Section OAuth.
Context `{Builtins} (env : Env).

(** [_safe_int] *)
Definition _safe_int (value : Py.value) (default : Z) : Z :=
  match py_int value with
  | Some n => n
  | None => default
  end.

(** The account object as the caller holds it, with the credential
    columns the token lifecycle assigns. *)
Definition with_credentials (a : TikTokAccount.t)
    (access_token refresh_token : option string)
    (expires_at : option instant) (expires_at_tz : bool)
    (needs_reauth : bool) : TikTokAccount.t :=
  {| TikTokAccount.id := TikTokAccount.id a;
     TikTokAccount.account_label := TikTokAccount.account_label a;
     TikTokAccount.open_id := TikTokAccount.open_id a;
     TikTokAccount.access_token := access_token;
     TikTokAccount.refresh_token := refresh_token;
     TikTokAccount.expires_at := expires_at;
     TikTokAccount.expires_at_tz := expires_at_tz;
     TikTokAccount.granted_scopes := TikTokAccount.granted_scopes a;
     TikTokAccount.posting_mode := TikTokAccount.posting_mode a;
     TikTokAccount.needs_reauth := needs_reauth |}.

Definition mark_reauth (a : TikTokAccount.t) : TikTokAccount.t :=
  with_credentials a (TikTokAccount.access_token a)
    (TikTokAccount.refresh_token a) (TikTokAccount.expires_at a)
    (TikTokAccount.expires_at_tz a) true.

(** [db.commit()] after the account object was assigned to: [assign]
    sets the assigned columns of the row with primary key [pk]; the
    table keeps the row without the zone of its [datetime]. *)
Definition commit_account (pk : Z) (assign : TikTokAccount.t -> TikTokAccount.t)
    : M unit :=
  w ← get_world;
  set_accounts
    (map (fun r => if TikTokAccount.id r =? pk
                   then TikTokAccount.stored (assign r) else r)
         (accounts w)).

(** The second half of [ensure_valid_access_token], from the test of
    the refresh credential on; [access_token] is the stored credential. *)
Definition refresh_credentials (account : TikTokAccount.t)
    (access_token : string) : M (string * TikTokAccount.t) :=
  let label := TikTokAccount.account_label account in
  if negb (opt_truthy (TikTokAccount.refresh_token account)) then
    commit_account (TikTokAccount.id account) mark_reauth;;
    raise (ValueError ("Account " +:+ label +:+ " has no refresh_token"))
  else
    let refresh_token := default "" (TikTokAccount.refresh_token account) in
    token_data ←
      try_except
        (client.refresh_access_token env
           (config.tiktok_client_key (settings env))
           (config.tiktok_client_secret (settings env))
           refresh_token)
        is_api_error
        (fun x => commit_account (TikTokAccount.id account) mark_reauth;;
                  raise x);
    let new_access :=
      let v := get token_data "access_token" in
      if truthy v then py_str v else access_token in
    let new_refresh :=
      let v := get token_data "refresh_token" in
      if truthy v then py_str v else refresh_token in
    let expires_in := _safe_int (get token_data "expires_in") 3600 in
    now ← utcnow env;
    let assign a :=
      with_credentials a (Some new_access) (Some new_refresh)
        (Some (now + seconds (Z.max 60 expires_in))) true false in
    commit_account (TikTokAccount.id account) assign;;
    mret (new_access, assign account).

(** [ensure_valid_access_token]. The account is an object shared with
    the caller: the function returns it as it has left it, next to the
    credential. [expires_at > utcnow() + timedelta(seconds=90)] compares
    the account's [datetime] with an aware one: Python raises [TypeError]
    when the account's is naive, after the clock was read. *)
Definition ensure_valid_access_token (account : TikTokAccount.t)
    : M (string * TikTokAccount.t) :=
  let label := TikTokAccount.account_label account in
  if TikTokAccount.needs_reauth account then
    raise (ValueError ("Account " +:+ label +:+ " requires re-auth"))
  else if negb (opt_truthy (TikTokAccount.access_token account)) then
    raise (ValueError ("Account " +:+ label +:+ " has no access_token"))
  else
    let access_token := default "" (TikTokAccount.access_token account) in
    fresh ←
      match TikTokAccount.expires_at account with
      | Some expires_at =>
          now ← utcnow env;
          if TikTokAccount.expires_at_tz account
          then mret (now + seconds 90 <? expires_at)
          else raise (OtherError
                 "can't compare offset-naive and offset-aware datetimes")
      | None => mret false
      end;
    if (fresh : bool) then mret (access_token, account)
    else refresh_credentials account access_token.
End OAuth.

End oauth.

(* ===================================================================== *)
(** ** app/tiktok/video_posting.py *)
(* ===================================================================== *)

Module video_posting.

Record PublishResult := {
  mode : string;
  publish_id : option string;
  post_id : option string;
}.

Section VideoPosting.
Context `{Builtins} (env : Env).

(** [_string_or_none] *)
Definition _string_or_none (value : Py.value) : option string :=
  match value with
  | VNone => None
  | _ =>
      let as_str := strip (py_str value) in
      if nonempty as_str then Some as_str else None
  end.

(** [for item in upload_urls: ... if value: return value] *)
Definition first_string (items : list Py.value) : option string :=
  next_or opt_truthy (map _string_or_none items) None.

(** [_extract_upload_url], by recursion on the nesting of the response:
    the inner loop finds the value under ["source_info"]. *)
Fixpoint extract_upload_url_of (v : Py.value) : option string :=
  match v with
  | VDict data =>
      let single := _string_or_none (get data "upload_url") in
      if opt_truthy single then single else
      let listed :=
        match get data "upload_urls" with
        | VList upload_urls => first_string upload_urls
        | _ => None
        end in
      if opt_truthy listed then listed else
      (fix source_info (items : list (string * Py.value)) : option string :=
         match items with
         | [] => None
         | (k, v') :: items' =>
             if String.eqb "source_info" k then
               match v' with
               | VDict _ => extract_upload_url_of v'
               | _ => None
               end
             else source_info items'
         end) data
  | _ => None
  end.

Definition _extract_upload_url (data : dict) : option string :=
  extract_upload_url_of (VDict data).

(** [_extract_publish_id] *)
Definition _extract_publish_id (data : dict) : option string :=
  opt_or (_string_or_none (get data "publish_id"))
    (opt_or (_string_or_none (get data "video_id"))
            (_string_or_none (get data "creation_id"))).

(** [_publish_with_mode] *)
Definition _publish_with_mode (access_token video_path caption mode : string)
    : M PublishResult :=
  video_size_bytes ← lift (stat_size env video_path);
  init_data ← client.init_video_upload env access_token caption mode
                video_size_bytes;
  let upload_url := _extract_upload_url init_data in
  if negb (opt_truthy upload_url) then
    raise (ApiError (client.error "TikTok response does not contain upload_url"
                                  None init_data))
  else
    let publish_id := _extract_publish_id init_data in
    client.upload_binary env (default "" upload_url) video_path "video/mp4";;
    finalize_data ← client.finalize_video env access_token publish_id caption mode;
    let post_id :=
      opt_or (_string_or_none (get finalize_data "post_id"))
        (opt_or (_string_or_none (get finalize_data "item_id")) publish_id) in
    mret {| mode := mode; publish_id := publish_id; post_id := post_id |}.

(** [publish_video_file] *)
Definition publish_video_file (access_token video_path caption
    requested_mode : string) (fallback_to_draft : bool) : M PublishResult :=
  try_except
    (_publish_with_mode access_token video_path caption requested_mode)
    is_api_error
    (fun x =>
       match x with
       | ApiError exc =>
           if String.eqb requested_mode "direct" && fallback_to_draft
              && client.is_unsupported_or_permission exc
           then _publish_with_mode access_token video_path caption "draft"
           else raise x
       | _ => raise x
       end).
End VideoPosting.

End video_posting.

(* ===================================================================== *)
(** ** app/tiktok/photo_posting.py *)
(* ===================================================================== *)

Module photo_posting.

Definition IMAGE_CONTENT_TYPE : list (string * string) :=
  [ (".jpg", "image/jpeg"); (".jpeg", "image/jpeg");
    (".png", "image/png"); (".webp", "image/webp") ].

Definition content_type_of (suffix : string) : string :=
  match List.find (fun kv => String.eqb kv.1 suffix) IMAGE_CONTENT_TYPE with
  | Some kv => kv.2
  | None => "application/octet-stream"
  end.

Section PhotoPosting.
Context `{Builtins} (env : Env).

(** [_to_string] *)
Definition _to_string (value : Py.value) : option string :=
  match value with
  | VNone => None
  | _ =>
      let text := strip (py_str value) in
      if nonempty text then Some text else None
  end.

(** [_extract_upload_urls] *)
Fixpoint extract_upload_urls_of (v : Py.value) : list string :=
  match v with
  | VDict data =>
      let direct :=
        match get data "upload_urls" with
        | VList direct =>
            map (fun item => strip (py_str item))
                (List.filter (fun item => nonempty (strip (py_str item))) direct)
        | _ => []
        end in
      let single :=
        match _to_string (get data "upload_url") with
        | Some s => [s]
        | None => []
        end in
      direct ++ single ++
      (fix source_info (items : list (string * Py.value)) : list string :=
         match items with
         | [] => []
         | (k, v') :: items' =>
             if String.eqb "source_info" k then
               match v' with
               | VDict _ => extract_upload_urls_of v'
               | _ => []
               end
             else source_info items'
         end) data
  | _ => []
  end.

Definition _extract_upload_urls (data : dict) : list string :=
  extract_upload_urls_of (VDict data).

Definition _extract_publish_id (data : dict) : option string :=
  opt_or (_to_string (get data "publish_id"))
    (opt_or (_to_string (get data "creation_id"))
            (_to_string (get data "item_id"))).

Definition opt_value (o : option string) : Py.value :=
  match o with Some s => VStr s | None => VNone end.

(** [try_publish_photo_or_carousel] *)
Definition try_publish_photo_or_carousel (access_token : string)
    (image_paths : list string) (caption mode : string) : M (option dict) :=
  match image_paths with
  | [] => mret None
  | _ =>
      try_except
        (init_data ← client.init_photo_upload env access_token caption mode
                       (Z.of_nat (length image_paths));
         let upload_urls := _extract_upload_urls init_data in
         match upload_urls with
         | [] => mret None
         | _ =>
             if (length upload_urls <? length image_paths)%nat then mret None
             else
               for_each (combine image_paths upload_urls)
                 (fun pu =>
                    client.upload_binary env pu.2 pu.1
                      (content_type_of (lower (path_suffix env pu.1))));;
               let publish_id := _extract_publish_id init_data in
               finalize_data ← client.finalize_photo_upload env access_token
                                 publish_id caption mode;
               mret (Some
                 [ ("mode", VStr mode);
                   ("publish_id", opt_value publish_id);
                   ("post_id",
                    opt_value
                      (opt_or (_to_string (get finalize_data "post_id"))
                         (opt_or (_to_string (get finalize_data "item_id"))
                                 publish_id))) ])
         end)
        is_api_error
        (fun x =>
           match x with
           | ApiError exc =>
               if client.is_unsupported_or_permission exc then mret None
               else raise x
           | _ => raise x
           end)
  end.
End PhotoPosting.

End photo_posting.

(* ===================================================================== *)
(** ** app/media/captions.py *)
(* ===================================================================== *)

Module captions.

(** [build_caption] *)
Definition build_caption (env : Env) (source_caption source_text : string)
    : outcome string :=
  let settings := settings env in
  let caption := strip source_caption in
  let filled :=
    if nonempty caption then Return caption
    else format_text env (config.caption_template settings) (strip source_text) in
  match filled with
  | Raise x => Raise x
  | Return caption =>
      let hashtags := strip (config.append_hashtags settings) in
      let caption :=
        if nonempty hashtags then
          if nonempty caption
          then caption +:+ String "010" (String "010" hashtags)
          else hashtags
        else caption in
      if config.caption_max_length settings <? Z.of_nat (String.length caption)
      then Return (rstrip (slice_to (config.caption_max_length settings) caption))
      else Return caption
  end.

End captions.

(* ===================================================================== *)
(** ** app/tiktok/publisher.py *)
(* ===================================================================== *)

Module publisher.

Definition IMAGE_EXTENSIONS : list string :=
  [".jpg"; ".jpeg"; ".png"; ".webp"; ".bmp"].
Definition VIDEO_EXTENSIONS : list string :=
  [".mp4"; ".mov"; ".m4v"; ".avi"; ".webm"; ".mkv"].

Definition mem (s : string) (l : list string) : bool :=
  List.existsb (String.eqb s) l.

Section Publisher.
Context `{Builtins} (env : Env).

Definition is_image (path : string) : bool :=
  mem (lower (path_suffix env path)) IMAGE_EXTENSIONS.

Definition is_video (path : string) : bool :=
  mem (lower (path_suffix env path)) VIDEO_EXTENSIONS.

(** [local_files[0]] *)
Definition first_file (local_files : list string) : M string :=
  match local_files with
  | p :: _ => mret p
  | [] => raise (OtherError "list index out of range")
  end.

(** [_convert_to_video] *)
Definition _convert_to_video (content_item : ContentItem.t)
    (local_files : list string) : M string :=
  let settings := settings env in
  let media_dir :=
    config.media_storage_path settings +:+ "/" +:+ pretty (ContentItem.id content_item) in
  lift (mkdir env media_dir);;
  let target_path :=
    media_dir +:+ "/" +:+ pretty (ContentItem.id content_item) +:+ "_slideshow.mp4" in
  if String.eqb (ContentItem.content_type content_item) "photo" then
    source ← first_file local_files;
    lift (photo_to_video env source target_path
            (config.slide_seconds settings) (config.slideshow_fps settings));;
    mret target_path
  else
    let image_paths := List.filter is_image local_files in
    match image_paths with
    | _ :: _ =>
        lift (album_to_video env image_paths target_path
                (config.slide_seconds settings) (config.slideshow_fps settings));;
        mret target_path
    | [] =>
        match List.find is_video local_files with
        | Some path => mret path
        | None => first_file local_files
        end
    end.

Definition result_dict (result : video_posting.PublishResult) : dict :=
  [ ("mode", VStr (video_posting.mode result));
    ("publish_id", photo_posting.opt_value (video_posting.publish_id result));
    ("post_id", photo_posting.opt_value (video_posting.post_id result)) ].

(** [publish]. The account object comes back as the token lifecycle has
    left it. *)
Definition publish (content_item : ContentItem.t) (account : TikTokAccount.t)
    (local_files : list string) (caption : string) : M dict :=
  '(access_token, account) ← oauth.ensure_valid_access_token env account;
  let requested_mode :=
    if nonempty (TikTokAccount.posting_mode account)
    then TikTokAccount.posting_mode account
    else config.posting_mode (settings env) in
  if String.eqb (ContentItem.content_type content_item) "video" then
    video_path ← first_file local_files;
    result ← video_posting.publish_video_file env access_token video_path
               caption requested_mode (config.fallback_to_draft (settings env));
    mret (result_dict result)
  else
    let image_paths := List.filter is_image local_files in
    photo_result ←
      (if config.enable_photo_api (settings env)
          && match image_paths with [] => false | _ => true end
       then photo_posting.try_publish_photo_or_carousel env access_token
              image_paths caption requested_mode
       else mret None);
    match photo_result with
    | Some r => mret r
    | None =>
        fallback_video ← _convert_to_video content_item local_files;
        result ← video_posting.publish_video_file env access_token fallback_video
                   caption requested_mode (config.fallback_to_draft (settings env));
        mret (result_dict result)
    end.
End Publisher.

End publisher.

(* ===================================================================== *)
(** ** app/queue/tasks.py *)
(* ===================================================================== *)

Module tasks.

Definition _default_extension (content_type : string) : string :=
  if String.eqb content_type "video" then ".mp4" else ".jpg".

(** [_pick_result_post_id] *)
Definition _pick_result_post_id `{Builtins} (result : dict) : option string :=
  let pick key := let value := get result key in
                  if truthy value then Some (py_str value) else None in
  match pick "post_id" with
  | Some s => Some s
  | None =>
      match pick "item_id" with
      | Some s => Some s
      | None => pick "publish_id"
      end
  end.

Definition by_label (a b : TikTokAccount.t) : bool :=
  String.leb (TikTokAccount.account_label a) (TikTokAccount.account_label b).

Section Tasks.
Context `{Builtins} (env : Env).

(** The body of the download loop of [_ensure_local_files] for one file
    handle: the path written, or nothing when the handle is skipped or
    any step raises. *)
Definition download_one (content_item : ContentItem.t) (media_dir : string)
    (index : Z) (file_id : string) : option string :=
  match tg_get_file env file_id with
  | Raise _ => None
  | Return file_info =>
      let file_path :=
        let v := get file_info "file_path" in
        if truthy v then py_str v else "" in
      if negb (nonempty file_path) then None else
      let extension :=
        if nonempty (path_suffix env file_path) then path_suffix env file_path
        else _default_extension (ContentItem.content_type content_item) in
      let target_path := media_dir +:+ "/" +:+ pretty index +:+ extension in
      match tg_download_file env file_path with
      | Raise _ => None
      | Return payload =>
          match write_bytes env target_path payload with
          | Raise _ => None
          | Return _ => Some target_path
          end
      end
  end.

Fixpoint download_all (content_item : ContentItem.t) (media_dir : string)
    (index : Z) (file_ids : list string) : list string :=
  match file_ids with
  | [] => []
  | file_id :: rest =>
      match download_one content_item media_dir index file_id with
      | Some p => [p]
      | None => []
      end ++ download_all content_item media_dir (index + 1) rest
  end.

Definition with_local_files (c : ContentItem.t) (paths : list string)
    : ContentItem.t :=
  {| ContentItem.id := ContentItem.id c;
     ContentItem.content_type := ContentItem.content_type c;
     ContentItem.source_chat_id := ContentItem.source_chat_id c;
     ContentItem.source_message_id := ContentItem.source_message_id c;
     ContentItem.media_group_id := ContentItem.media_group_id c;
     ContentItem.caption := ContentItem.caption c;
     ContentItem.source_text := ContentItem.source_text c;
     ContentItem.telegram_file_ids_json := ContentItem.telegram_file_ids_json c;
     ContentItem.local_files_json := paths;
     ContentItem.raw_update_json := ContentItem.raw_update_json c;
     ContentItem.processed_at := ContentItem.processed_at c |}.

Definition with_processed_at (c : ContentItem.t) (at_ : instant)
    : ContentItem.t :=
  {| ContentItem.id := ContentItem.id c;
     ContentItem.content_type := ContentItem.content_type c;
     ContentItem.source_chat_id := ContentItem.source_chat_id c;
     ContentItem.source_message_id := ContentItem.source_message_id c;
     ContentItem.media_group_id := ContentItem.media_group_id c;
     ContentItem.caption := ContentItem.caption c;
     ContentItem.source_text := ContentItem.source_text c;
     ContentItem.telegram_file_ids_json := ContentItem.telegram_file_ids_json c;
     ContentItem.local_files_json := ContentItem.local_files_json c;
     ContentItem.raw_update_json := ContentItem.raw_update_json c;
     ContentItem.processed_at := Some at_ |}.

(** [db.commit()] after the content item object was assigned to:
    [assign] sets the assigned columns of the row with primary key [pk]. *)
Definition commit_content_item (pk : Z) (assign : ContentItem.t -> ContentItem.t)
    : M unit :=
  w ← get_world;
  set_content_items
    (map (fun r => if ContentItem.id r =? pk then assign r else r)
         (content_items w)).

(** [_ensure_local_files]: the paths, and the content item object as
    the function has left it. *)
Definition _ensure_local_files (content_item : ContentItem.t)
    : M (list string * ContentItem.t) :=
  let existing := List.filter (path_exists env) (ContentItem.local_files content_item) in
  let file_ids := ContentItem.telegram_file_ids content_item in
  if match existing with [] => false | _ => true end
     && (length existing =? length file_ids)%nat
  then mret (existing, content_item)
  else if negb (nonempty (config.tg_bot_token (settings env))) then
    raise (RuntimeError "TG_BOT_TOKEN is empty")
  else
    let media_dir :=
      config.media_storage_path (settings env) +:+ "/"
        +:+ pretty (ContentItem.id content_item) in
    lift (mkdir env media_dir);;
    let downloaded := download_all content_item media_dir 1 file_ids in
    match downloaded with
    | [] => raise (RuntimeError "No files could be downloaded from Telegram")
    | _ =>
        commit_content_item (ContentItem.id content_item)
          (fun c => with_local_files c downloaded);;
        mret (downloaded, with_local_files content_item downloaded)
    end.

(** [_resolve_target_accounts] on the accounts table and the configured
    mapping. *)
Definition resolve (mapping : gmap Z (list string))
    (table : list TikTokAccount.t) (source_chat_id : Z) : list TikTokAccount.t :=
  let labels := mapping !! source_chat_id in
  let selected :=
    match labels with
    | Some (l :: ls) =>
        List.filter
          (fun a => publisher.mem (TikTokAccount.account_label a) (l :: ls))
          table
    | _ => table
    end in
  order_by by_label selected.

Definition _resolve_target_accounts (source_chat_id : Z)
    : M (list TikTokAccount.t) :=
  w ← get_world;
  mret (resolve (config.chat_account_mapping (settings env))
                (accounts w) source_chat_id).

Definition is_sent (d : Delivery.t) : bool :=
  String.eqb (Delivery.status d) "sent".

(** The first half of [_deliver_to_account], up to the rate limiter:
    [None] is the early [return]; [Some delivery] is the value of the
    variable [delivery] the second half works on, which the re-read
    after a rollback may have left at [None]. *)
Definition acquire_delivery (content_item : ContentItem.t)
    (account : TikTokAccount.t) (source_key : string)
    : M (option (option Delivery.t)) :=
  let label := TikTokAccount.account_label account in
  w ← get_world;
  match Delivery.lookup source_key label (deliveries w) with
  | Some delivery =>
      if is_sent delivery then mret None else mret (Some (Some delivery))
  | None =>
      let delivery := {|
        Delivery.id := next_id Delivery.id (deliveries w);
        Delivery.content_item_id := ContentItem.id content_item;
        Delivery.source_key := source_key;
        Delivery.account_label := label;
        Delivery.status := "pending";
        Delivery.error_text := None;
        Delivery.tiktok_post_id := None |} in
      match Delivery.insert delivery (deliveries w) with
      | Return table => set_deliveries table;; mret (Some (Some delivery))
      | Raise x =>
          if is_integrity_error x then
            match Delivery.lookup source_key label (deliveries w) with
            | Some delivery =>
                if is_sent delivery then mret None
                else mret (Some (Some delivery))
            | None => mret (Some None)
            end
          else raise x
      end
  end.

(** [_deliver_to_account]. [rate_limiter.wait] only delays the call and
    is not represented. *)
Definition _deliver_to_account (content_item : ContentItem.t)
    (account : TikTokAccount.t) (source_key caption : string)
    (local_files : list string) : M unit :=
  target ← acquire_delivery content_item account source_key;
  match target with
  | None => mret tt
  | Some delivery =>
      note_publish (ContentItem.id content_item,
                    TikTokAccount.account_label account);;
      r ← attempt (publisher.publish env content_item account local_files caption);
      match delivery with
      | None =>
          raise (AttributeError "'NoneType' object has no attribute 'status'")
      | Some d =>
          let assign d :=
            match r with
            | Return result =>
                Delivery.with_status d "sent" None (_pick_result_post_id result)
            | Raise exc =>
                Delivery.with_status d "failed"
                  (Some (slice_to 2000 (exn_str exc))) (Delivery.tiktok_post_id d)
            end in
          w ← get_world;
          set_deliveries (Delivery.update (Delivery.id d) assign (deliveries w))
      end
  end.

(** The body of the loop of [_mark_all_deliveries_failed]. The session
    does not flush before a query, so the lookup sees the stored rows
    only; [acc.1] is the table with the rows assigned to so far, [acc.2]
    the new rows waiting for the commit. *)
Definition mark_step (content_item : ContentItem.t) (source_key error_text : string)
    (stored : list Delivery.t) (acc : list Delivery.t * list Delivery.t)
    (account : TikTokAccount.t) : list Delivery.t * list Delivery.t :=
  let label := TikTokAccount.account_label account in
  match Delivery.lookup source_key label stored with
  | Some delivery =>
      (Delivery.update (Delivery.id delivery)
         (fun d => Delivery.with_status d "failed"
                     (Some (slice_to 2000 error_text)) (Delivery.tiktok_post_id d))
         acc.1,
       acc.2)
  | None =>
      (acc.1,
       acc.2 ++ [ {|
         Delivery.id := 0;
         Delivery.content_item_id := ContentItem.id content_item;
         Delivery.source_key := source_key;
         Delivery.account_label := label;
         Delivery.status := "failed";
         Delivery.error_text := Some (slice_to 2000 error_text);
         Delivery.tiktok_post_id := None |} ])
  end.

(** The INSERTs of a commit, each row receiving its primary key. *)
Fixpoint flush_new (pending : list Delivery.t) (table : list Delivery.t)
    : outcome (list Delivery.t) :=
  match pending with
  | [] => Return table
  | row :: rest =>
      let row' := {|
        Delivery.id := next_id Delivery.id table;
        Delivery.content_item_id := Delivery.content_item_id row;
        Delivery.source_key := Delivery.source_key row;
        Delivery.account_label := Delivery.account_label row;
        Delivery.status := Delivery.status row;
        Delivery.error_text := Delivery.error_text row;
        Delivery.tiktok_post_id := Delivery.tiktok_post_id row |} in
      match Delivery.insert row' table with
      | Return table' => flush_new rest table'
      | Raise x => Raise x
      end
  end.

(** [_mark_all_deliveries_failed] *)
Definition _mark_all_deliveries_failed (content_item : ContentItem.t)
    (error_text : string) : M unit :=
  accounts ← _resolve_target_accounts (ContentItem.source_chat_id content_item);
  let source_key := ContentItem.source_key content_item in
  w ← get_world;
  let acc :=
    fold_left (mark_step content_item source_key error_text (deliveries w))
      accounts (deliveries w, []) in
  match flush_new acc.2 acc.1 with
  | Return table => set_deliveries table
  | Raise x => raise x
  end.

(** [process_content_item] *)
Definition process_content_item (content_item_id : Z) : M unit :=
  w ← get_world;
  match List.find (fun c => ContentItem.id c =? content_item_id) (content_items w) with
  | None => mret tt
  | Some item =>
      r ← attempt (_ensure_local_files item);
      match r with
      | Raise exc =>
          _mark_all_deliveries_failed item
            ("Telegram download failed: " +:+ exn_str exc)
      | Return (local_files, item) =>
          caption ← lift (captions.build_caption env (ContentItem.caption item)
                            (ContentItem.source_text item));
          accounts ← _resolve_target_accounts (ContentItem.source_chat_id item);
          match accounts with
          | [] => mret tt
          | _ =>
              let source_key := ContentItem.source_key item in
              for_each accounts
                (fun account =>
                   _deliver_to_account item account source_key caption local_files);;
              now ← utcnow env;
              commit_content_item (ContentItem.id item)
                (fun c => with_processed_at c now)
          end
      end
  end.
End Tasks.

End tasks.

(* ===================================================================== *)
(** ** app/telegram/parser.py: reading a message *)
(* ===================================================================== *)

Module message_parser.
Import parser.

(** [a; b] on calls that may raise. *)
Definition and_then {A B} (o : outcome A) (k : A -> outcome B) : outcome B :=
  match o with
  | Return a => k a
  | Raise x => Raise x
  end.

(** [isinstance(v, int)]: an integer, or a boolean, which Python counts
    among the integers ([True == 1]). *)
Definition int_value (v : value) : option Z :=
  match v with
  | VInt n => Some n
  | VBool b => Some (if b then 1 else 0)
  | _ => None
  end.

(** How [datetime.fromtimestamp(n, tz=timezone.utc)] ends: with an
    instant, with [ValueError] or [OSError], which [_parse_created_at]
    catches, or with [OverflowError], which it does not. *)
Inductive timestamp : Type :=
| At (t : instant)
| OutOfRange
| TooLarge (msg : string).

(** [extract_message] *)
Definition extract_message (update : dict) : option value :=
  if has_key update "channel_post" then Some (get update "channel_post")
  else if has_key update "message" then Some (get update "message")
  else None.

(** Tuple comparison [a < b] on the sort keys. *)
Definition key_lt (a b : Z * Z) : bool :=
  (a.1 <? b.1) || ((a.1 =? b.1) && (a.2 <? b.2)).

Section Parser.
Context `{Builtins} (fromtimestamp : Z -> timestamp) (utc_now : instant).

(** [int(v)]: [ValueError] for a string that is no numeral, [TypeError]
    for a value of another type. *)
Definition int_ (v : value) : outcome Z :=
  match v with
  | VInt n => Return n
  | VBool b => Return (if b then 1 else 0)
  | VStr _ =>
      match py_int v with
      | Some n => Return n
      | None => Raise (ValueError "invalid literal for int() with base 10")
      end
  | _ => Raise (OtherError "int() argument must be a string, a bytes-like object or a real number")
  end.

(** [sort_key] of [_pick_largest_photo]; [item.get] needs a dict. *)
Definition sort_key (item : value) : outcome (Z * Z) :=
  match item with
  | VDict item =>
      and_then (int_ (or_ (get item "file_size") (VInt 0))) (fun size =>
      and_then (int_ (or_ (get item "width") (VInt 0))) (fun width =>
      and_then (int_ (or_ (get item "height") (VInt 0))) (fun height =>
      Return (size, width * height))))
  | _ => Raise (AttributeError "object has no attribute 'get'")
  end.

(** The loop of [max(items, key=sort_key)] after the first item: the
    item kept so far gives way to one with a strictly greater key. *)
Fixpoint max_from (best : value) (best_key : Z * Z) (rest : list value)
    : outcome value :=
  match rest with
  | [] => Return best
  | item :: rest' =>
      and_then (sort_key item) (fun k =>
        if key_lt best_key k then max_from item k rest'
        else max_from best best_key rest')
  end.

(** [_pick_largest_photo] *)
Definition _pick_largest_photo (photo_sizes : list value) : outcome value :=
  match photo_sizes with
  | [] => Raise (ValueError "max() arg is an empty sequence")
  | item :: rest => and_then (sort_key item) (fun k => max_from item k rest)
  end.

(** [_parse_created_at] *)
Definition _parse_created_at (raw_ts : value) : outcome instant :=
  match int_value raw_ts with
  | Some n =>
      match fromtimestamp n with
      | At t => Return t
      | OutOfRange => Return utc_now
      | TooLarge msg => Raise (OtherError msg)
      end
  | None => Return utc_now
  end.

(** [parse_message] *)
Definition parse_message (message : dict) : outcome (option ParsedMessage.t) :=
  match or_ (get message "chat") (VDict []) with
  | VDict chat =>
      match int_value (get chat "id"), int_value (get message "message_id") with
      | Some chat_id, Some message_id =>
          let caption := _safe_text (get message "caption") in
          let text := _safe_text (get message "text") in
          let media_group_id :=
            let g := _safe_text (get message "media_group_id") in
            if nonempty g then Some g else None in
          and_then (_parse_created_at (get message "date")) (fun created_at =>
          let parsed content_type file_id := {|
            ParsedMessage.source_chat_id := chat_id;
            ParsedMessage.message_id := message_id;
            ParsedMessage.media_group_id := media_group_id;
            ParsedMessage.content_type := content_type;
            ParsedMessage.telegram_file_id := file_id;
            ParsedMessage.caption := caption;
            ParsedMessage.text := text;
            ParsedMessage.created_at := created_at |} in
          let video :=
            match get message "video" with
            | VDict video =>
                let file_id := _safe_text (get video "file_id") in
                if nonempty file_id then Some file_id else None
            | _ => None
            end in
          match video with
          | Some file_id => Return (Some (parsed "video" file_id))
          | None =>
              let document :=
                match get message "document" with
                | VDict document =>
                    let mime := lower (_safe_text (get document "mime_type")) in
                    let file_id := _safe_text (get document "file_id") in
                    if nonempty file_id && String.prefix "video/" mime
                    then Some file_id else None
                | _ => None
                end in
              match document with
              | Some file_id => Return (Some (parsed "video" file_id))
              | None =>
                  match get message "photo" with
                  | VList (size :: sizes) =>
                      and_then (_pick_largest_photo (size :: sizes)) (fun best =>
                      match best with
                      | VDict best =>
                          let file_id := _safe_text (get best "file_id") in
                          if nonempty file_id
                          then Return (Some (parsed "photo" file_id))
                          else Return None
                      | _ => Raise (AttributeError "object has no attribute 'get'")
                      end)
                  | _ => Return None
                  end
              end
          end)
      | _, _ => Return None
      end
  | _ => Raise (AttributeError "object has no attribute 'get'")
  end.
End Parser.

End message_parser.

(* ===================================================================== *)
(** ** app/queue/tasks.py: ingestion *)
(* ===================================================================== *)

Module ingest.
Import message_parser.

(** [s.split(sep)] for a separator of one character. *)
Fixpoint split_on (sep : ascii) (s : string) : list string :=
  match s with
  | EmptyString => [EmptyString]
  | String c s' =>
      if Ascii.eqb c sep then EmptyString :: split_on sep s'
      else
        match split_on sep s' with
        | piece :: pieces => String c piece :: pieces
        | [] => [String c EmptyString]
        end
  end.

(** [Settings.allowed_chat_ids] on the text of [tg_allowed_chat_ids]; the
    set is given by its elements. *)
Definition allowed_chat_ids `{Builtins} (tg_allowed_chat_ids : string) : list Z :=
  if negb (nonempty (strip tg_allowed_chat_ids)) then []
  else
    omap (fun raw =>
            let raw := strip raw in
            if negb (nonempty raw) then None else py_int (VStr raw))
         (split_on "," tg_allowed_chat_ids).

Section Ingest.
Context `{Builtins} (env : Env)
  (fromtimestamp : Z -> timestamp) (utc_now : instant)
  (tg_allowed_chat_ids : string).

(** [_create_content_item] *)
Definition _create_content_item (content_type : string) (source_chat_id : Z)
    (source_message_id : option Z) (media_group_id : option string)
    (caption source_text : string) (telegram_file_ids : list string)
    (raw_update : dict) : M ContentItem.t :=
  w ← get_world;
  let item := {|
    ContentItem.id := next_id ContentItem.id (content_items w);
    ContentItem.content_type := content_type;
    ContentItem.source_chat_id := source_chat_id;
    ContentItem.source_message_id := source_message_id;
    ContentItem.media_group_id := media_group_id;
    ContentItem.caption := caption;
    ContentItem.source_text := source_text;
    ContentItem.telegram_file_ids_json := telegram_file_ids;
    ContentItem.local_files_json := [];
    ContentItem.raw_update_json := raw_update;
    ContentItem.processed_at := None |} in
  set_content_items (content_items w ++ [item]);;
  mret item.

(** [ingest_update] on the album buffer [db]: the buffer after the call
    and the content item id handed to the queue, if any. *)
Definition ingest_update (update : dict) (db : list MediaGroupBuffer.t)
    : M (list MediaGroupBuffer.t * option Z) :=
  match extract_message update with
  | None => mret (db, None)
  | Some message =>
      if negb (truthy message) then mret (db, None) else
      match message with
      | VDict message =>
          parsed ← lift (parse_message fromtimestamp utc_now message);
          match parsed with
          | None => mret (db, None)
          | Some parsed =>
              let allowed := allowed_chat_ids tg_allowed_chat_ids in
              if match allowed with [] => false | _ => true end
                 && negb (existsb (Z.eqb (ParsedMessage.source_chat_id parsed)) allowed)
              then mret (db, None)
              else if opt_truthy (ParsedMessage.media_group_id parsed) then
                match aggregator.add db parsed message with
                | (Return _, db') => mret (db', None)
                | (Raise x, _) => raise x
                end
              else
                item ← _create_content_item
                         (ParsedMessage.content_type parsed)
                         (ParsedMessage.source_chat_id parsed)
                         (Some (ParsedMessage.message_id parsed))
                         None
                         (ParsedMessage.caption parsed)
                         (ParsedMessage.text parsed)
                         [ParsedMessage.telegram_file_id parsed]
                         update;
                mret (db, Some (ContentItem.id item))
          end
      | _ => raise (AttributeError "object has no attribute 'get'")
      end
  end.

(** The body of the loop of [flush_due_media_groups_once]: the id of the
    album's content item. *)
Definition create_album_item (bundle : aggregator.MediaGroupBundle) : M Z :=
  match aggregator.source_message_ids bundle with
  | [] => raise (ValueError "min() arg is an empty sequence")
  | m :: ms =>
      item ← _create_content_item "album"
               (aggregator.source_chat_id bundle)
               (Some (aggregator.min_of m ms))
               (Some (aggregator.media_group_id bundle))
               (aggregator.caption bundle)
               (aggregator.source_text bundle)
               (aggregator.file_ids bundle)
               [ ("media_group_id", VStr (aggregator.media_group_id bundle));
                 ("source_message_ids",
                  VList (map VInt (aggregator.source_message_ids bundle))) ];
      mret (ContentItem.id item)
  end.

Fixpoint create_album_items (bundles : list aggregator.MediaGroupBundle)
    : M (list Z) :=
  match bundles with
  | [] => mret []
  | bundle :: rest =>
      item_id ← create_album_item bundle;
      ids ← create_album_items rest;
      mret (item_id :: ids)
  end.

(** [flush_due_media_groups_once], the clock of the flush standing at
    [now]: the buffer after the call and [pending_ids], the ids handed to
    the queue in this order; the value returned is their number. *)
Definition flush_due_media_groups_once (self : aggregator.MediaGroupAggregator)
    (now : instant) (db : list MediaGroupBuffer.t)
    : M (list MediaGroupBuffer.t * list Z) :=
  let '(bundles, db') := aggregator.flush_due_groups self db now in
  pending_ids ← create_album_items bundles;
  mret (db', pending_ids).
End Ingest.

End ingest.

(* ===================================================================== *)
(** ** app/tiktok/oauth.py: authorising an account *)
(* ===================================================================== *)

Module OAuthState.
(** A row of [oauth_states]; [state] is unique. *)
Record t := {
  id : Z;
  state : string;
  account_label : string;
  mode : string;
  used : bool;
}.
End OAuthState.

Module oauth_flow.

Definition TIKTOK_AUTHORIZE_URL := "https://www.tiktok.com/v2/auth/authorize/".

Definition MODE_SCOPES : list (string * string) :=
  [ ("draft", "user.info.basic,video.upload");
    ("direct", "user.info.basic,video.upload,video.publish") ].

Definition scopes_of (mode : string) : string :=
  match List.find (fun kv => String.eqb kv.1 mode) MODE_SCOPES with
  | Some kv => kv.2
  | None => ""
  end.

(** [",".join(items)]: every item has to be a string. *)
Fixpoint join_comma (items : list value) : outcome string :=
  match items with
  | [] => Return ""
  | VStr s :: rest =>
      match rest with
      | [] => Return s
      | _ =>
          match join_comma rest with
          | Return t => Return (s +:+ "," +:+ t)
          | Raise x => Raise x
          end
      end
  | _ :: _ => Raise (OtherError "sequence item: expected str instance")
  end.

Section Flow.
Context `{Builtins} (env : Env) (tiktok_redirect_uri : string).

(** [build_authorization_url]: [token] is what [secrets.token_urlsafe]
    returns, [urlencode] the function of [urllib.parse]; the table of
    challenges after the call is returned with the URL. *)
Definition build_authorization_url (token : string)
    (urlencode : list (string * string) -> string)
    (states : list OAuthState.t) (account_label mode : string)
    : outcome (list OAuthState.t * string) :=
  if negb (String.eqb mode "draft" || String.eqb mode "direct") then
    Raise (ValueError "mode must be draft or direct")
  else if negb (nonempty (strip account_label)) then
    Raise (ValueError "account_label is required")
  else if negb (nonempty (config.tiktok_client_key (settings env))) then
    Raise (ValueError "TIKTOK_CLIENT_KEY is empty")
  else if existsb (fun r => String.eqb (OAuthState.state r) token) states then
    Raise (IntegrityError "UNIQUE constraint failed: oauth_states.state")
  else
    let row := {|
      OAuthState.id := next_id OAuthState.id states;
      OAuthState.state := token;
      OAuthState.account_label := strip account_label;
      OAuthState.mode := mode;
      OAuthState.used := false |} in
    let query := urlencode
      [ ("client_key", config.tiktok_client_key (settings env));
        ("response_type", "code");
        ("scope", scopes_of mode);
        ("redirect_uri", tiktok_redirect_uri);
        ("state", token) ] in
    Return (states ++ [row], TIKTOK_AUTHORIZE_URL +:+ "?" +:+ query).

(** [TikTokClient.exchange_code_for_token] *)
Definition exchange_code_for_token (client_key client_secret code
    redirect_uri : string) : M dict :=
  payload ← client._request env "POST" client.OAUTH_TOKEN_ENDPOINT None None
    (Some [ ("client_key", VStr client_key);
            ("client_secret", VStr client_secret);
            ("code", VStr code);
            ("grant_type", VStr "authorization_code");
            ("redirect_uri", VStr redirect_uri) ])
    [("Content-Type", "application/x-www-form-urlencoded")];
  mret (client._unwrap_data payload).

(** [str(v or "").strip()] *)
Definition text_of (v : value) : string :=
  strip (py_str (or_ v (VStr ""))).

(** The columns [handle_callback] assigns to the account. *)
Definition authorise (a : TikTokAccount.t) (open_id : option string)
    (access_token refresh_token : string) (expires_at : instant)
    (granted_scopes posting_mode : string) : TikTokAccount.t :=
  {| TikTokAccount.id := TikTokAccount.id a;
     TikTokAccount.account_label := TikTokAccount.account_label a;
     TikTokAccount.open_id := open_id;
     TikTokAccount.access_token := Some access_token;
     TikTokAccount.refresh_token := Some refresh_token;
     TikTokAccount.expires_at := Some expires_at;
     TikTokAccount.expires_at_tz := true;
     TikTokAccount.granted_scopes := Some granted_scopes;
     TikTokAccount.posting_mode := posting_mode;
     TikTokAccount.needs_reauth := false |}.

(** [TikTokAccount(account_label=label)] once the table has given it a
    primary key. *)
Definition new_account (pk : Z) (label : string) : TikTokAccount.t :=
  {| TikTokAccount.id := pk;
     TikTokAccount.account_label := label;
     TikTokAccount.open_id := None;
     TikTokAccount.access_token := None;
     TikTokAccount.refresh_token := None;
     TikTokAccount.expires_at := None;
     TikTokAccount.expires_at_tz := false;
     TikTokAccount.granted_scopes := None;
     TikTokAccount.posting_mode := "draft";
     TikTokAccount.needs_reauth := false |}.

Definition mark_used (pk : Z) (states : list OAuthState.t) : list OAuthState.t :=
  map (fun r => if OAuthState.id r =? pk
                then {| OAuthState.id := OAuthState.id r;
                        OAuthState.state := OAuthState.state r;
                        OAuthState.account_label := OAuthState.account_label r;
                        OAuthState.mode := OAuthState.mode r;
                        OAuthState.used := true |}
                else r) states.

(** [handle_callback]. The only commit is the last statement: the table
    of challenges and the accounts change when the call returns, and
    not otherwise. The table of challenges after the call is returned
    with the account, which [db.refresh(account)] has read back from
    the table. *)
Definition handle_callback (states : list OAuthState.t) (code state : string)
    : M (list OAuthState.t * TikTokAccount.t) :=
  match List.find (fun r => String.eqb (OAuthState.state r) state
                            && negb (OAuthState.used r)) states with
  | None => raise (ValueError "Invalid or already used OAuth state")
  | Some oauth_state =>
      if negb (nonempty (config.tiktok_client_secret (settings env))) then
        raise (ValueError "TIKTOK_CLIENT_SECRET is empty")
      else
        token_data ← exchange_code_for_token
                       (config.tiktok_client_key (settings env))
                       (config.tiktok_client_secret (settings env))
                       code tiktok_redirect_uri;
        let access_token := text_of (get token_data "access_token") in
        let refresh_token := text_of (get token_data "refresh_token") in
        if negb (nonempty access_token) || negb (nonempty refresh_token) then
          raise (ValueError
            "OAuth token response does not contain access_token/refresh_token")
        else
          let open_id :=
            let s := text_of (get token_data "open_id") in
            if nonempty s then Some s else None in
          let expires_in := oauth._safe_int (get token_data "expires_in") 3600 in
          let scope := or_ (get token_data "scope")
                           (get token_data "granted_scopes") in
          granted_scopes ←
            lift (match scope with
                  | VList items => join_comma items
                  | _ => Return (py_str (or_ scope (VStr "")))
                  end);
          w ← get_world;
          let label := OAuthState.account_label oauth_state in
          let stored :=
            List.find (fun a => String.eqb (TikTokAccount.account_label a) label)
                      (accounts w) in
          now ← utcnow env;
          let assign a :=
            authorise a open_id access_token refresh_token
              (now + seconds (Z.max 60 expires_in)) granted_scopes
              (OAuthState.mode oauth_state) in
          let states' := mark_used (OAuthState.id oauth_state) states in
          match stored with
          | Some account =>
              oauth.commit_account (TikTokAccount.id account) assign;;
              mret (states', TikTokAccount.stored (assign account))
          | None =>
              let account :=
                TikTokAccount.stored
                  (assign (new_account (next_id TikTokAccount.id (accounts w))
                                       label)) in
              set_accounts (accounts w ++ [account]);;
              mret (states', account)
          end
  end.
End Flow.

End oauth_flow.

(* ===================================================================== *)
(** ** An instance of the built-ins, for running the code on examples *)
(* ===================================================================== *)

Module python_model.

Definition isdigit (c : ascii) : bool :=
  let n := nat_of_ascii c in (48 <=? n)%nat && (n <=? 57)%nat.

(** The digits of a numeral, most significant first. *)
Fixpoint digits (acc : Z) (s : string) : option Z :=
  match s with
  | EmptyString => Some acc
  | String c s' =>
      if isdigit c
      then digits (10 * acc + Z.of_nat (nat_of_ascii c - 48)) s'
      else None
  end.

(** [int(s)] for a decimal numeral with an optional sign and surrounding
    blanks. *)
Definition int_of_string (s : string) : option Z :=
  match strip s with
  | EmptyString => None
  | String "-" (String c r) => Z.opp <$> digits 0 (String c r)
  | String "+" (String c r) => digits 0 (String c r)
  | t => digits 0 t
  end.

Definition join (sep : string) (l : list string) : string :=
  match l with
  | [] => ""
  | x :: l' => fold_left (fun acc y => acc +:+ sep +:+ y) l' x
  end.

(** [repr(v)], strings being quoted without escapes. *)
Fixpoint repr (v : value) : string :=
  match v with
  | VNone => "None"
  | VBool true => "True"
  | VBool false => "False"
  | VInt n => pretty n
  | VStr s => "'" +:+ s +:+ "'"
  | VList l => "[" +:+ join ", " (map repr l) +:+ "]"
  | VDict d =>
      "{" +:+ join ", "
                ((fix items (d : list (string * value)) : list string :=
                    match d with
                    | [] => []
                    | (k, v') :: d' => ("'" +:+ k +:+ "': " +:+ repr v') :: items d'
                    end) d)
          +:+ "}"
  end.

#[export] Instance builtins : Builtins := {|
  py_str v := match v with VStr s => s | _ => repr v end;
  py_int v :=
    match v with
    | VInt n => Some n
    | VBool b => Some (if b then 1 else 0)
    | VStr s => int_of_string s
    | _ => None
    end;
|}.

End python_model.

(* ===================================================================== *)
(** ** Concrete runs *)
(* ===================================================================== *)

Module scenarios.
Import python_model.

Definition settings0 : config.Settings := {|
  config.tg_bot_token := "bot-token";
  config.tiktok_client_key := "key";
  config.tiktok_client_secret := "secret";
  config.posting_mode := "draft";
  config.fallback_to_draft := true;
  config.append_hashtags := "";
  config.caption_template := "From TG: {text}";
  config.caption_max_length := 2200;
  config.media_storage_path := "./data/media";
  config.media_group_flush_seconds := 3;
  config.slide_seconds := 2;
  config.slideshow_fps := 30;
  config.enable_photo_api := false;
  config.tg_to_tiktok_mapping_json := None;
|}.

(** An answer with HTTP status [status] and a JSON object as body. *)
Definition answer (status : Z) (body : dict) : outcome Response :=
  Return {| runtime.status_code := status;
            runtime.json_body := Some (VDict body);
            runtime.text := "" |}.

(** A world in which the local files are all there or all missing
    ([present]), no file can be fetched from the source platform, the
    clock stands at [t], and the provider answers through [http]. *)
Definition env_with (http : list http_call -> http_call -> outcome Response)
    (t : instant) (present : bool) : Env := {|
  runtime.settings := settings0;
  runtime.http := http;
  runtime.utcnow_at := fun _ => t;
  runtime.path_exists := fun _ => present;
  runtime.path_suffix := fun _ => ".mp4";
  runtime.stat_size := fun _ => Return 1024;
  runtime.read_bytes := fun _ => Return "bytes";
  runtime.write_bytes := fun _ _ => Return tt;
  runtime.mkdir := fun _ => Return tt;
  runtime.tg_get_file := fun _ => Raise (OtherError "Telegram API error HTTP 400");
  runtime.tg_download_file := fun _ => Raise (OtherError "Telegram file download failed");
  runtime.photo_to_video := fun _ _ _ _ => Return tt;
  runtime.album_to_video := fun _ _ _ _ => Return tt;
  runtime.format_text := fun _ text => Return ("From TG: " +:+ text);
|}.

(** Account [a] as an object a session has assigned its expiry to: the
    [datetime] is aware. *)
Definition account_a : TikTokAccount.t := {|
  TikTokAccount.id := 1;
  TikTokAccount.account_label := "a";
  TikTokAccount.open_id := Some "open-a";
  TikTokAccount.access_token := Some "old-token";
  TikTokAccount.refresh_token := Some "refresh-a";
  TikTokAccount.expires_at := Some (seconds 1000);
  TikTokAccount.expires_at_tz := true;
  TikTokAccount.granted_scopes := Some "user.info.basic,video.upload";
  TikTokAccount.posting_mode := "draft";
  TikTokAccount.needs_reauth := false;
|}.

Definition world_of (accounts : list TikTokAccount.t)
    (content_items : list ContentItem.t) (deliveries : list Delivery.t) : World := {|
  runtime.accounts := accounts;
  runtime.content_items := content_items;
  runtime.deliveries := deliveries;
  runtime.trace := [];
  runtime.clock_reads := 0;
  runtime.publish_calls := [];
|}.

(** *** A refresh that grants sixty seconds *)

(** The provider answers the refresh with a lifetime of 60 seconds. *)
Definition short_lived_http (_ : list http_call) (_ : http_call) : outcome Response :=
  answer 200 [("access_token", VStr "new-token"); ("expires_in", VInt 60)].

(** The clock stands at 2000 s; the stored credential expired at 1000 s. *)
Definition short_lived_env : Env := env_with short_lived_http (seconds 2000) false.

(** *** A video and a provider that accepts it *)

Definition video_item : ContentItem.t := {|
  ContentItem.id := 1;
  ContentItem.content_type := "video";
  ContentItem.source_chat_id := -100;
  ContentItem.source_message_id := Some 7;
  ContentItem.media_group_id := None;
  ContentItem.caption := "hello";
  ContentItem.source_text := "";
  ContentItem.telegram_file_ids_json := ["v1"];
  ContentItem.local_files_json := ["./data/media/1/1.mp4"];
  ContentItem.raw_update_json := [];
  ContentItem.processed_at := None;
|}.

(** The provider: the init call is answered with [init], an upload with
    an empty 200, the finalize call with a post id. *)
Definition provider (init : dict) (_ : list http_call) (c : http_call)
    : outcome Response :=
  if String.eqb (runtime.method c) "PUT" then answer 200 []
  else if String.eqb (runtime.url c) (client._build_url client.VIDEO_INIT_ENDPOINT)
  then answer 200 [("data", VDict init)]
  else answer 200 [("data", VDict [("post_id", VStr "post-1")])].

(** The clock stands at 100 s, so the credential of account [a], which
    expires at 1000 s, is good; the local file is there. *)
Definition accepting_env : Env :=
  env_with (provider [ ("upload_url", VStr "https://upload.example/1");
                       ("publish_id", VStr "p1") ])
           (seconds 100) true.

(** The same provider, answering the init call without any publish id. *)
Definition no_id_init : dict := [("upload_url", VStr "https://upload.example/1")].
Definition no_id_env : Env := env_with (provider no_id_init) (seconds 100) true.

(** A provider that refuses direct posting with HTTP 403 and otherwise
    behaves as the one above. *)
Definition refusing_direct (trace : list http_call) (c : http_call)
    : outcome Response :=
  match runtime.json c with
  | Some (VDict body) =>
      match get body "post_mode" with
      | VStr "direct" => answer 403 []
      | _ => provider [ ("upload_url", VStr "https://upload.example/1");
                        ("publish_id", VStr "p1") ] trace c
      end
  | _ => provider [] trace c
  end.

Definition refusing_env : Env := env_with refusing_direct (seconds 100) true.

(** *** A photo for an account in direct mode *)

(** Account [a] set to direct posting. *)
Definition account_direct : TikTokAccount.t := {|
  TikTokAccount.id := 1;
  TikTokAccount.account_label := "a";
  TikTokAccount.open_id := Some "open-a";
  TikTokAccount.access_token := Some "old-token";
  TikTokAccount.refresh_token := Some "refresh-a";
  TikTokAccount.expires_at := Some (seconds 1000);
  TikTokAccount.expires_at_tz := true;
  TikTokAccount.granted_scopes := Some "user.info.basic,video.upload";
  TikTokAccount.posting_mode := "direct";
  TikTokAccount.needs_reauth := false;
|}.

Definition photo_item : ContentItem.t := {|
  ContentItem.id := 2;
  ContentItem.content_type := "photo";
  ContentItem.source_chat_id := -100;
  ContentItem.source_message_id := Some 8;
  ContentItem.media_group_id := None;
  ContentItem.caption := "hello";
  ContentItem.source_text := "";
  ContentItem.telegram_file_ids_json := ["p1"];
  ContentItem.local_files_json := ["./data/media/2/1.jpg"];
  ContentItem.raw_update_json := [];
  ContentItem.processed_at := None;
|}.

(** A provider that refuses direct posting with HTTP 403 and answers
    the init call of a draft without any publish id. *)
Definition refusing_direct_no_id (trace : list http_call) (c : http_call)
    : outcome Response :=
  match runtime.json c with
  | Some (VDict body) =>
      match get body "post_mode" with
      | VStr "direct" => answer 403 []
      | _ => provider no_id_init trace c
      end
  | _ => provider no_id_init trace c
  end.

Definition refusing_no_id_env : Env :=
  env_with refusing_direct_no_id (seconds 100) true.

(** The local file is gone and the source platform does not deliver it. *)
Definition offline_env : Env := env_with (provider []) (seconds 100) false.

(** The database holds the row of account [a] as the table keeps it. *)
Definition fresh_world : World :=
  world_of [TikTokAccount.stored account_a] [video_item] [].

(** *** A delivery that was sent *)

Definition sent_delivery : Delivery.t := {|
  Delivery.id := 1;
  Delivery.content_item_id := 1;
  Delivery.source_key := "msg:-100:7";
  Delivery.account_label := "a";
  Delivery.status := "sent";
  Delivery.error_text := None;
  Delivery.tiktok_post_id := Some "post-1";
|}.

Definition delivered_world : World :=
  world_of [TikTokAccount.stored account_a] [video_item] [sent_delivery].

(** *** An album of two photos, as in the aggregator's test *)

Definition member (message_id : Z) (file_id caption : string) (at_ : instant)
    : ParsedMessage.t := {|
  ParsedMessage.source_chat_id := -100111;
  ParsedMessage.message_id := message_id;
  ParsedMessage.media_group_id := Some "group-1";
  ParsedMessage.content_type := "photo";
  ParsedMessage.telegram_file_id := file_id;
  ParsedMessage.caption := caption;
  ParsedMessage.text := "";
  ParsedMessage.created_at := at_;
|}.

Definition member1 := member 1 "file-1" "album caption" (seconds 90).
Definition member2 := member 2 "file-2" "" (seconds 91).

Definition album_buffer : list MediaGroupBuffer.t :=
  (aggregator.add (aggregator.add [] member1 []).2 member2 []).2.

End scenarios.

(* ===================================================================== *)
(** * Properties *)
(* ===================================================================== *)

(** ** [ORDER BY]: a sorted rearrangement *)

Section OrderByFacts.
Context {A : Type} (leb : A -> A -> bool).
Hypothesis leb_total : forall a b, leb a b = true \/ leb b a = true.

Lemma insert_sorted_perm x l : Permutation (insert_sorted leb x l) (x :: l).
Proof.
  induction l as [|y l IH]; simpl; [reflexivity|].
  destruct (leb x y); [reflexivity|].
  rewrite IH. apply perm_swap.
Qed.

Lemma order_by_perm l : Permutation (order_by leb l) l.
Proof.
  induction l as [|x l IH]; simpl; [constructor|].
  rewrite insert_sorted_perm. now constructor.
Qed.

Lemma insert_sorted_hd x y l :
  leb y x = true -> HdRel (fun a b => leb a b = true) y l ->
  HdRel (fun a b => leb a b = true) y (insert_sorted leb x l).
Proof.
  intros Hyx Hhd. destruct l as [|z l]; simpl; [now constructor|].
  destruct (leb x z); constructor; [assumption|].
  now inversion Hhd.
Qed.

Lemma insert_sorted_sorted x l :
  Sorted (fun a b => leb a b = true) l ->
  Sorted (fun a b => leb a b = true) (insert_sorted leb x l).
Proof.
  induction 1 as [|y l Hs IH Hhd]; simpl.
  - repeat constructor.
  - destruct (leb x y) eqn:E.
    + constructor; [now constructor | now constructor].
    + constructor; [assumption|].
      apply insert_sorted_hd; [|assumption].
      destruct (leb_total x y); congruence.
Qed.

Lemma order_by_sorted l : Sorted (fun a b => leb a b = true) (order_by leb l).
Proof.
  induction l as [|x l IH]; simpl; [constructor|].
  now apply insert_sorted_sorted.
Qed.

Lemma order_by_In x l : In x (order_by leb l) <-> In x l.
Proof.
  split; apply Permutation_in; [|symmetry]; apply order_by_perm.
Qed.

Lemma order_by_nil l : order_by leb l = [] -> l = [].
Proof.
  intros E. apply Permutation_nil. rewrite <- E. apply order_by_perm.
Qed.
End OrderByFacts.

(** ** The album aggregator *)

Module aggregator_facts.
Import aggregator.

(** [m] is the least element of [l]. *)
Definition is_min (m : Z) (l : list Z) : Prop :=
  In m l /\ forall x, In x l -> m <= x.

(** [c] is the first string of [l] that [good] accepts, [""] when there is
    none. *)
Definition first_of (good : string -> Prop) (l : list string) (c : string) : Prop :=
  (exists pre post, l = pre ++ c :: post /\ Forall (fun s => ~ good s) pre /\ good c)
  \/ (Forall (fun s => ~ good s) l /\ c = "").

Lemma min_of_is_min x xs : is_min (min_of x xs) (x :: xs).
Proof.
  unfold is_min, min_of. induction xs as [|y xs [IHin IHle]]; simpl.
  - split; [now left|]. intros z [<-|[]]. lia.
  - split.
    + destruct (Z.min_spec y (fold_right Z.min x xs)) as [[_ ->]|[_ ->]].
      * right. now left.
      * destruct IHin as [E|Hin]; [now left | right; now right].
    + intros z [<-|[<-|Hz]].
      * etransitivity; [apply Z.le_min_r|]. apply IHle. now left.
      * apply Z.le_min_l.
      * etransitivity; [apply Z.le_min_r|]. apply IHle. now right.
  Qed.

Lemma is_min_unique m m' l : is_min m l -> is_min m' l -> m = m'.
Proof. intros [H1 H2] [H3 H4]. specialize (H2 _ H3). specialize (H4 _ H1). lia. Qed.

Lemma is_min_perm m l l' : Permutation l l' -> is_min m l -> is_min m l'.
Proof.
  intros P [H1 H2]. split.
  - now apply (Permutation_in _ P).
  - intros x Hx. apply H2. now apply (Permutation_in _ (Permutation_sym P)).
Qed.

Lemma by_message_id_total a b :
  by_message_id a b = true \/ by_message_id b a = true.
Proof. unfold by_message_id. destruct (Z.le_ge_cases
  (MediaGroupBuffer.source_message_id a) (MediaGroupBuffer.source_message_id b));
  [left|right]; now apply Z.leb_le. Qed.

Lemma rows_of_In g db r :
  In r (rows_of g db) <-> In r db /\ MediaGroupBuffer.media_group_id r = g.
Proof.
  unfold rows_of. rewrite filter_In. now rewrite String.eqb_eq.
Qed.

Lemma next_or_first (good : string -> bool) l :
  first_of (fun s => good s = true) l (next_or good l "").
Proof.
  induction l as [|x l IH]; simpl.
  - right. split; [constructor | reflexivity].
  - destruct (good x) eqn:E.
    + left. exists [], l. split; [reflexivity|]. split; [constructor | exact E].
    + destruct IH as [(pre & post & Hl & Hpre & Hc)|[Hall Hc]].
      * left. exists (x :: pre), post. split; [simpl; now rewrite <- Hl|].
        split; [|exact Hc]. constructor; [congruence | assumption].
      * right. split; [|exact Hc]. constructor; [congruence | assumption].
Qed.

Lemma due_In threshold db g :
  In g (due_group_ids threshold db) <->
  In g (map MediaGroupBuffer.media_group_id db) /\ is_due threshold db g = true.
Proof.
  unfold due_group_ids. rewrite filter_In.
  rewrite <- !list_elem_of_In, elem_of_remove_dups. reflexivity.
Qed.

Lemma due_NoDup threshold db : List.NoDup (due_group_ids threshold db).
Proof.
  unfold due_group_ids. apply List.NoDup_filter, NoDup_ListNoDup, NoDup_remove_dups.
Qed.

Lemma rows_of_nonempty g db :
  In g (map MediaGroupBuffer.media_group_id db) -> rows_of g db <> [].
Proof.
  intros Hin E. apply in_map_iff in Hin as (r & Hg & Hr).
  assert (In r (rows_of g db)) as Hr' by (apply rows_of_In; auto).
  rewrite E in Hr'. destruct Hr'.
Qed.

(** What the loop body builds for a group that has rows. *)
Lemma bundle_of_spec db g :
  In g (map MediaGroupBuffer.media_group_id db) ->
  exists b r0 rows',
    bundle_of db g = Some b
    /\ order_by by_message_id (rows_of g db) = r0 :: rows'
    /\ media_group_id b = g
    /\ source_chat_id b = MediaGroupBuffer.source_chat_id r0
    /\ source_message_ids b = map MediaGroupBuffer.source_message_id (r0 :: rows')
    /\ file_ids b = map MediaGroupBuffer.telegram_file_id (r0 :: rows')
    /\ caption b = next_or nonblank (map MediaGroupBuffer.caption (r0 :: rows')) ""
    /\ created_at b = min_of (MediaGroupBuffer.created_at r0)
                         (map MediaGroupBuffer.created_at rows').
Proof.
  intros Hin. unfold bundle_of.
  destruct (order_by by_message_id (rows_of g db)) as [|r0 rows'] eqn:E.
  - apply order_by_nil in E. now apply rows_of_nonempty in Hin.
  - eexists _, r0, rows'. repeat split; reflexivity.
Qed.

Lemma bundle_of_group db g b : bundle_of db g = Some b -> media_group_id b = g.
Proof.
  unfold bundle_of. destruct (order_by _ _); [discriminate|].
  intros [= <-]. reflexivity.
Qed.

(** The bundles of the groups [gs], seen from one group. *)
Lemma bundles_of_other db g gs :
  ~ In g gs ->
  List.filter (fun b => String.eqb (media_group_id b) g) (omap (bundle_of db) gs) = [].
Proof.
  induction gs as [|g' gs IH]; simpl; [reflexivity|]. intros Hn.
  destruct (bundle_of db g') as [b'|] eqn:Eb; simpl.
  - rewrite (bundle_of_group _ _ _ Eb).
    destruct (String.eqb_spec g' g) as [->|_]; [tauto|]. apply IH. tauto.
  - apply IH. tauto.
Qed.

Lemma bundles_of_group db g gs :
  List.NoDup gs -> In g gs ->
  List.filter (fun b => String.eqb (media_group_id b) g) (omap (bundle_of db) gs)
  = match bundle_of db g with Some b => [b] | None => [] end.
Proof.
  induction 1 as [|g' gs Hnotin Hnd IH]; simpl; [intros []|].
  intros [->|Hin].
  - destruct (bundle_of db g) as [b|] eqn:Eb; simpl.
    + rewrite (bundle_of_group _ _ _ Eb), String.eqb_refl.
      now rewrite bundles_of_other.
    + now apply bundles_of_other.
  - destruct (bundle_of db g') as [b'|] eqn:Eb; simpl; [|now apply IH].
    rewrite (bundle_of_group _ _ _ Eb).
    destruct (String.eqb_spec g' g) as [->|_]; [contradiction|]. now apply IH.
Qed.

Lemma flush_bundles self db now b :
  In b (flush_due_groups self db now).1 ->
  exists g, In g (due_group_ids (now - seconds (flush_seconds self)) db)
            /\ bundle_of db g = Some b.
Proof.
  unfold flush_due_groups. cbv zeta.
  destruct (due_group_ids _ db) as [|g0 gs] eqn:E; [intros []|].
  unfold fst. intros Hb. apply list_elem_of_In, list_elem_of_omap in Hb.
  destruct Hb as (g & Hg & Hb). exists g. split; [|assumption].
  now apply list_elem_of_In.
Qed.

Lemma is_due_min threshold db g :
  is_due threshold db g = true ->
  exists m, is_min m (map MediaGroupBuffer.created_at (rows_of g db))
            /\ m <= threshold.
Proof.
  unfold is_due, min_created_at.
  destruct (rows_of g db) as [|r rows]; [discriminate|].
  intros Hle%Z.leb_le. eexists. split; [apply min_of_is_min | exact Hle].
Qed.

Lemma filter_all {A} (f : A -> bool) l :
  (forall x, In x l -> f x = true) -> List.filter f l = l.
Proof.
  induction l as [|x l IH]; simpl; [reflexivity|]. intros Hall.
  rewrite (Hall x (or_introl eq_refl)). f_equal. apply IH. auto.
Qed.

(** The early [return []] is the general case at an empty list of ids. *)
Lemma flush_due_groups_eq self db now :
  let due := due_group_ids (now - seconds (flush_seconds self)) db in
  flush_due_groups self db now
  = (omap (bundle_of db) due,
     List.filter
       (fun r => negb (List.existsb (String.eqb (MediaGroupBuffer.media_group_id r)) due))
       db).
Proof.
  unfold flush_due_groups. cbv zeta.
  destruct (due_group_ids _ db); [|reflexivity].
  simpl. f_equal. symmetry. now apply filter_all.
Qed.

Lemma Sorted_mono {A} (R R' : A -> A -> Prop) l :
  (forall a b, R a b -> R' a b) -> Sorted R l -> Sorted R' l.
Proof.
  intros HR. induction 1 as [|x l Hs IH Hhd]; constructor; [assumption|].
  destruct Hhd; constructor; auto.
Qed.

Lemma first_of_ext (P Q : string -> Prop) l c :
  (forall s, In s l -> (P s <-> Q s)) -> first_of P l c -> first_of Q l c.
Proof.
  intros Hext [(pre & post & -> & Hpre & Hc)|[Hall ->]].
  - left. exists pre, post. split; [reflexivity|]. split.
    + rewrite List.Forall_forall in *. intros s Hs Hq. apply (Hpre s Hs).
      apply Hext; [apply in_or_app; now left | assumption].
    + apply Hext; [apply in_or_app; right; now left | assumption].
  - right. split; [|reflexivity].
    rewrite List.Forall_forall in *. intros s Hs Hq. apply (Hall s Hs).
    now apply Hext.
Qed.

Lemma nonempty_true s : nonempty s = true <-> s <> "".
Proof.
  unfold nonempty. destruct (String.eqb_spec s ""); simpl; split;
    congruence.
Qed.

Lemma nonblank_true s : nonblank s = true <-> strip s <> "".
Proof. apply nonempty_true. Qed.

(** C5. Album quiescence: every bundle that [flush_due_groups] emits at
    [now] belongs to an album whose earliest buffered row is at least one
    flush window old, the window being the configured number of seconds
    floored at 1; an album all of whose rows are younger than that is not
    emitted. *)
Theorem flush_waits_for_quiescence (configured : Z)
    (db : list MediaGroupBuffer.t) (now : instant) :
  let self := __init__ configured in
  let window := seconds (Z.max 1 configured) in
  (forall b, In b (flush_due_groups self db now).1 ->
     exists m,
       is_min m (map MediaGroupBuffer.created_at (rows_of (media_group_id b) db))
       /\ m + window <= now)
  /\ (forall g,
        (forall r, In r db -> MediaGroupBuffer.media_group_id r = g ->
                   now < MediaGroupBuffer.created_at r + window) ->
        forall b, In b (flush_due_groups self db now).1 -> media_group_id b <> g).
Proof.
  intros self window.
  assert (forall b, In b (flush_due_groups self db now).1 ->
     exists m,
       is_min m (map MediaGroupBuffer.created_at (rows_of (media_group_id b) db))
       /\ m + window <= now) as Hfirst.
  { intros b Hb. apply flush_bundles in Hb as (g & Hg & Hb).
    apply due_In in Hg as [_ Hdue]. apply is_due_min in Hdue as (m & Hm & Hle).
    rewrite (bundle_of_group _ _ _ Hb). exists m. split; [assumption|].
    subst window. simpl in Hle. lia. }
  split; [exact Hfirst|].
  intros g Hyoung b Hb Hg. destruct (Hfirst b Hb) as (m & [Hin _] & Hle).
  rewrite Hg in Hin. apply in_map_iff in Hin as (r & <- & Hr).
  apply rows_of_In in Hr as [Hr Hgr]. specialize (Hyoung r Hr Hgr). lia.
Qed.

(** C4. Album completeness: for an album id selected as due,
    [flush_due_groups] emits exactly one bundle; its message ids and file
    handles are those of all buffered rows of the album, in ascending
    order of message id; its caption is the first caption in that order
    that is not blank ([""] when there is none), which for captions as the
    parser stores them, stripped, is the first non-empty one; its chat id
    is that of the first row; its created instant is the least one of the
    rows; and the rows left in the buffer are exactly those of the albums
    that were not due. *)
Theorem flush_emits_one_complete_bundle (self : MediaGroupAggregator)
    (db : list MediaGroupBuffer.t) (now : instant) (g : string) :
  let due := due_group_ids (now - seconds (flush_seconds self)) db in
  In g due ->
  exists b r0 rows,
    List.filter (fun b => String.eqb (media_group_id b) g)
                (flush_due_groups self db now).1 = [b]
    /\ Permutation (r0 :: rows) (rows_of g db)
    /\ Sorted (fun r r' => MediaGroupBuffer.source_message_id r
                            <= MediaGroupBuffer.source_message_id r') (r0 :: rows)
    /\ source_message_ids b = map MediaGroupBuffer.source_message_id (r0 :: rows)
    /\ file_ids b = map MediaGroupBuffer.telegram_file_id (r0 :: rows)
    /\ first_of (fun s => strip s <> "")
                (map MediaGroupBuffer.caption (r0 :: rows)) (caption b)
    /\ (Forall (fun r => strip (MediaGroupBuffer.caption r) = MediaGroupBuffer.caption r) db ->
        first_of (fun s => s <> "")
                 (map MediaGroupBuffer.caption (r0 :: rows)) (caption b))
    /\ source_chat_id b = MediaGroupBuffer.source_chat_id r0
    /\ is_min (created_at b) (map MediaGroupBuffer.created_at (r0 :: rows))
    /\ (forall r, In r (flush_due_groups self db now).2 <->
                   In r db /\ ~ In (MediaGroupBuffer.media_group_id r) due).
Proof.
  intros due Hdue. rewrite flush_due_groups_eq. cbv zeta. fold due. unfold fst, snd.
  pose proof Hdue as Hdue'. apply due_In in Hdue' as [Hin _].
  destruct (bundle_of_spec db g Hin)
    as (b & r0 & rows & Hb & Hrows & Hg & Hchat & Hids & Hfiles & Hcap & Hmin).
  assert (Permutation (r0 :: rows) (rows_of g db)) as Hperm.
  { rewrite <- Hrows. apply order_by_perm. }
  assert (first_of (fun s => strip s <> "")
            (map MediaGroupBuffer.caption (r0 :: rows)) (caption b)) as Hfirst.
  { rewrite Hcap. eapply first_of_ext; [|apply next_or_first].
    intros s _. apply nonblank_true. }
  exists b, r0, rows.
  split; [|split; [assumption|split; [|split; [assumption|split; [assumption|
    split; [assumption|split; [|split; [assumption|split]]]]]]]].
  - rewrite (bundles_of_group db g due (due_NoDup _ _) Hdue). now rewrite Hb.
  - rewrite <- Hrows. eapply Sorted_mono; [|apply order_by_sorted, by_message_id_total].
    intros a c. unfold by_message_id. apply Z.leb_le.
  - intros Hstripped. eapply first_of_ext; [|exact Hfirst].
    intros s Hs. apply in_map_iff in Hs as (r & <- & Hr).
    apply (Permutation_in _ Hperm), rows_of_In in Hr as [Hr _].
    rewrite List.Forall_forall in Hstripped. now rewrite (Hstripped r Hr).
  - rewrite Hmin. apply min_of_is_min.
  - intros r. rewrite filter_In, negb_true_iff.
    rewrite <- not_true_iff_false, existsb_exists.
    split; intros [Hr Hn]; (split; [assumption|]).
    + intros Hd. apply Hn. exists (MediaGroupBuffer.media_group_id r).
      split; [assumption | apply String.eqb_refl].
    + intros (x & Hx & E%String.eqb_eq). subst x. contradiction.
Qed.

(** C6. The state half of idempotence holds, the other half does not:
    once a member is buffered, adding it again leaves the buffer as it is,
    but the call ends with the [IntegrityError] of the commit, which
    [add] does not catch. *)
Theorem add_twice_raises (db db1 : list MediaGroupBuffer.t)
    (parsed : ParsedMessage.t) (raw raw' : dict) (g : string) :
  ParsedMessage.media_group_id parsed = Some g -> g <> "" ->
  add db parsed raw = (Return tt, db1) ->
  exists msg, add db1 parsed raw' = (Raise (IntegrityError msg), db1).
Proof.
  intros Hg Hne. unfold add. rewrite Hg.
  apply nonempty_true in Hne. rewrite Hne. simpl.
  unfold MediaGroupBuffer.insert.
  destruct (existsb _ db) eqn:E; [discriminate|]. intros [= <-].
  match goal with |- context [existsb ?f ?l] => assert (existsb f l = true) as -> end.
  { rewrite existsb_app. apply orb_true_iff. right. simpl.
    unfold MediaGroupBuffer.clash. simpl.
    now rewrite !String.eqb_refl, Z.eqb_refl. }
  eexists. reflexivity.
Qed.

End aggregator_facts.

(** ** Strings: substring test and case folding *)

Module string_facts.

Lemma app_nil b : "" +:+ b = b.
Proof. reflexivity. Qed.

Lemma app_cons c a b : String c a +:+ b = String c (a +:+ b).
Proof. reflexivity. Qed.

Lemma prefix_app a b :
  String.prefix a b = true <-> exists post, b = a +:+ post.
Proof.
  revert b. induction a as [|c a IH]; intros b; simpl.
  - split; [intros _; now exists b | intros _; now destruct b].
  - destruct b as [|c' b]; simpl.
    + split; [discriminate | intros [post [=]]].
    + destruct (Ascii.ascii_dec c c') as [->|Hne].
      * rewrite IH. split; intros [post E]; exists post;
          rewrite app_cons in *; congruence.
      * split; [discriminate | intros [post E]; rewrite app_cons in E; congruence].
Qed.

Lemma contains_app needle hay :
  contains needle hay = true <->
  exists pre post, hay = pre +:+ needle +:+ post.
Proof.
  induction hay as [|c hay IH].
  - change (contains needle "") with (String.prefix needle "" || false).
    rewrite orb_false_r, prefix_app. split.
    + intros [post E]. now exists "", post.
    + intros (pre & post & E). destruct pre; [now exists post|discriminate].
  - change (contains needle (String c hay))
      with (String.prefix needle (String c hay) || contains needle hay).
    rewrite orb_true_iff, prefix_app, IH. split.
    + intros [[post E]|(pre & post & E)].
      * now exists "", post.
      * exists (String c pre), post. rewrite app_cons. now rewrite E.
    + intros (pre & post & E). destruct pre as [|c' pre].
      * left. now exists post.
      * right. rewrite app_cons in E. injection E as _ E. now exists pre, post.
Qed.

Lemma lower_app a b : lower (a +:+ b) = lower a +:+ lower b.
Proof.
  induction a as [|c a IH]; [reflexivity|].
  rewrite app_cons. simpl. now rewrite IH.
Qed.

Lemma lower_split t a b :
  lower t = a +:+ b ->
  exists t1 t2, t = t1 +:+ t2 /\ lower t1 = a /\ lower t2 = b.
Proof.
  revert t. induction a as [|c a IH]; intros t E.
  - now exists "", t.
  - rewrite app_cons in E. destruct t as [|c' t]; simpl in E; [discriminate|].
    injection E as Hc E. apply IH in E as (t1 & t2 & -> & <- & <-).
    exists (String c' t1), t2. rewrite app_cons. simpl. now rewrite Hc.
Qed.

Lemma rstrip_cons c s :
  rstrip (String c s)
  = match rstrip s with
    | EmptyString => if isspace c then EmptyString else String c EmptyString
    | r => String c r
    end.
Proof. reflexivity. Qed.

Lemma rstrip_idempotent s : rstrip (rstrip s) = rstrip s.
Proof.
  induction s as [|c s IH]; [reflexivity|]. rewrite rstrip_cons.
  destruct (rstrip s) as [|c' r] eqn:E.
  - destruct (isspace c) eqn:Ec; [reflexivity|]. rewrite rstrip_cons.
    cbn [rstrip]. now rewrite Ec.
  - rewrite rstrip_cons, IH. reflexivity.
Qed.

(** [lstrip] leaves nothing or a string that starts with a character that
    is not a space. *)
Lemma lstrip_head s :
  lstrip s = "" \/ exists c t, lstrip s = String c t /\ isspace c = false.
Proof.
  induction s as [|c s IH]; [now left|]. cbn.
  destruct (isspace c) eqn:E; [exact IH|]. right. now exists c, s.
Qed.

Lemma lstrip_rstrip c t :
  isspace c = false -> lstrip (rstrip (String c t)) = rstrip (String c t).
Proof.
  intros Hc. rewrite rstrip_cons. destruct (rstrip t); rewrite ?Hc; cbn [lstrip];
    now rewrite Hc.
Qed.

(** A stripped string is left as it is by [strip]. *)
Lemma strip_idempotent s : strip (strip s) = strip s.
Proof.
  unfold strip. destruct (lstrip_head s) as [->|(c & t & -> & Hc)]; [reflexivity|].
  rewrite lstrip_rstrip by assumption. apply rstrip_idempotent.
Qed.

(** What the parser stores is stripped. *)
Lemma _safe_text_stripped `{Builtins} (value : Py.value) :
  strip (parser._safe_text value) = parser._safe_text value.
Proof. destruct value; try apply strip_idempotent. reflexivity. Qed.

(** [marker] occurs in [text] up to the case of ASCII letters. *)
Definition contains_ci (text marker : string) : Prop :=
  exists pre mid post, text = pre +:+ mid +:+ post /\ lower mid = lower marker.

Lemma contains_lower text marker :
  lower marker = marker ->
  (contains marker (lower text) = true <-> contains_ci text marker).
Proof.
  intros Hm. rewrite contains_app. unfold contains_ci. rewrite Hm. split.
  - intros (pre & post & E).
    apply lower_split in E as (t1 & t2 & -> & _ & E).
    apply lower_split in E as (t3 & t4 & -> & E & _).
    now exists t1, t3, t4.
  - intros (pre & mid & post & -> & E).
    exists (lower pre), (lower post). now rewrite !lower_app, E.
Qed.

End string_facts.

(** ** The provider client *)

Module client_facts.
Import client string_facts.

Section Classifier.
Context `{Builtins}.

Lemma markers_lower marker : In marker markers -> lower marker = marker.
Proof.
  unfold markers. simpl.
  intros Hin. repeat (destruct Hin as [<-|Hin]; [reflexivity|]). destruct Hin.
Qed.

Lemma any_marker text :
  any (fun marker => contains marker (lower text)) markers = true <->
  exists marker, In marker markers /\ contains_ci text marker.
Proof.
  unfold any. rewrite existsb_exists. split; intros (m & Hm & Hc); exists m;
    (split; [assumption|]); now apply (contains_lower _ _ (markers_lower _ Hm)).
Qed.

Lemma status_matches_iff (code : option Z) :
  match code with
  | Some c => (c =? 403) || (c =? 404)
  | None => false
  end = true
  <-> code = Some 403 \/ code = Some 404.
Proof.
  destruct code as [c|].
  - rewrite orb_true_iff, !Z.eqb_eq. split.
    + intros [->| ->]; auto.
    + intros [[= ->]|[= ->]]; auto.
  - split; [discriminate | intros [[=]|[=]]].
Qed.

(** The three tests of the classifier, as one disjunction. *)
Lemma is_unsupported_or_permission_orb (e : TikTokAPIError) :
  is_unsupported_or_permission e
  = match exceptions.status_code e with
    | Some c => (c =? 403) || (c =? 404)
    | None => false
    end
    || (any (fun marker => contains marker (lower (message e))) markers
        || any (fun marker => contains marker (lower (py_str (VDict (payload e)))))
             markers).
Proof.
  unfold is_unsupported_or_permission.
  destruct (match exceptions.status_code e with Some _ => _ | None => _ end);
    [reflexivity|].
  now destruct (any (fun marker => contains marker (lower (message e))) markers).
Qed.

(** C7. An error is classified permission/unsupported exactly when its
    HTTP status is 403 or 404, or its message or the text of its payload
    contains one of the eight markers, case-insensitively. *)
Theorem is_unsupported_or_permission_iff (e : TikTokAPIError) :
  is_unsupported_or_permission e = true <->
  (exceptions.status_code e = Some 403 \/ exceptions.status_code e = Some 404)
  \/ exists marker,
       In marker [ "unsupported"; "not support"; "permission"; "scope";
                   "forbidden"; "insufficient"; "not authorized";
                   "not available" ]
       /\ (contains_ci (message e) marker
           \/ contains_ci (py_str (VDict (payload e))) marker).
Proof.
  change [ "unsupported"; "not support"; "permission"; "scope"; "forbidden";
           "insufficient"; "not authorized"; "not available" ] with markers.
  rewrite is_unsupported_or_permission_orb, !orb_true_iff,
    status_matches_iff, !any_marker.
  split.
  - intros [Hs|[(m & Hm & Hc)|(m & Hm & Hc)]]; [now left | |];
      right; exists m; auto.
  - intros [Hs|(m & Hm & [Hc|Hc])]; [now left | |]; right; [left|right];
      exists m; auto.
Qed.
End Classifier.

End client_facts.

(** ** Target accounts *)

Module resolve_facts.
Import config tasks.

Section Resolve.
Context `{Builtins}.

Definition entries_nonempty (mapping : gmap Z (list string)) : Prop :=
  forall chat_id labels, mapping !! chat_id = Some labels -> labels <> [].

Lemma mapping_step_nonempty mapping item :
  entries_nonempty mapping -> entries_nonempty (mapping_step mapping item).
Proof.
  intros Hm. unfold mapping_step.
  destruct (py_int (VStr item.1)) as [chat_id|]; [|assumption].
  destruct item.2 as [| | | |value|]; try assumption.
  destruct (map _ _) as [|l ls] eqn:E; [assumption|].
  intros k labels. rewrite lookup_insert. case_decide.
  - intros [= <-]. discriminate.
  - apply Hm.
Qed.

(** Every entry of the configured map lists at least one label. *)
Lemma chat_account_mapping_nonempty (self : Settings) :
  entries_nonempty (chat_account_mapping self).
Proof.
  unfold chat_account_mapping.
  assert (forall items mapping, entries_nonempty mapping ->
            entries_nonempty (fold_left mapping_step items mapping)) as Hfold.
  { induction items as [|item items IH]; intros mapping Hm; simpl;
      [assumption|]. apply IH. now apply mapping_step_nonempty. }
  assert (entries_nonempty (∅ : gmap Z (list string))) as Hempty.
  { intros k labels. rewrite lookup_empty. discriminate. }
  destruct (tg_to_tiktok_mapping_json self) as [[| | | | |items]|];
    try exact Hempty.
  now apply Hfold.
Qed.

Lemma by_label_total a b : by_label a b = true \/ by_label b a = true.
Proof. apply String.leb_total. Qed.

Lemma mem_In s l : publisher.mem s l = true <-> In s l.
Proof.
  unfold publisher.mem. rewrite existsb_exists. split.
  - intros (x & Hx & E%String.eqb_eq). now subst.
  - intros Hin. exists s. split; [assumption | apply String.eqb_refl].
Qed.

(** C9. Target-account resolution returns, in ascending order of
    account label, exactly the accounts whose label is listed in the
    entry of the configured chat-to-labels map for the source chat when
    the chat appears in the map, and all accounts otherwise; it leaves
    the state as it is. *)
Theorem resolve_target_accounts_spec (env : Env) (w : World) (source_chat_id : Z) :
  exists result,
    _resolve_target_accounts env source_chat_id w = (Return result, w)
    /\ Sorted (fun a b => String.leb (TikTokAccount.account_label a)
                                     (TikTokAccount.account_label b) = true) result
    /\ match chat_account_mapping (settings env) !! source_chat_id with
       | Some labels =>
           Permutation result
             (List.filter
                (fun a => bool_decide (TikTokAccount.account_label a ∈ labels))
                (accounts w))
       | None => Permutation result (accounts w)
       end.
Proof.
  eexists. split; [reflexivity|]. split.
  - apply order_by_sorted, by_label_total.
  - unfold resolve.
    pose proof (chat_account_mapping_nonempty (settings env) source_chat_id) as Hne.
    destruct (chat_account_mapping (settings env) !! source_chat_id)
      as [[|l ls]|]; [now destruct (Hne [] eq_refl) | | apply order_by_perm].
    rewrite order_by_perm.
    erewrite filter_ext; [reflexivity|].
    intros a. simpl. apply eq_true_iff_eq.
    rewrite bool_decide_eq_true, list_elem_of_In, <- mem_In. reflexivity.
Qed.
End Resolve.

End resolve_facts.

(** ** What a computation leaves alone *)

Module frame.

(** [m] does not change the observation [f] of the state, however it
    ends. *)
Definition preserves {X A} (f : World -> X) (m : M A) : Prop :=
  forall w, f (m w).2 = f w.

Lemma bind_eq {A B} (m : M A) (k : A -> M B) w :
  (m ≫= k) w
  = match m w with
    | (Return a, w1) => k a w1
    | (Raise x, w1) => (Raise x, w1)
    end.
Proof. reflexivity. Qed.

Lemma ret_eq {A} (a : A) w : (mret a : M A) w = (Return a, w).
Proof. reflexivity. Qed.

Lemma raise_eq {A} (x : exn) w : (raise x : M A) w = (Raise x, w).
Proof. reflexivity. Qed.

Section Preserves.
Context {X : Type} (f : World -> X).

Lemma preserves_ret {A} (a : A) : preserves f (mret a).
Proof. now intros w. Qed.

Lemma preserves_raise {A} (x : exn) : preserves f (raise x : M A).
Proof. now intros w. Qed.

Lemma preserves_lift {A} (o : outcome A) : preserves f (lift o).
Proof. now intros w. Qed.

Lemma preserves_get_world : preserves f get_world.
Proof. now intros w. Qed.

Lemma preserves_bind {A B} (m : M A) (k : A -> M B) :
  preserves f m -> (forall a, preserves f (k a)) -> preserves f (m ≫= k).
Proof.
  intros Hm Hk w. unfold mbind, M_bind. specialize (Hm w).
  destruct (m w) as [[a|x] w1]; simpl in *; [|assumption].
  now rewrite Hk.
Qed.

Lemma preserves_try {A} (body : M A) handles handler :
  preserves f body -> (forall x, preserves f (handler x)) ->
  preserves f (try_except body handles handler).
Proof.
  intros Hb Hh w. unfold try_except. specialize (Hb w).
  destruct (body w) as [[a|x] w1]; simpl in *; [assumption|].
  destruct (handles x); simpl; [|assumption]. now rewrite Hh.
Qed.

Lemma preserves_attempt {A} (body : M A) :
  preserves f body -> preserves f (attempt body).
Proof.
  intros Hb w. unfold attempt. specialize (Hb w).
  now destruct (body w) as [r w1].
Qed.

Lemma preserves_for_each {A} (xs : list A) (body : A -> M unit) :
  (forall x, preserves f (body x)) -> preserves f (for_each xs body).
Proof.
  intros Hb. induction xs as [|x xs IH]; simpl.
  - apply preserves_ret.
  - apply preserves_bind; [apply Hb | intros _; apply IH].
Qed.
End Preserves.

Create HintDb frame.

#[export] Hint Extern 5 (preserves _ (send _ _)) =>
  solve [intro; reflexivity] : frame.
#[export] Hint Extern 5 (preserves _ (utcnow _)) =>
  solve [intro; reflexivity] : frame.
#[export] Hint Extern 5 (preserves _ (set_accounts _)) =>
  solve [intro; reflexivity] : frame.
#[export] Hint Extern 5 (preserves _ (set_deliveries _)) =>
  solve [intro; reflexivity] : frame.
#[export] Hint Extern 5 (preserves _ (set_content_items _)) =>
  solve [intro; reflexivity] : frame.
#[export] Hint Extern 5 (preserves _ (note_publish _)) =>
  solve [intro; reflexivity] : frame.

(** One step of a frame proof: a known fact about the computation, the
    rule of its head construct, or a case analysis on what a conditional
    inspects. *)
Ltac frame_step :=
  first
    [ solve [eauto 4 with frame nocore]
    | apply preserves_ret | apply preserves_raise | apply preserves_lift
    | apply preserves_get_world
    | apply preserves_bind; [|intros]
    | apply preserves_try; [|intros]
    | apply preserves_attempt
    | apply preserves_for_each; intros
    | match goal with
      | |- preserves _ (if ?b then _ else _) => destruct b
      | |- preserves _ (match ?x with _ => _ end) => destruct x
      | |- preserves _ (let '(_, _) := ?x in _) => destruct x
      | |- preserves _ (let _ := _ in _) => cbv zeta
      end ].

Ltac frame := repeat frame_step.

End frame.

(** ** The token lifecycle *)

Module oauth_facts.
Import frame client oauth.

Section Client.
Context `{Builtins} (env : Env) {X : Type} (f : World -> X).
Hypothesis f_send : forall c, preserves f (send env c).

Lemma _raise_if_api_error_preserves payload :
  preserves f (_raise_if_api_error payload).
Proof. unfold _raise_if_api_error. frame. Qed.
#[local] Hint Resolve _raise_if_api_error_preserves : frame.

Lemma _request_preserves method path tok body data headers :
  preserves f (_request env method path tok body data headers).
Proof. unfold _request. frame. Qed.
#[local] Hint Resolve _request_preserves : frame.

Lemma refresh_access_token_preserves k s r :
  preserves f (refresh_access_token env k s r).
Proof. unfold refresh_access_token. frame. Qed.

Lemma init_video_upload_preserves tok caption mode size :
  preserves f (init_video_upload env tok caption mode size).
Proof. unfold init_video_upload. frame. Qed.

Lemma finalize_video_preserves tok pid caption mode :
  preserves f (finalize_video env tok pid caption mode).
Proof. unfold finalize_video. frame. Qed.

Lemma init_photo_upload_preserves tok caption mode n :
  preserves f (init_photo_upload env tok caption mode n).
Proof. unfold init_photo_upload. frame. Qed.

Lemma finalize_photo_upload_preserves tok pid caption mode :
  preserves f (finalize_photo_upload env tok pid caption mode).
Proof. unfold finalize_photo_upload. frame. Qed.

Lemma upload_binary_preserves url path ct :
  preserves f (upload_binary env url path ct).
Proof. unfold upload_binary. frame. Qed.
End Client.

#[export] Hint Resolve refresh_access_token_preserves init_video_upload_preserves
  finalize_video_preserves init_photo_upload_preserves
  finalize_photo_upload_preserves upload_binary_preserves : frame.

Section TokenSkew.
Context `{Builtins} (env : Env).

(** C3, as the code has it. When [ensure_valid_access_token] returns a
    credential, the account has an expiry; with [now] the last reading
    of the clock the call made, either the stored credential was
    returned untouched and expires more than 90 seconds after [now], or
    the credential was refreshed and expires [max(60, expires_in)]
    seconds after [now]: at least 60 seconds, and more than 90 seconds
    exactly when the granted lifetime exceeds 90. *)
Theorem ensure_valid_access_token_expiry (account account' : TikTokAccount.t)
    (w w' : World) (token : string) :
  ensure_valid_access_token env account w = (Return (token, account'), w') ->
  let now := utcnow_at env (Nat.pred (clock_reads w')) in
  exists expiry,
    TikTokAccount.expires_at account' = Some expiry
    /\ ((account' = account /\ trace w' = trace w /\ now + seconds 90 < expiry)
        \/ exists token_data w1 w2,
             refresh_access_token env
               (config.tiktok_client_key (settings env))
               (config.tiktok_client_secret (settings env))
               (default "" (TikTokAccount.refresh_token account)) w1
             = (Return token_data, w2)
             /\ expiry = now + seconds
                           (Z.max 60 (_safe_int (get token_data "expires_in") 3600))
             /\ now + seconds 60 <= expiry
             /\ (now + seconds 90 < expiry
                 <-> 90 < _safe_int (get token_data "expires_in") 3600)).
Proof.
  unfold ensure_valid_access_token.
  destruct (TikTokAccount.needs_reauth account); [discriminate|].
  destruct (opt_truthy (TikTokAccount.access_token account)); [|discriminate].
  cbn [negb].
  intros Hrun. set (last := utcnow_at env (Nat.pred (clock_reads w'))).
  assert (forall w0,
    refresh_credentials env account
      (default "" (TikTokAccount.access_token account)) w0
    = (Return (token, account'), w') ->
    exists token_data w2,
      refresh_access_token env
        (config.tiktok_client_key (settings env))
        (config.tiktok_client_secret (settings env))
        (default "" (TikTokAccount.refresh_token account)) w0
      = (Return token_data, w2)
      /\ clock_reads w' = S (clock_reads w2)
      /\ TikTokAccount.expires_at account'
         = Some (utcnow_at env (clock_reads w2)
                 + seconds (Z.max 60 (_safe_int (get token_data "expires_in") 3600))))
    as Hrefresh.
  { intros w0. unfold refresh_credentials.
    destruct (opt_truthy (TikTokAccount.refresh_token account)); cbn [negb];
      [|discriminate].
    unfold mbind, M_bind, try_except.
    destruct (refresh_access_token env _ _ _ w0) as [[token_data|x] w2] eqn:E.
    - cbn. intros [= _ <- <-]. exists token_data, w2. auto.
    - destruct (is_api_error x); cbn; discriminate. }
  assert (forall w0, clock_reads w' = S (clock_reads w0) ->
            last = utcnow_at env (clock_reads w0)) as Hnow.
  { intros w0 E. subst last. now rewrite E. }
  assert (forall (token_data : dict) n,
    let expiry := n + seconds (Z.max 60 (_safe_int (get token_data "expires_in") 3600)) in
    n + seconds 60 <= expiry
    /\ (n + seconds 90 < expiry
        <-> 90 < _safe_int (get token_data "expires_in") 3600)) as Harith.
  { intros td n. unfold seconds. cbv zeta. lia. }
  destruct (TikTokAccount.expires_at account) as [expires_at|] eqn:Eexp.
  - rewrite !bind_eq in Hrun. unfold utcnow in Hrun.
    destruct (TikTokAccount.expires_at_tz account).
    2:{ rewrite raise_eq in Hrun. discriminate. }
    rewrite ret_eq in Hrun.
    destruct (utcnow_at env (clock_reads w) + seconds 90 <? expires_at) eqn:Efresh.
    + rewrite ret_eq in Hrun. injection Hrun as <- <- <-.
      exists expires_at. split; [assumption|]. left.
      split; [reflexivity|]. split; [reflexivity|].
      subst last. cbn. now apply Z.ltb_lt.
    + apply Hrefresh in Hrun as (td & w2 & E & Hreads & Hexp).
      eexists. split; [exact Hexp|]. right. eexists td, _, w2.
      split; [exact E|]. rewrite (Hnow w2 Hreads).
      split; [reflexivity|]. apply Harith.
  - rewrite bind_eq, ret_eq in Hrun.
    apply Hrefresh in Hrun as (td & w2 & E & Hreads & Hexp).
    eexists. split; [exact Hexp|]. right. eexists td, _, w2.
    split; [exact E|]. rewrite (Hnow w2 Hreads).
    split; [reflexivity|]. apply Harith.
Qed.
End TokenSkew.

(** The claim as the specification words it fails on the refresh path:
    the stored credential of account [a] expired at 1000 s, the clock
    stands at 2000 s, the provider grants 60 seconds; the call returns the
    new credential, whose expiry is 60 seconds, not more than 90 seconds,
    after the clock. *)
Lemma refreshed_credential_inside_skew :
  exists account' w',
    ensure_valid_access_token (H := python_model.builtins)
      scenarios.short_lived_env scenarios.account_a
      (scenarios.world_of [scenarios.account_a] [] [])
    = (Return ("new-token", account'), w')
    /\ TikTokAccount.expires_at account' = Some (seconds 2000 + seconds 60)
    /\ utcnow_at scenarios.short_lived_env (Nat.pred (clock_reads w')) = seconds 2000
    /\ ~ (seconds 2000 + seconds 90 < seconds 2000 + seconds 60).
Proof.
  eexists _, _. split; [vm_compute; reflexivity|].
  split; [reflexivity|]. split; [reflexivity|]. vm_compute. discriminate.
Qed.

Lemma ensure_valid_access_token_expiry_witness :
  exists token account' w',
    ensure_valid_access_token (H := python_model.builtins)
      scenarios.short_lived_env scenarios.account_a
      (scenarios.world_of [scenarios.account_a] [] [])
    = (Return (token, account'), w')
    /\ exists expiry,
         TikTokAccount.expires_at account' = Some expiry
         /\ seconds 2000 + seconds 60 <= expiry.
Proof.
  eexists _, _, _. split; [vm_compute; reflexivity|].
  destruct (ensure_valid_access_token_expiry (H := python_model.builtins)
              scenarios.short_lived_env scenarios.account_a _
              (scenarios.world_of [scenarios.account_a] [] []) _ "new-token"
              ltac:(vm_compute; reflexivity))
    as (expiry & Hexp & _).
  exists expiry. split; [exact Hexp|].
  injection Hexp as <-. vm_compute. discriminate.
Defined.

End oauth_facts.

(** ** Publishing a video *)

Module video_facts.
Import frame client video_posting.

Section Fallback.
Context `{Builtins} (env : Env).

(** A result of [_publish_with_mode] carries the mode it was called
    with. *)
Lemma _publish_with_mode_mode tok path caption mode_ w res w' :
  _publish_with_mode env tok path caption mode_ w = (Return res, w') ->
  mode res = mode_.
Proof.
  unfold _publish_with_mode. rewrite bind_eq.
  destruct (lift _ w) as [[size|x] w1]; [|discriminate].
  rewrite bind_eq.
  destruct (init_video_upload env tok caption mode_ size w1) as [[init_data|x] w2];
    [|discriminate].
  cbv zeta.
  destruct (negb (opt_truthy (_extract_upload_url init_data))); [discriminate|].
  rewrite bind_eq.
  destruct (upload_binary env _ path "video/mp4" w2) as [[[]|x] w3]; [|discriminate].
  rewrite bind_eq.
  destruct (finalize_video env tok _ caption mode_ w3) as [[fin|x] w4]; [|discriminate].
  rewrite ret_eq. now intros [= <- _].
Qed.

(** The recursion of [_extract_upload_url], as the source writes it: the
    last resort is the same search in the object under ["source_info"]. *)
Lemma _extract_upload_url_eq (data : dict) :
  _extract_upload_url data
  = let single := _string_or_none (get data "upload_url") in
    if opt_truthy single then single else
    let listed :=
      match get data "upload_urls" with
      | VList upload_urls => first_string upload_urls
      | _ => None
      end in
    if opt_truthy listed then listed else
    match get data "source_info" with
    | VDict source_info => _extract_upload_url source_info
    | _ => None
    end.
Proof.
  unfold _extract_upload_url at 1. cbn [extract_upload_url_of]. cbv zeta.
  destruct (opt_truthy (_string_or_none (get data "upload_url"))); [reflexivity|].
  destruct (opt_truthy _); [reflexivity|].
  induction data as [|[k v] data IH]; [reflexivity|].
  cbn [get]. destruct (String.eqb "source_info" k); [|exact IH].
  now destruct v.
Qed.

(** The condition under which the draft fallback is taken, read off the
    first attempt. *)
Definition falls_back (requested_mode : string) (fallback_to_draft : bool)
    (first : outcome PublishResult) : Prop :=
  requested_mode = "direct" /\ fallback_to_draft = true
  /\ exists exc, first = Raise (ApiError exc)
                 /\ is_unsupported_or_permission exc = true.

(** C8. [publish_video_file] runs [_publish_with_mode] with the
    requested mode; it runs the whole sequence again with mode ["draft"],
    from the state the first attempt has left, exactly when the requested
    mode was ["direct"], the fallback policy is on and the first attempt
    raised an API error classified permission/unsupported; in every
    other case the outcome of the first attempt, error included, is the
    outcome of the call; a result obtained by the fallback carries mode
    ["draft"]. *)
Theorem publish_video_file_fallback (access_token video_path caption
    requested_mode : string) (fallback_to_draft : bool) (w : World) :
  let first := _publish_with_mode env access_token video_path caption
                 requested_mode w in
  let call := publish_video_file env access_token video_path caption
                requested_mode fallback_to_draft w in
  (falls_back requested_mode fallback_to_draft first.1 ->
     call = _publish_with_mode env access_token video_path caption "draft" first.2
     /\ forall res w', call = (Return res, w') -> mode res = "draft")
  /\ (~ falls_back requested_mode fallback_to_draft first.1 -> call = first).
Proof.
  cbv zeta. unfold publish_video_file, try_except, falls_back.
  destruct (_publish_with_mode env access_token video_path caption
              requested_mode w) as [[res|x] w1] eqn:E1; cbn [fst snd].
  - split.
    + intros (_ & _ & exc & [=] & _).
    + reflexivity.
  - destruct x as [exc| | | | |]; cbn [is_api_error];
      try (split; [intros (_ & _ & exc' & [=] & _) | reflexivity]).
    destruct (String.eqb_spec requested_mode "direct") as [->|Hmode];
      cbn [andb].
    + destruct fallback_to_draft; cbn [andb].
      * destruct (is_unsupported_or_permission exc) eqn:Ecls.
        -- split.
           ++ intros _. split; [reflexivity|].
              intros res w'. apply _publish_with_mode_mode.
           ++ intros Hn. exfalso. apply Hn. repeat split. now exists exc.
        -- split; [|reflexivity].
           intros (_ & _ & exc' & [= <-] & Hc). congruence.
      * split; [|reflexivity]. intros (_ & [=] & _).
    + split; [|reflexivity]. intros (Hm & _). contradiction.
Qed.
End Fallback.

End video_facts.

(** ** What publishing leaves alone *)

Module publish_facts.
Import frame client oauth oauth_facts.

Definition keeps_label (assign : TikTokAccount.t -> TikTokAccount.t) : Prop :=
  forall a, TikTokAccount.account_label (assign a) = TikTokAccount.account_label a.

Lemma mark_reauth_keeps_label : keeps_label mark_reauth.
Proof. now intros a. Qed.

Lemma with_credentials_keeps_label tok refresh expiry tz reauth :
  keeps_label (fun a => with_credentials a tok refresh expiry tz reauth).
Proof. now intros a. Qed.

(** The labels of the accounts table, in row order. *)
Definition labels (w : World) : list string :=
  map TikTokAccount.account_label (accounts w).

Lemma commit_account_labels pk assign :
  keeps_label assign -> preserves labels (commit_account pk assign).
Proof.
  intros Hk w. unfold commit_account, labels. rewrite bind_eq.
  unfold get_world, set_accounts. cbn [snd accounts].
  induction (accounts w) as [|a l IH]; [reflexivity|]. cbn. rewrite IH. f_equal.
  destruct (TikTokAccount.id a =? pk); [apply Hk | reflexivity].
Qed.

Section Publish.
Context `{Builtins} (env : Env) {X : Type} (f : World -> X).
Hypothesis f_send : forall c, preserves f (send env c).
Hypothesis f_now : preserves f (utcnow env).
Hypothesis f_commit :
  forall pk assign, keeps_label assign -> preserves f (commit_account pk assign).

#[local] Hint Resolve mark_reauth_keeps_label with_credentials_keeps_label : frame.

Lemma refresh_credentials_preserves account tok :
  preserves f (refresh_credentials env account tok).
Proof. unfold refresh_credentials. frame. Qed.
#[local] Hint Resolve refresh_credentials_preserves : frame.

Lemma ensure_valid_access_token_preserves account :
  preserves f (ensure_valid_access_token env account).
Proof. unfold ensure_valid_access_token. frame. Qed.

Lemma _publish_with_mode_preserves tok path caption mode :
  preserves f (video_posting._publish_with_mode env tok path caption mode).
Proof. unfold video_posting._publish_with_mode. frame. Qed.
#[local] Hint Resolve _publish_with_mode_preserves : frame.

Lemma publish_video_file_preserves tok path caption mode fb :
  preserves f (video_posting.publish_video_file env tok path caption mode fb).
Proof. unfold video_posting.publish_video_file. frame. Qed.

Lemma try_publish_photo_or_carousel_preserves tok paths caption mode :
  preserves f (photo_posting.try_publish_photo_or_carousel env tok paths caption mode).
Proof. unfold photo_posting.try_publish_photo_or_carousel. frame. Qed.

Lemma _convert_to_video_preserves item files :
  preserves f (publisher._convert_to_video env item files).
Proof. unfold publisher._convert_to_video, publisher.first_file. frame. Qed.

#[local] Hint Resolve ensure_valid_access_token_preserves
  publish_video_file_preserves try_publish_photo_or_carousel_preserves
  _convert_to_video_preserves : frame.

Lemma publish_preserves item account files caption :
  preserves f (publisher.publish env item account files caption).
Proof. unfold publisher.publish, publisher.first_file. frame. Qed.
End Publish.

End publish_facts.

(** ** The deliveries table *)

Module delivery_facts.

Definition ids (table : list Delivery.t) : list Z := map Delivery.id table.
Definition keys (table : list Delivery.t) : list (string * string) :=
  map Delivery.key table.

(** The primary key and the unique constraint of [deliveries]. *)
Definition unique (table : list Delivery.t) : Prop :=
  List.NoDup (ids table) /\ List.NoDup (keys table).

(** An assignment to columns other than the key columns. *)
Definition keeps_key (assign : Delivery.t -> Delivery.t) : Prop :=
  forall d, Delivery.id (assign d) = Delivery.id d
            /\ Delivery.key (assign d) = Delivery.key d.

Lemma with_status_keeps_key status error (post : Delivery.t -> option string) :
  keeps_key (fun d => Delivery.with_status d status error (post d)).
Proof. now intros d. Qed.

Lemma has_key_true sk label d :
  Delivery.has_key sk label d = true <-> Delivery.key d = (sk, label).
Proof.
  unfold Delivery.has_key, Delivery.key.
  rewrite andb_true_iff, !String.eqb_eq. split; [intros [-> ->] | intros [= -> ->]]; auto.
Qed.

Lemma lookup_Some sk label table d :
  Delivery.lookup sk label table = Some d ->
  In d table /\ Delivery.key d = (sk, label).
Proof.
  unfold Delivery.lookup. intros Hf. apply find_some in Hf as [Hin Hk].
  split; [assumption | now apply has_key_true].
Qed.

Lemma lookup_None sk label table :
  Delivery.lookup sk label table = None <-> ~ In (sk, label) (keys table).
Proof.
  unfold Delivery.lookup, keys. split.
  - intros Hf Hin. apply in_map_iff in Hin as (d & Hk & Hd).
    apply (find_none _ _ Hf) in Hd. apply has_key_true in Hk. congruence.
  - intros Hn. destruct (find _ table) as [d|] eqn:E; [|reflexivity].
    exfalso. apply Hn. apply find_some in E as [Hin Hk].
    apply has_key_true in Hk. rewrite <- Hk. now apply in_map.
Qed.

Lemma lookup_is_Some sk label table :
  is_Some (Delivery.lookup sk label table) <-> In (sk, label) (keys table).
Proof.
  destruct (Delivery.lookup sk label table) as [d|] eqn:E.
  - split; [intros _ | intros _; now exists d].
    apply lookup_Some in E as [Hin Hk]. rewrite <- Hk. now apply in_map.
  - split; [intros [d [=]] | intros Hin]. now apply lookup_None in E.
Qed.

(** Two tables with the same keys in the same order answer the same
    lookups with rows at the same position. *)
Lemma insert_fresh row table :
  ~ In (Delivery.key row) (keys table) ->
  Delivery.insert row table = Return (table ++ [row]).
Proof.
  intros Hn. unfold Delivery.insert.
  destruct (existsb _ table) eqn:E; [|reflexivity].
  exfalso. apply Hn. apply existsb_exists in E as (d & Hd & Hk).
  apply has_key_true in Hk. unfold keys.
  replace (Delivery.key row) with (Delivery.key d) by exact Hk. now apply in_map.
Qed.

Lemma insert_clash row table :
  In (Delivery.key row) (keys table) ->
  exists msg, Delivery.insert row table = Raise (IntegrityError msg).
Proof.
  intros Hin. unfold Delivery.insert.
  destruct (existsb _ table) eqn:E; [eexists; reflexivity|].
  exfalso. apply in_map_iff in Hin as (d & Hk & Hd).
  assert (existsb (Delivery.has_key (Delivery.source_key row)
                     (Delivery.account_label row)) table = true) as E'.
  { apply existsb_exists. exists d. split; [assumption|]. now apply has_key_true. }
  congruence.
Qed.

Lemma next_id_above table d :
  In d table -> Delivery.id d < next_id Delivery.id table.
Proof.
  unfold next_id. induction table as [|x table IH]; [intros []|].
  cbn [fold_right]. intros [->|Hin]; [lia|]. specialize (IH Hin). lia.
Qed.

Lemma next_id_fresh table : ~ In (next_id Delivery.id table) (ids table).
Proof.
  intros Hin. apply in_map_iff in Hin as (d & Hid & Hd).
  apply next_id_above in Hd. lia.
Qed.

Lemma NoDup_snoc {A} (l : list A) x :
  List.NoDup l -> ~ In x l -> List.NoDup (l ++ [x]).
Proof.
  induction 1 as [|y l Hy Hnd IH]; cbn; intros Hx.
  - constructor; [intros [] | constructor].
  - constructor.
    + rewrite in_app_iff. cbn. intros [Hin|[->|[]]]; [contradiction|].
      apply Hx. now left.
    + apply IH. intros Hin. apply Hx. now right.
Qed.

Lemma unique_insert row table :
  unique table ->
  Delivery.id row = next_id Delivery.id table ->
  ~ In (Delivery.key row) (keys table) ->
  unique (table ++ [row]).
Proof.
  intros [Hids Hkeys] Hid Hk. unfold unique, ids, keys. rewrite !map_app. cbn.
  split; apply NoDup_snoc; try assumption.
  rewrite Hid. apply next_id_fresh.
Qed.

Lemma update_ids pk assign table :
  keeps_key assign -> ids (Delivery.update pk assign table) = ids table.
Proof.
  intros Hk. unfold ids, Delivery.update.
  induction table as [|d table IH]; [reflexivity|]. cbn. rewrite IH. f_equal.
  destruct (Delivery.id d =? pk); [apply Hk | reflexivity].
Qed.

Lemma update_keys pk assign table :
  keeps_key assign -> keys (Delivery.update pk assign table) = keys table.
Proof.
  intros Hk. unfold keys, Delivery.update.
  induction table as [|d table IH]; [reflexivity|]. cbn. rewrite IH. f_equal.
  destruct (Delivery.id d =? pk); [apply Hk | reflexivity].
Qed.

Lemma unique_update pk assign table :
  keeps_key assign -> unique table -> unique (Delivery.update pk assign table).
Proof.
  intros Hk [Hi Hu]. unfold unique. now rewrite update_ids, update_keys.
Qed.

Lemma lookup_update sk label pk assign table :
  keeps_key assign ->
  Delivery.lookup sk label (Delivery.update pk assign table)
  = (fun d => if Delivery.id d =? pk then assign d else d)
      <$> Delivery.lookup sk label table.
Proof.
  intros Hk. unfold Delivery.lookup, Delivery.update.
  induction table as [|d table IH]; [reflexivity|]. cbn [map find].
  assert (Delivery.has_key sk label
            (if Delivery.id d =? pk then assign d else d)
          = Delivery.has_key sk label d) as ->.
  { destruct (Delivery.id d =? pk); [|reflexivity].
    apply eq_true_iff_eq. rewrite !has_key_true. now rewrite (proj2 (Hk d)). }
  destruct (Delivery.has_key sk label d); [reflexivity | exact IH].
Qed.

Lemma same_id table d d' :
  List.NoDup (ids table) -> In d table -> In d' table ->
  Delivery.id d = Delivery.id d' -> d = d'.
Proof.
  unfold ids. induction table as [|x table IH]; [intros _ []|].
  cbn. intros Hnd. apply NoDup_cons_iff in Hnd as [Hx Hnd].
  intros [->|Hd] [->|Hd'] E; try reflexivity.
  - exfalso. apply Hx. rewrite E. now apply in_map.
  - exfalso. apply Hx. rewrite <- E. now apply in_map.
  - now apply IH.
Qed.

(** Assigning to one delivery leaves the rows under other keys as they
    are. *)
Lemma lookup_update_other sk label sk' label' d assign table :
  keeps_key assign -> unique table ->
  Delivery.lookup sk label table = Some d ->
  (sk', label') <> (sk, label) ->
  Delivery.lookup sk' label' (Delivery.update (Delivery.id d) assign table)
  = Delivery.lookup sk' label' table.
Proof.
  intros Hk [Hi _] Hd Hne. rewrite lookup_update by assumption.
  destruct (Delivery.lookup sk' label' table) as [d'|] eqn:E; [|reflexivity].
  cbn. f_equal. destruct (Z.eqb_spec (Delivery.id d') (Delivery.id d)) as [Eid|];
    [|reflexivity].
  apply lookup_Some in Hd as [Hin Hkey]. apply lookup_Some in E as [Hin' Hkey'].
  assert (d' = d) by now apply (same_id table). subst d'. congruence.
Qed.

Lemma lookup_update_same sk label d assign table :
  keeps_key assign ->
  Delivery.lookup sk label table = Some d ->
  Delivery.lookup sk label (Delivery.update (Delivery.id d) assign table)
  = Some (assign d).
Proof.
  intros Hk Hd. rewrite lookup_update, Hd by assumption. cbn.
  now rewrite Z.eqb_refl.
Qed.

Lemma lookup_snoc sk label table row :
  Delivery.lookup sk label (table ++ [row])
  = match Delivery.lookup sk label table with
    | Some d => Some d
    | None => if Delivery.has_key sk label row then Some row else None
    end.
Proof.
  unfold Delivery.lookup. induction table as [|d table IH]; cbn.
  - reflexivity.
  - destruct (Delivery.has_key sk label d); [reflexivity | exact IH].
Qed.

End delivery_facts.

(** ** The delivery orchestrator *)

Module tasks_facts.
Import frame tasks delivery_facts publish_facts.

Section Deliver.
Context `{Builtins} (env : Env).

(** [publish] touches neither the deliveries, nor the content items, nor
    the labels of the accounts, nor the record of its own calls. *)
Lemma publish_frame item account files caption w :
  let w' := (publisher.publish env item account files caption w).2 in
  deliveries w' = deliveries w /\ publish_calls w' = publish_calls w
  /\ content_items w' = content_items w /\ labels w' = labels w.
Proof.
  cbv zeta. repeat split.
  - apply (publish_preserves env deliveries); intros; intro; reflexivity.
  - apply (publish_preserves env publish_calls); intros; intro; reflexivity.
  - apply (publish_preserves env content_items); intros; intro; reflexivity.
  - apply (publish_preserves env labels).
    + intros c w0. reflexivity.
    + intros w0. reflexivity.
    + apply commit_account_labels.
Qed.

(** The row [_deliver_to_account] inserts when there is none. *)
Definition pending_row (table : list Delivery.t) (content_item : ContentItem.t)
    (account : TikTokAccount.t) (source_key : string) : Delivery.t := {|
  Delivery.id := next_id Delivery.id table;
  Delivery.content_item_id := ContentItem.id content_item;
  Delivery.source_key := source_key;
  Delivery.account_label := TikTokAccount.account_label account;
  Delivery.status := "pending";
  Delivery.error_text := None;
  Delivery.tiktok_post_id := None |}.

Lemma acquire_delivery_eq item account sk w :
  acquire_delivery item account sk w
  = match Delivery.lookup sk (TikTokAccount.account_label account) (deliveries w) with
    | Some d => (Return (if is_sent d then None else Some (Some d)), w)
    | None =>
        let row := pending_row (deliveries w) item account sk in
        (Return (Some (Some row)), (set_deliveries (deliveries w ++ [row]) w).2)
    end.
Proof.
  unfold acquire_delivery. rewrite bind_eq. unfold get_world at 1.
  destruct (Delivery.lookup sk _ (deliveries w)) as [d|] eqn:E.
  - now destruct (is_sent d).
  - fold (pending_row (deliveries w) item account sk).
    rewrite insert_fresh; [reflexivity|]. now apply lookup_None.
Qed.

(** What the second half of [_deliver_to_account] assigns to the
    delivery, given how [publish] ended. *)
Definition outcome_assign (r : outcome dict) (d : Delivery.t) : Delivery.t :=
  match r with
  | Return result =>
      Delivery.with_status d "sent" None (_pick_result_post_id result)
  | Raise exc =>
      Delivery.with_status d "failed"
        (Some (slice_to 2000 (exn_str exc))) (Delivery.tiktok_post_id d)
  end.

Lemma outcome_assign_keeps_key r : keeps_key (outcome_assign r).
Proof. intros d. now destruct r. Qed.

(** The second half of [_deliver_to_account] on a delivery [d], from the
    state [w0] reached by the first half. *)
Definition publish_and_record (item : ContentItem.t) (account : TikTokAccount.t)
    (caption : string) (files : list string) (d : Delivery.t) (w0 : World)
    : outcome unit * World :=
  let w1 := (note_publish (ContentItem.id item,
                           TikTokAccount.account_label account) w0).2 in
  let '(r, w2) := publisher.publish env item account files caption w1 in
  (Return tt,
   (set_deliveries
      (Delivery.update (Delivery.id d) (outcome_assign r) (deliveries w2)) w2).2).

Lemma _deliver_to_account_eq item account sk caption files w :
  _deliver_to_account env item account sk caption files w
  = match Delivery.lookup sk (TikTokAccount.account_label account) (deliveries w) with
    | Some d =>
        if is_sent d then (Return tt, w)
        else publish_and_record item account caption files d w
    | None =>
        let row := pending_row (deliveries w) item account sk in
        publish_and_record item account caption files row
          (set_deliveries (deliveries w ++ [row]) w).2
    end.
Proof.
  unfold _deliver_to_account. rewrite bind_eq, acquire_delivery_eq.
  unfold publish_and_record.
  destruct (Delivery.lookup sk _ (deliveries w)) as [d|].
  - destruct (is_sent d); [reflexivity|].
    rewrite bind_eq. unfold note_publish at 1. rewrite bind_eq. unfold attempt.
    destruct (publisher.publish env item account files caption _) as [r w2].
    now destruct r.
  - cbv zeta. rewrite bind_eq. unfold note_publish at 1. rewrite bind_eq.
    unfold attempt.
    destruct (publisher.publish env item account files caption _) as [r w2].
    now destruct r.
Qed.

(** The effect of the second half, field by field. *)
Lemma publish_and_record_spec item account caption files d w0 :
  let run := publish_and_record item account caption files d w0 in
  let w' := run.2 in
  run.1 = Return tt
  /\ (exists r, deliveries w'
                = Delivery.update (Delivery.id d) (outcome_assign r) (deliveries w0))
  /\ labels w' = labels w0
  /\ content_items w' = content_items w0
  /\ publish_calls w'
     = publish_calls w0 ++ [(ContentItem.id item, TikTokAccount.account_label account)].
Proof.
  cbv zeta. unfold publish_and_record.
  pose proof (publish_frame item account files caption
                (note_publish (ContentItem.id item,
                               TikTokAccount.account_label account) w0).2)
    as (Hd & Hp & Hc & Hl).
  destruct (publisher.publish env item account files caption _) as [r w2].
  cbn [fst snd] in *. split; [reflexivity|]. split; [|split; [|split]].
  - exists r. cbn. now rewrite Hd.
  - unfold labels in *. cbn. exact Hl.
  - cbn. exact Hc.
  - cbn. exact Hp.
Qed.

(** One delivery, seen from the table. *)
Lemma _deliver_to_account_spec item account sk caption files w :
  unique (deliveries w) ->
  let label := TikTokAccount.account_label account in
  let run := _deliver_to_account env item account sk caption files w in
  let w' := run.2 in
  run.1 = Return tt
  /\ unique (deliveries w')
  /\ labels w' = labels w
  /\ content_items w' = content_items w
  /\ (forall sk' label', (sk', label') <> (sk, label) ->
        Delivery.lookup sk' label' (deliveries w')
        = Delivery.lookup sk' label' (deliveries w))
  /\ is_Some (Delivery.lookup sk label (deliveries w'))
  /\ match Delivery.lookup sk label (deliveries w) with
     | Some d =>
         keys (deliveries w') = keys (deliveries w)
         /\ if is_sent d
            then deliveries w' = deliveries w /\ publish_calls w' = publish_calls w
            else publish_calls w'
                 = publish_calls w ++ [(ContentItem.id item, label)]
     | None =>
         keys (deliveries w') = keys (deliveries w) ++ [(sk, label)]
         /\ publish_calls w' = publish_calls w ++ [(ContentItem.id item, label)]
     end.
Proof.
  intros Hu. cbv zeta. rewrite _deliver_to_account_eq.
  destruct (Delivery.lookup sk _ (deliveries w)) as [d|] eqn:El.
  - destruct (is_sent d) eqn:Es.
    + cbn [fst snd]. rewrite El.
      split; [reflexivity|]. split; [assumption|]. split; [reflexivity|].
      split; [reflexivity|]. split; [reflexivity|]. split; [now exists d|].
      split; [reflexivity|]. split; reflexivity.
    + pose proof (publish_and_record_spec item account caption files d w)
        as (Hr & [r Hd] & Hl & Hc & Hp).
      cbv zeta in *. rewrite Hd.
      pose proof (outcome_assign_keeps_key r) as Hk.
      split; [assumption|]. split; [now apply unique_update|].
      split; [assumption|]. split; [assumption|]. split; [|split; [|split]].
      * intros sk' label' Hne.
        now apply (lookup_update_other sk (TikTokAccount.account_label account)
                     sk' label' d).
      * erewrite lookup_update_same by eassumption. now eexists.
      * now apply update_keys.
      * assumption.
  - cbv zeta.
    set (row := pending_row (deliveries w) item account sk).
    set (w0 := (set_deliveries (deliveries w ++ [row]) w).2).
    pose proof (publish_and_record_spec item account caption files row w0)
      as (Hr & [r Hd] & Hl & Hc & Hp).
    cbv zeta in *. rewrite Hd.
    pose proof (outcome_assign_keeps_key r) as Hk.
    assert (deliveries w0 = deliveries w ++ [row]) as Hw0 by reflexivity.
    assert (unique (deliveries w ++ [row])) as Hu'.
    { apply unique_insert; [assumption | reflexivity | now apply lookup_None]. }
    assert (Delivery.lookup sk (TikTokAccount.account_label account)
              (deliveries w ++ [row]) = Some row) as Hrow.
    { rewrite lookup_snoc, El.
      assert (Delivery.has_key sk (TikTokAccount.account_label account) row = true)
        as -> by now apply has_key_true.
      reflexivity. }
    rewrite Hw0.
    split; [assumption|]. split; [now apply unique_update|].
    split; [assumption|]. split; [assumption|]. split; [|split; [|split]].
    + intros sk' label' Hne.
      rewrite (lookup_update_other sk (TikTokAccount.account_label account)
                 sk' label' row) by assumption.
      rewrite lookup_snoc.
      destruct (Delivery.lookup sk' label' (deliveries w)); [reflexivity|].
      destruct (Delivery.has_key sk' label' row) eqn:E; [|reflexivity].
      apply has_key_true in E. unfold row, pending_row, Delivery.key in E.
      cbn in E. congruence.
    + erewrite lookup_update_same by eassumption. now eexists.
    + rewrite update_keys by assumption. unfold keys. now rewrite map_app.
    + assumption.
Qed.

Definition account_labels (accs : list TikTokAccount.t) : list string :=
  map TikTokAccount.account_label accs.

(** The publish calls [extra] concern the content item [cid] and accounts
    among [ls] whose delivery under [sk] is not in status ["sent"] in
    [table]. *)
Definition only_unsent (cid : Z) (sk : string) (ls : list string)
    (table : list Delivery.t) (extra : list (Z * string)) : Prop :=
  forall c, In c extra ->
    c.1 = cid /\ In c.2 ls
    /\ forall d, Delivery.lookup sk c.2 table = Some d -> is_sent d = false.

(** The loop over the target accounts. *)
Lemma deliver_loop_spec item sk caption files accs : forall w,
  unique (deliveries w) ->
  List.NoDup (account_labels accs) ->
  let run := for_each accs
               (fun a => _deliver_to_account env item a sk caption files) w in
  let w' := run.2 in
  run.1 = Return tt
  /\ unique (deliveries w')
  /\ labels w' = labels w
  /\ content_items w' = content_items w
  /\ (forall sk' label', sk' <> sk \/ ~ In label' (account_labels accs) ->
        Delivery.lookup sk' label' (deliveries w')
        = Delivery.lookup sk' label' (deliveries w))
  /\ (forall label, In label (account_labels accs) ->
        is_Some (Delivery.lookup sk label (deliveries w')))
  /\ ((forall label, In label (account_labels accs) ->
         is_Some (Delivery.lookup sk label (deliveries w))) ->
      keys (deliveries w') = keys (deliveries w))
  /\ exists extra,
       publish_calls w' = publish_calls w ++ extra
       /\ only_unsent (ContentItem.id item) sk (account_labels accs)
            (deliveries w) extra.
Proof.
  induction accs as [|a accs IH]; intros w Hu Hnd; cbv zeta.
  - cbn. split; [reflexivity|]. split; [assumption|].
    split; [reflexivity|]. split; [reflexivity|]. split; [reflexivity|].
    split; [intros l []|]. split; [reflexivity|].
    exists []. split; [now rewrite app_nil_r | intros c []].
  - cbn [for_each]. rewrite bind_eq.
    pose proof (_deliver_to_account_spec item a sk caption files w Hu)
      as (Hr & Hu1 & Hl1 & Hc1 & Ho1 & Hs1 & Hm1).
    cbv zeta in *.
    destruct (_deliver_to_account env item a sk caption files w) as [r w1].
    cbn [fst snd] in *. subst r.
    unfold account_labels in Hnd. cbn [map] in Hnd.
    apply NoDup_cons_iff in Hnd as [Ha Hnd].
    fold (account_labels accs) in Ha, Hnd.
    specialize (IH w1 Hu1 Hnd) as (Hr & Hu2 & Hl2 & Hc2 & Ho2 & Hs2 & Hk2 & extra & Hp2 & He2).
    cbv zeta in *.
    destruct (for_each accs _ w1) as [r w2]. cbn [fst snd] in *.
    assert (forall label, In label (account_labels accs) ->
              Delivery.lookup sk label (deliveries w1)
              = Delivery.lookup sk label (deliveries w)) as Hrest.
    { intros l Hin. apply Ho1. intros [= ->]. contradiction. }
    split; [assumption|]. split; [assumption|].
    split; [congruence|]. split; [congruence|].
    split; [|split; [|split]].
    + intros sk' label' Hout. rewrite Ho2.
      * apply Ho1. intros [= -> ->]. destruct Hout as [Hne|Hn]; [congruence|].
        apply Hn. now left.
      * destruct Hout as [Hne|Hn]; [now left | right].
        intros Hin. apply Hn. now right.
    + intros l [<-|Hin]; [|now apply Hs2].
      rewrite Ho2 by (now right). assumption.
    + intros Hall. rewrite Hk2.
      * destruct (Hall (TikTokAccount.account_label a) (or_introl eq_refl))
          as [d Hd].
        rewrite Hd in Hm1. now destruct Hm1.
      * intros l Hin. rewrite Hrest by assumption. apply Hall. now right.
    + assert (exists first,
                publish_calls w1 = publish_calls w ++ first
                /\ only_unsent (ContentItem.id item) sk
                     (account_labels (a :: accs)) (deliveries w) first)
        as (first & Hp1 & He1).
      { assert (only_unsent (ContentItem.id item) sk (account_labels (a :: accs))
                  (deliveries w)
                  [(ContentItem.id item, TikTokAccount.account_label a)]
                \/ exists d, Delivery.lookup sk (TikTokAccount.account_label a)
                               (deliveries w) = Some d /\ is_sent d = true)
          as [Hone|(d & Hd & Hsent)].
        { destruct (Delivery.lookup sk (TikTokAccount.account_label a)
                      (deliveries w)) as [d|] eqn:Ed.
          - destruct (is_sent d) eqn:Es; [right; now exists d|].
            left. intros c [<-|[]]. cbn. split; [reflexivity|].
            split; [now left|]. intros d' Hd'. congruence.
          - left. intros c [<-|[]]. cbn. split; [reflexivity|].
            split; [now left|]. intros d' Hd'. congruence. }
        - exists [(ContentItem.id item, TikTokAccount.account_label a)].
          split; [|assumption].
          destruct (Delivery.lookup sk (TikTokAccount.account_label a)
                      (deliveries w)) as [d|] eqn:Ed; [|now destruct Hm1].
          destruct (is_sent d) eqn:Es; [|now destruct Hm1].
          specialize (Hone _ (or_introl eq_refl)) as (_ & _ & Hns). cbn in Hns.
          specialize (Hns d Ed). congruence.
        - exists []. rewrite Hd, Hsent in Hm1. destruct Hm1 as (_ & _ & Hp).
          split; [now rewrite app_nil_r | intros c []]. }
      exists (first ++ extra). split; [rewrite Hp2, Hp1; now rewrite app_assoc|].
      intros c Hin. apply in_app_or in Hin as [Hin|Hin]; [now apply He1|].
      destruct (He2 c Hin) as (Hcid & Hl & Hns).
      split; [assumption|]. split; [now right|].
      intros d Hd. apply Hns. now rewrite Hrest.
Qed.

(** The keys [_mark_all_deliveries_failed] has to insert: those of the
    accounts without a stored delivery. *)
Definition missing_keys (sk : string) (stored : list Delivery.t)
    (accs : list TikTokAccount.t) : list (string * string) :=
  map (fun a => (sk, TikTokAccount.account_label a))
    (List.filter
       (fun a => match Delivery.lookup sk (TikTokAccount.account_label a) stored with
                 | None => true
                 | Some _ => false
                 end) accs).

Lemma missing_keys_cons sk stored a accs :
  missing_keys sk stored (a :: accs)
  = missing_keys sk stored [a] ++ missing_keys sk stored accs.
Proof.
  unfold missing_keys. cbn [List.filter].
  now destruct (Delivery.lookup sk (TikTokAccount.account_label a) stored).
Qed.

Lemma mark_step_spec item sk err stored acc a :
  let acc' := mark_step item sk err stored acc a in
  keys acc'.1 = keys acc.1 /\ ids acc'.1 = ids acc.1
  /\ keys acc'.2 = keys acc.2 ++ missing_keys sk stored [a].
Proof.
  cbv zeta. unfold mark_step, missing_keys. cbn [List.filter].
  destruct (Delivery.lookup sk (TikTokAccount.account_label a) stored) as [d|];
    cbn [fst snd map].
  - rewrite update_keys, update_ids by now intros d0.
    now rewrite app_nil_r.
  - split; [reflexivity|]. split; [reflexivity|].
    unfold keys. now rewrite map_app.
Qed.

Lemma mark_fold_spec item sk err stored accs : forall acc,
  let acc' := fold_left (mark_step item sk err stored) accs acc in
  keys acc'.1 = keys acc.1 /\ ids acc'.1 = ids acc.1
  /\ keys acc'.2 = keys acc.2 ++ missing_keys sk stored accs.
Proof.
  induction accs as [|a accs IH]; intros acc; cbv zeta.
  - cbn. split; [reflexivity|]. split; [reflexivity|]. now rewrite app_nil_r.
  - cbn [fold_left].
    destruct (IH (mark_step item sk err stored acc a)) as (Hk & Hi & Hp).
    destruct (mark_step_spec item sk err stored acc a) as (Hk1 & Hi1 & Hp1).
    cbv zeta in *.
    split; [congruence|]. split; [congruence|].
    rewrite Hp, Hp1, (missing_keys_cons sk stored a accs).
    symmetry. apply app_assoc.
Qed.

Lemma flush_new_spec pending : forall table,
  unique table -> List.NoDup (keys pending) ->
  (forall k, In k (keys pending) -> ~ In k (keys table)) ->
  exists table',
    flush_new pending table = Return table' /\ unique table'
    /\ keys table' = keys table ++ keys pending.
Proof.
  induction pending as [|row pending IH]; intros table Hu Hnd Hdis.
  - exists table. cbn. split; [reflexivity|]. split; [assumption|].
    now rewrite app_nil_r.
  - cbn [flush_new].
    set (row' := {| Delivery.id := next_id Delivery.id table;
                    Delivery.content_item_id := Delivery.content_item_id row;
                    Delivery.source_key := Delivery.source_key row;
                    Delivery.account_label := Delivery.account_label row;
                    Delivery.status := Delivery.status row;
                    Delivery.error_text := Delivery.error_text row;
                    Delivery.tiktok_post_id := Delivery.tiktok_post_id row |}).
    assert (Delivery.key row' = Delivery.key row) as Hkey by reflexivity.
    cbn [keys map] in Hnd, Hdis. apply NoDup_cons_iff in Hnd as [Hrow Hnd].
    assert (~ In (Delivery.key row') (keys table)) as Hfresh.
    { rewrite Hkey. apply Hdis. now left. }
    rewrite insert_fresh by assumption.
    destruct (IH (table ++ [row'])) as (table' & Hf & Hu' & Hk').
    + now apply unique_insert.
    + assumption.
    + intros k Hk Hin. unfold keys in Hin. rewrite map_app in Hin.
      apply in_app_or in Hin as [Hin|[<-|[]]].
      * apply (Hdis k); [now right | assumption].
      * rewrite Hkey in Hk. contradiction.
    + exists table'. split; [assumption|]. split; [assumption|].
      rewrite Hk'. unfold keys. rewrite map_app. cbn. rewrite Hkey.
      now rewrite <- app_assoc.
Qed.

Lemma missing_keys_In sk stored accs k :
  In k (missing_keys sk stored accs) ->
  exists label, k = (sk, label) /\ In label (account_labels accs)
                /\ Delivery.lookup sk label stored = None.
Proof.
  unfold missing_keys. intros Hin. apply in_map_iff in Hin as (a & <- & Ha).
  apply filter_In in Ha as [Ha Hl].
  exists (TikTokAccount.account_label a). split; [reflexivity|].
  split; [now apply in_map|]. now destruct (Delivery.lookup _ _ stored).
Qed.

Lemma missing_keys_NoDup sk stored accs :
  List.NoDup (account_labels accs) -> List.NoDup (missing_keys sk stored accs).
Proof.
  unfold missing_keys, account_labels.
  induction accs as [|a accs IH]; cbn; [constructor|].
  intros Hnd. apply NoDup_cons_iff in Hnd as [Ha Hnd].
  destruct (Delivery.lookup sk (TikTokAccount.account_label a) stored);
    [now apply IH|].
  cbn. constructor; [|now apply IH].
  intros Hin. apply in_map_iff in Hin as (b & [= Hb] & Hin).
  apply filter_In in Hin as [Hin _]. apply Ha. rewrite <- Hb. now apply in_map.
Qed.

(** *** The target accounts, by label *)

Lemma insert_sorted_labels a l :
  account_labels (insert_sorted by_label a l)
  = insert_sorted String.leb (TikTokAccount.account_label a) (account_labels l).
Proof.
  unfold account_labels. induction l as [|b l IH]; [reflexivity|]. cbn.
  unfold by_label at 1. destruct (String.leb _ _); cbn; [reflexivity|].
  now rewrite IH.
Qed.

Lemma order_by_labels l :
  account_labels (order_by by_label l) = order_by String.leb (account_labels l).
Proof.
  induction l as [|a l IH]; [reflexivity|]. cbn [order_by].
  rewrite insert_sorted_labels, IH. reflexivity.
Qed.

Lemma filter_labels (p : string -> bool) l :
  account_labels (List.filter (fun a => p (TikTokAccount.account_label a)) l)
  = List.filter p (account_labels l).
Proof.
  unfold account_labels. induction l as [|a l IH]; [reflexivity|]. cbn.
  destruct (p (TikTokAccount.account_label a)); cbn; now rewrite IH.
Qed.

(** The labels of the target accounts are a function of the labels of the
    accounts table. *)
Definition target_labels (mapping : gmap Z (list string)) (ls : list string)
    (source_chat_id : Z) : list string :=
  order_by String.leb
    match mapping !! source_chat_id with
    | Some (l0 :: ls0) => List.filter (fun s => publisher.mem s (l0 :: ls0)) ls
    | _ => ls
    end.

Lemma resolve_labels mapping table source_chat_id :
  account_labels (resolve mapping table source_chat_id)
  = target_labels mapping (account_labels table) source_chat_id.
Proof.
  unfold resolve, target_labels. rewrite order_by_labels.
  destruct (mapping !! source_chat_id) as [[|l0 ls0]|]; try reflexivity.
  now rewrite (filter_labels (fun s => publisher.mem s (l0 :: ls0))).
Qed.

Lemma target_labels_NoDup mapping ls source_chat_id :
  List.NoDup ls -> List.NoDup (target_labels mapping ls source_chat_id).
Proof.
  intros Hnd. unfold target_labels.
  eapply Permutation_NoDup; [symmetry; apply order_by_perm|].
  destruct (mapping !! source_chat_id) as [[|l0 ls0]|]; try assumption.
  now apply List.NoDup_filter.
Qed.

(** The targets of a content item in a state. *)
Definition targets_of (item : ContentItem.t) (w : World) : list string :=
  target_labels (config.chat_account_mapping (settings env)) (labels w)
    (ContentItem.source_chat_id item).

Lemma _mark_all_deliveries_failed_eq item err w :
  _mark_all_deliveries_failed env item err w
  = let accs := resolve (config.chat_account_mapping (settings env)) (accounts w)
                  (ContentItem.source_chat_id item) in
    let acc := fold_left
                 (mark_step item (ContentItem.source_key item) err (deliveries w))
                 accs (deliveries w, []) in
    match flush_new acc.2 acc.1 with
    | Return table => (Return tt, (set_deliveries table w).2)
    | Raise x => (Raise x, w)
    end.
Proof.
  unfold _mark_all_deliveries_failed, _resolve_target_accounts.
  repeat first [rewrite bind_eq | progress unfold get_world | rewrite ret_eq].
  cbv zeta. now destruct (flush_new _ _).
Qed.

Lemma _mark_all_deliveries_failed_spec item err w :
  unique (deliveries w) -> List.NoDup (labels w) ->
  let sk := ContentItem.source_key item in
  let run := _mark_all_deliveries_failed env item err w in
  let w' := run.2 in
  run.1 = Return tt
  /\ unique (deliveries w')
  /\ labels w' = labels w
  /\ content_items w' = content_items w
  /\ publish_calls w' = publish_calls w
  /\ (forall label, In label (targets_of item w) ->
        is_Some (Delivery.lookup sk label (deliveries w')))
  /\ ((forall label, In label (targets_of item w) ->
         is_Some (Delivery.lookup sk label (deliveries w))) ->
      keys (deliveries w') = keys (deliveries w)).
Proof.
  intros Hu Hnd. cbv zeta. rewrite _mark_all_deliveries_failed_eq. cbv zeta.
  set (accs := resolve (config.chat_account_mapping (settings env)) (accounts w)
                 (ContentItem.source_chat_id item)).
  assert (account_labels accs = targets_of item w) as Hacc.
  { unfold accs, targets_of. apply resolve_labels. }
  assert (List.NoDup (account_labels accs)) as Hnd'.
  { rewrite Hacc. now apply target_labels_NoDup. }
  set (sk := ContentItem.source_key item).
  pose proof (mark_fold_spec item sk err (deliveries w) accs (deliveries w, []))
    as (Hk & Hi & Hp).
  cbv zeta in *. cbn [fst snd] in Hk, Hi, Hp.
  set (acc := fold_left (mark_step item sk err (deliveries w)) accs
                (deliveries w, [])) in *.
  assert (unique acc.1) as Hu1.
  { destruct Hu as [Hui Huk]. unfold unique. now rewrite Hk, Hi. }
  destruct (flush_new_spec acc.2 acc.1 Hu1) as (table' & Hf & Hu' & Hk').
  { rewrite Hp. cbn. now apply missing_keys_NoDup. }
  { intros k Hin. rewrite Hp in Hin. cbn in Hin.
    apply missing_keys_In in Hin as (label & -> & _ & Hnone).
    rewrite Hk. now apply lookup_None. }
  rewrite Hf. cbn [fst snd set_deliveries deliveries content_items publish_calls].
  split; [reflexivity|]. split; [assumption|].
  split; [reflexivity|]. split; [reflexivity|]. split; [reflexivity|].
  split.
  - intros label Hin. apply lookup_is_Some. rewrite Hk', Hk, Hp.
    cbn [keys map app]. apply in_or_app.
    destruct (Delivery.lookup sk label (deliveries w)) as [d|] eqn:E.
    + left. apply lookup_is_Some. rewrite E. now eexists.
    + right. unfold missing_keys. rewrite <- Hacc in Hin.
      apply in_map_iff in Hin as (a & <- & Ha).
      apply in_map_iff. exists a. split; [reflexivity|].
      apply filter_In. split; [assumption|]. now rewrite E.
  - intros Hall. rewrite Hk', Hk, Hp. cbn [keys map app].
    assert (missing_keys sk (deliveries w) accs = []) as ->;
      [|now rewrite app_nil_r].
    destruct (missing_keys sk (deliveries w) accs) as [|k ks] eqn:E;
      [reflexivity|].
    assert (In k (missing_keys sk (deliveries w) accs)) as Hin
      by (rewrite E; now left).
    apply missing_keys_In in Hin as (label & -> & Hl & Hnone).
    rewrite Hacc in Hl. destruct (Hall label Hl) as [d Hd]. congruence.
Qed.

(** *** Content items *)

(** Two content item objects for the same source post. *)
Definition same_source (a b : ContentItem.t) : Prop :=
  ContentItem.id a = ContentItem.id b
  /\ ContentItem.source_chat_id a = ContentItem.source_chat_id b
  /\ ContentItem.source_key a = ContentItem.source_key b.

(** [db.scalar(select(ContentItem).where(ContentItem.id == cid))] *)
Definition found (cid : Z) (table : list ContentItem.t) : option ContentItem.t :=
  List.find (fun c => ContentItem.id c =? cid) table.

(** Two states of [content_items] that answer every lookup by id with
    objects for the same source post. *)
Definition items_agree (t t' : list ContentItem.t) : Prop :=
  forall cid,
    match found cid t, found cid t' with
    | Some a, Some b => same_source a b
    | None, None => True
    | _, _ => False
    end.

Lemma same_source_refl a : same_source a a.
Proof. now repeat split. Qed.

Lemma same_source_trans a b c : same_source a b -> same_source b c -> same_source a c.
Proof. intros (? & ? & ?) (? & ? & ?). repeat split; congruence. Qed.

Lemma items_agree_refl t : items_agree t t.
Proof. intros cid. destruct (found cid t); [apply same_source_refl | exact I]. Qed.

Lemma items_agree_trans t1 t2 t3 :
  items_agree t1 t2 -> items_agree t2 t3 -> items_agree t1 t3.
Proof.
  intros H12 H23 cid. specialize (H12 cid). specialize (H23 cid).
  destruct (found cid t1), (found cid t2), (found cid t3); try tauto.
  now apply (same_source_trans _ t0).
Qed.

Lemma items_agree_commit pk assign t :
  (forall c, same_source c (assign c)) ->
  items_agree t (map (fun r => if ContentItem.id r =? pk then assign r else r) t).
Proof.
  intros Hs cid. unfold found. induction t as [|c t IH]; cbn; [exact I|].
  assert (ContentItem.id (if ContentItem.id c =? pk then assign c else c)
          = ContentItem.id c) as ->.
  { destruct (ContentItem.id c =? pk); [|reflexivity].
    symmetry. apply (Hs c). }
  destruct (ContentItem.id c =? cid); [|exact IH].
  destruct (ContentItem.id c =? pk); [apply Hs | apply same_source_refl].
Qed.

Lemma with_local_files_same c paths : same_source c (with_local_files c paths).
Proof. now repeat split. Qed.

Lemma with_processed_at_same c t : same_source c (with_processed_at c t).
Proof. now repeat split. Qed.

Lemma found_id cid t c : found cid t = Some c -> ContentItem.id c = cid.
Proof. intros Hf. apply find_some in Hf as [_ E]. now apply Z.eqb_eq. Qed.

Lemma _ensure_local_files_preserves {X} (f : World -> X) item :
  (forall l, preserves f (set_content_items l)) ->
  preserves f (_ensure_local_files env item).
Proof.
  intros Hf. unfold _ensure_local_files, commit_content_item. frame.
Qed.

Lemma _ensure_local_files_spec item w :
  let run := _ensure_local_files env item w in
  let w1 := run.2 in
  deliveries w1 = deliveries w /\ publish_calls w1 = publish_calls w
  /\ accounts w1 = accounts w
  /\ items_agree (content_items w) (content_items w1)
  /\ forall files item', run.1 = Return (files, item') -> same_source item item'.
Proof.
  cbv zeta. split; [|split; [|split]].
  - apply (_ensure_local_files_preserves deliveries). intros l w0. reflexivity.
  - apply (_ensure_local_files_preserves publish_calls). intros l w0. reflexivity.
  - apply (_ensure_local_files_preserves accounts). intros l w0. reflexivity.
  - unfold _ensure_local_files.
    destruct (_ && _).
    { rewrite ret_eq. cbn [fst snd]. split; [apply items_agree_refl|].
      intros files item' [= _ <-]. apply same_source_refl. }
    destruct (negb _).
    { rewrite raise_eq. cbn [fst snd]. split; [apply items_agree_refl|].
      intros files item' [=]. }
    rewrite bind_eq. unfold lift at 1.
    destruct (mkdir env _) as [[]|x].
    2:{ cbn [fst snd]. split; [apply items_agree_refl | intros ? ? [=]]. }
    destruct (download_all _ _ _ _) as [|p ps].
    { rewrite raise_eq. cbn [fst snd]. split; [apply items_agree_refl|].
      intros files item' [=]. }
    rewrite bind_eq. unfold commit_content_item. rewrite bind_eq.
    unfold get_world, set_content_items. rewrite ret_eq. cbn [fst snd content_items].
    split.
    + apply items_agree_commit. intros c. apply with_local_files_same.
    + intros files item' [= _ <-]. apply with_local_files_same.
Qed.

(** *** One run of the orchestrator *)

(** The part of [process_content_item] that follows the caption: the fan
    out over the target accounts. *)
Definition fan_out (item : ContentItem.t) (local_files : list string)
    (caption : string) : M unit :=
  accounts ← _resolve_target_accounts env (ContentItem.source_chat_id item);
  match accounts with
  | [] => mret tt
  | _ =>
      let source_key := ContentItem.source_key item in
      for_each accounts
        (fun account =>
           _deliver_to_account env item account source_key caption local_files);;
      now ← utcnow env;
      commit_content_item (ContentItem.id item)
        (fun c => with_processed_at c now)
  end.

Lemma process_content_item_eq cid w :
  process_content_item env cid w
  = match found cid (content_items w) with
    | None => (Return tt, w)
    | Some item =>
        let '(r, w1) := _ensure_local_files env item w in
        match r with
        | Raise exc =>
            _mark_all_deliveries_failed env item
              ("Telegram download failed: " +:+ exn_str exc) w1
        | Return (local_files, item') =>
            match captions.build_caption env (ContentItem.caption item')
                    (ContentItem.source_text item') with
            | Return caption => fan_out item' local_files caption w1
            | Raise x => (Raise x, w1)
            end
        end
    end.
Proof.
  unfold process_content_item, found. rewrite bind_eq. unfold get_world at 1.
  destruct (find _ (content_items w)) as [item|]; [|reflexivity].
  rewrite bind_eq. unfold attempt.
  destruct (_ensure_local_files env item w) as [[[files item']|exc] w1];
    [|reflexivity].
  rewrite bind_eq. unfold lift at 1.
  destruct (captions.build_caption env _ _); reflexivity.
Qed.

(** The last two statements of [process_content_item]. *)
Lemma stamp_processed_eq item w :
  (utcnow env ≫= fun now =>
     commit_content_item (ContentItem.id item)
       (fun c => with_processed_at c now)) w
  = (Return tt,
     {| accounts := accounts w;
        content_items :=
          map (fun r => if ContentItem.id r =? ContentItem.id item
                        then with_processed_at r (utcnow_at env (clock_reads w))
                        else r) (content_items w);
        deliveries := deliveries w; trace := trace w;
        clock_reads := S (clock_reads w);
        publish_calls := publish_calls w |}).
Proof. reflexivity. Qed.

Lemma fan_out_spec item files caption w :
  unique (deliveries w) -> List.NoDup (labels w) ->
  let sk := ContentItem.source_key item in
  let run := fan_out item files caption w in
  let w' := run.2 in
  run.1 = Return tt
  /\ unique (deliveries w')
  /\ labels w' = labels w
  /\ items_agree (content_items w) (content_items w')
  /\ (forall label, In label (targets_of item w) ->
        is_Some (Delivery.lookup sk label (deliveries w')))
  /\ ((forall label, In label (targets_of item w) ->
         is_Some (Delivery.lookup sk label (deliveries w))) ->
      keys (deliveries w') = keys (deliveries w))
  /\ exists extra,
       publish_calls w' = publish_calls w ++ extra
       /\ only_unsent (ContentItem.id item) sk (targets_of item w)
            (deliveries w) extra.
Proof.
  intros Hu Hnd. cbv zeta. unfold fan_out, _resolve_target_accounts.
  repeat first [rewrite bind_eq | progress unfold get_world | rewrite ret_eq].
  set (accs := resolve (config.chat_account_mapping (settings env)) (accounts w)
                 (ContentItem.source_chat_id item)).
  assert (account_labels accs = targets_of item w) as Hacc.
  { unfold accs, targets_of. apply resolve_labels. }
  assert (List.NoDup (account_labels accs)) as Hnd'.
  { rewrite Hacc. now apply target_labels_NoDup. }
  pose proof (deliver_loop_spec item (ContentItem.source_key item) caption files
                accs w Hu Hnd') as Hloop.
  cbv zeta in Hloop. rewrite Hacc in Hloop.
  destruct accs as [|a accs'] eqn:Eaccs.
  { cbn in Hloop. exact (conj (proj1 Hloop) (conj (proj1 (proj2 Hloop))
      (conj eq_refl (conj (items_agree_refl _)
         (proj2 (proj2 (proj2 (proj2 (proj2 Hloop))))))))). }
  rewrite <- Eaccs in *. clear Eaccs.
  cbv zeta. rewrite bind_eq.
  destruct Hloop as (Hr & Hu2 & Hl2 & Hc2 & _ & Hs2 & Hk2 & extra & Hp2 & He2).
  destruct (for_each accs _ w) as [r w2]. cbn [fst snd] in *. subst r.
  rewrite stamp_processed_eq. unfold labels in *.
  cbn [fst snd deliveries content_items publish_calls accounts].
  split; [reflexivity|]. split; [assumption|]. split; [exact Hl2|].
  split; [|split; [assumption|split; [assumption|]]].
  - rewrite Hc2. apply items_agree_commit. intros c. apply with_processed_at_same.
  - exists extra. split; assumption.
Qed.

(** The constraints the database enforces: the primary key and the unique
    constraint of [deliveries], the unique label of [tiktok_accounts]. *)
Definition constraints (w : World) : Prop :=
  unique (deliveries w) /\ List.NoDup (labels w).

(** The publish calls [extra] of a run on [cid] from [w] are for the
    content item and for deliveries that are not in status ["sent"]. *)
Definition skips_sent (cid : Z) (w : World) (extra : list (Z * string)) : Prop :=
  forall c, In c extra ->
    exists item,
      found cid (content_items w) = Some item /\ c.1 = cid
      /\ forall d, Delivery.lookup (ContentItem.source_key item) c.2 (deliveries w)
                   = Some d -> is_sent d = false.

Lemma process_content_item_spec cid w :
  constraints w ->
  let run := process_content_item env cid w in
  let w' := run.2 in
  constraints w'
  /\ labels w' = labels w
  /\ items_agree (content_items w) (content_items w')
  /\ (exists extra, publish_calls w' = publish_calls w ++ extra
                    /\ skips_sent cid w extra)
  /\ match found cid (content_items w) with
     | None => deliveries w' = deliveries w
     | Some item =>
         let sk := ContentItem.source_key item in
         (run.1 = Return tt ->
          forall label, In label (targets_of item w) ->
            is_Some (Delivery.lookup sk label (deliveries w')))
         /\ ((forall label, In label (targets_of item w) ->
                is_Some (Delivery.lookup sk label (deliveries w))) ->
             keys (deliveries w') = keys (deliveries w))
     end.
Proof.
  intros [Hu Hnd]. cbv zeta. rewrite process_content_item_eq.
  destruct (found cid (content_items w)) as [item|] eqn:Ef.
  2:{ cbn [fst snd]. split; [now split|]. split; [reflexivity|].
      split; [apply items_agree_refl|]. split; [|reflexivity].
      exists []. split; [now rewrite app_nil_r | intros c []]. }
  pose proof (found_id _ _ _ Ef) as Hcid.
  pose proof (_ensure_local_files_spec item w) as (Hd1 & Hp1 & Ha1 & Hi1 & Hs1).
  cbv zeta in *.
  destruct (_ensure_local_files env item w) as [[[files item']|exc] w1];
    cbn [fst snd] in *.
  - specialize (Hs1 files item' eq_refl) as (Hid & Hchat & Hsk).
    assert (labels w1 = labels w) as Hl1 by (unfold labels; now rewrite Ha1).
    assert (targets_of item' w1 = targets_of item w) as Ht.
    { unfold targets_of. now rewrite Hl1, Hchat. }
    destruct (captions.build_caption env _ _) as [caption|x].
    + pose proof (fan_out_spec item' files caption w1) as Hfan.
      rewrite Hd1, Hl1 in Hfan. specialize (Hfan Hu Hnd). cbv zeta in Hfan.
      rewrite Ht, <- Hsk, Hp1 in Hfan.
      destruct Hfan as (Hr & Hu' & Hl' & Hi' & Hcov & Hkeep & extra & Hp' & He').
      split; [split; [assumption | now rewrite Hl']|].
      split; [assumption|].
      split; [now apply (items_agree_trans _ (content_items w1))|].
      split; [|split; [intros _; assumption | assumption]].
      exists extra. split; [assumption|].
      intros c Hin. exists item. destruct (He' c Hin) as (Hc1 & _ & Hns).
      split; [exact Ef|]. split; [congruence | assumption].
    + cbn [fst snd]. unfold constraints. rewrite Hd1, Hl1, Hp1.
      split; [now split|]. split; [reflexivity|]. split; [assumption|].
      split; [|split; [intros [=] | reflexivity]].
      exists []. split; [now rewrite app_nil_r | intros c []].
  - assert (labels w1 = labels w) as Hl1 by (unfold labels; now rewrite Ha1).
    pose proof (_mark_all_deliveries_failed_spec item
                  ("Telegram download failed: " +:+ exn_str exc) w1) as Hmark.
    rewrite Hd1, Hl1 in Hmark. specialize (Hmark Hu Hnd). cbv zeta in Hmark.
    assert (targets_of item w1 = targets_of item w) as Ht.
    { unfold targets_of. now rewrite Hl1. }
    rewrite Ht, Hp1 in Hmark.
    destruct Hmark as (Hr & Hu' & Hl' & Hc' & Hp' & Hcov & Hkeep).
    split; [split; [assumption | now rewrite Hl']|].
    split; [assumption|]. split; [now rewrite Hc'|].
    split; [|split; [intros _; assumption | assumption]].
    exists []. split; [now rewrite app_nil_r | intros c []].
Qed.

End Deliver.

Lemma lookup_In table d :
  List.NoDup (keys table) -> In d table ->
  Delivery.lookup (Delivery.source_key d) (Delivery.account_label d) table = Some d.
Proof.
  unfold keys, Delivery.lookup. induction table as [|x table IH]; [intros _ []|].
  cbn. intros Hnd. apply NoDup_cons_iff in Hnd as [Hx Hnd]. intros [->|Hin].
  - assert (Delivery.has_key (Delivery.source_key d) (Delivery.account_label d) d
            = true) as -> by now apply has_key_true.
    reflexivity.
  - destruct (Delivery.has_key _ _ x) eqn:E; [|now apply IH].
    exfalso. apply Hx. apply has_key_true in E.
    change (Delivery.key x = Delivery.key d) in E. rewrite E. now apply in_map.
Qed.

Section Idempotence.
Context `{Builtins}.

(** C1. Under the constraints the database enforces, a run of
    [process_content_item] leaves at most one delivery per (source key,
    account label), and so does a second run on the same content item id,
    whatever the outside world does in either run; if the first run
    returned, the second run leaves the rows of the deliveries table, key
    by key, as they are; and every call of [publish] the second run makes
    is for this content item and not for a delivery that was in status
    ["sent"] before the run. *)
Theorem process_content_item_exactly_once (env1 env2 : Env) (cid : Z) (w0 : World) :
  constraints w0 ->
  settings env2 = settings env1 ->
  let run1 := process_content_item env1 cid w0 in
  let w1 := run1.2 in
  let run2 := process_content_item env2 cid w1 in
  let w2 := run2.2 in
  (List.NoDup (keys (deliveries w1)) /\ List.NoDup (keys (deliveries w2)))
  /\ (run1.1 = Return tt -> keys (deliveries w2) = keys (deliveries w1))
  /\ exists extra,
       publish_calls w2 = publish_calls w1 ++ extra
       /\ forall c, In c extra ->
            c.1 = cid
            /\ forall item d,
                 found cid (content_items w1) = Some item ->
                 In d (deliveries w1) ->
                 Delivery.key d = (ContentItem.source_key item, c.2) ->
                 Delivery.status d <> "sent".
Proof.
  intros Hc0 Hset. cbv zeta.
  pose proof (process_content_item_spec env1 cid w0 Hc0)
    as (Hc1 & Hl1 & Hi1 & _ & Hm1).
  cbv zeta in *.
  destruct (process_content_item env1 cid w0) as [r1 w1]. cbn [fst snd] in *.
  pose proof (process_content_item_spec env2 cid w1 Hc1)
    as (Hc2 & Hl2 & Hi2 & (extra & Hp2 & Hs2) & Hm2).
  cbv zeta in *.
  destruct (process_content_item env2 cid w1) as [r2 w2]. cbn [fst snd] in *.
  split; [split; [apply Hc1 | apply Hc2]|]. split.
  - intros ->. specialize (Hi1 cid).
    destruct (found cid (content_items w0)) as [item|],
             (found cid (content_items w1)) as [item1|]; try contradiction.
    + destruct Hi1 as (_ & Hchat & Hsk). destruct Hm1 as [Hcov _].
      destruct Hm2 as [_ Hkeep]. apply Hkeep.
      assert (targets_of env2 item1 w1 = targets_of env1 item w0) as ->.
      { unfold targets_of. now rewrite Hset, Hl1, Hchat. }
      rewrite <- Hsk. now apply Hcov.
    + now rewrite Hm2.
  - exists extra. split; [assumption|].
    intros c Hin. destruct (Hs2 c Hin) as (item & Hf & Hcid & Hns).
    split; [assumption|]. intros item' d Hf' Hd Hk.
    assert (item' = item) by congruence. subst item'.
    pose proof (lookup_In _ d (proj2 (proj1 Hc1)) Hd) as Hlook.
    injection Hk as Hk1 Hk2. rewrite Hk1, Hk2 in Hlook.
    specialize (Hns d Hlook). unfold is_sent in Hns.
    intros Hsent. rewrite Hsent in Hns. discriminate.
Qed.
End Idempotence.

Section NoPublishId.
Context `{Builtins} (env : Env).
Import video_posting.

(** The mode [publish] requests for an account. *)
Definition requested_mode (account : TikTokAccount.t) : string :=
  if nonempty (TikTokAccount.posting_mode account)
  then TikTokAccount.posting_mode account
  else config.posting_mode (settings env).

(** The step of [publish] that tries the photo API for an item that is
    not a video. *)
Definition photo_step (files : list string) (token caption mode_ : string)
    : M (option dict) :=
  if config.enable_photo_api (settings env)
     && match List.filter (publisher.is_image env) files with
        | [] => false
        | _ => true
        end
  then photo_posting.try_publish_photo_or_carousel env token
         (List.filter (publisher.is_image env) files) caption mode_
  else mret None.

(** The file [publish] hands to [publish_video_file], and the state in
    which it does: for a video the first local file; for a photo or an
    album, once the photo API has given no result, what
    [_convert_to_video] returns. *)
Definition video_source (item : ContentItem.t) (files : list string)
    (token caption mode_ : string) (w1 : World) (path : string) (wp : World)
    : Prop :=
  if String.eqb (ContentItem.content_type item) "video" then
    publisher.first_file files w1 = (Return path, wp)
  else
    exists w1',
      photo_step files token caption mode_ w1 = (Return None, w1')
      /\ publisher._convert_to_video env item files w1' = (Return path, wp).

(** The calls of [_publish_with_mode] that [publish_video_file] makes
    when called in state [wp]: one with the requested mode in [wp]; and,
    when that one was for ["direct"] and raised a [TikTokAPIError] that
    says unsupported or not permitted while the fallback is configured,
    one with mode ["draft"] in the state the first has left. *)
Definition attempt_of (token path caption requested : string) (wp : World)
    (mode_ : string) (wa : World) : Prop :=
  (mode_ = requested /\ wa = wp)
  \/ (requested = "direct"
      /\ config.fallback_to_draft (settings env) = true
      /\ mode_ = "draft"
      /\ exists exc,
           _publish_with_mode env token path caption "direct" wp
           = (Raise (ApiError exc), wa)
           /\ client.is_unsupported_or_permission exc = true).

(** [publish], called for [item] and [account] in state [w0], calls
    [_publish_with_mode token path caption mode_] in state [wa]. *)
Definition video_publish (item : ContentItem.t) (account : TikTokAccount.t)
    (files : list string) (caption : string) (w0 : World)
    (token path mode_ : string) (wa : World) : Prop :=
  exists account' w1 wp,
    oauth.ensure_valid_access_token env account w0 = (Return (token, account'), w1)
    /\ video_source item files token caption (requested_mode account') w1 path wp
    /\ attempt_of token path caption (requested_mode account') wp mode_ wa.

(** Without a publish id the finalize call is skipped and the result
    carries no identifier. *)
Lemma _publish_with_mode_no_id token path caption mode_ size init_data wa w2 w3 :
  stat_size env path = Return size ->
  client.init_video_upload env token caption mode_ size wa = (Return init_data, w2) ->
  opt_truthy (_extract_upload_url init_data) = true ->
  _extract_publish_id init_data = None ->
  client.upload_binary env (default "" (_extract_upload_url init_data))
    path "video/mp4" w2 = (Return tt, w3) ->
  client.finalize_video env token (_extract_publish_id init_data) caption mode_ w3
  = (Return [], w3)
  /\ _publish_with_mode env token path caption mode_ wa
     = (Return {| mode := mode_; publish_id := None; post_id := None |}, w3).
Proof.
  intros Hstat Hinit Hurl Hpid Hup.
  assert (client.finalize_video env token (_extract_publish_id init_data)
            caption mode_ w3 = (Return [], w3)) as Hfin.
  { unfold client.finalize_video. now rewrite Hpid. }
  split; [exact Hfin|].
  unfold _publish_with_mode. rewrite bind_eq. unfold lift at 1. rewrite Hstat.
  rewrite bind_eq, Hinit. cbv zeta. rewrite Hurl. cbn [negb].
  rewrite bind_eq, Hup. rewrite bind_eq, Hfin. rewrite ret_eq.
  now rewrite Hpid.
Qed.

(** [publish_video_file] returns what the last call it makes returns. *)
Lemma publish_video_file_attempt token path caption requested wp mode_ wa res w3 :
  attempt_of token path caption requested wp mode_ wa ->
  _publish_with_mode env token path caption mode_ wa = (Return res, w3) ->
  publish_video_file env token path caption requested
    (config.fallback_to_draft (settings env)) wp
  = (Return res, w3).
Proof.
  intros [[-> ->] | (-> & Hfb & -> & exc & Hfirst & Hperm)] Hrun;
    unfold publish_video_file, try_except.
  - now rewrite Hrun.
  - rewrite Hfirst. cbn [is_api_error]. rewrite Hfb, Hperm. exact Hrun.
Qed.

Lemma publish_video_file_inv token path caption requested wp res w' :
  publish_video_file env token path caption requested
    (config.fallback_to_draft (settings env)) wp
  = (Return res, w') ->
  exists mode_ wa,
    attempt_of token path caption requested wp mode_ wa
    /\ _publish_with_mode env token path caption mode_ wa = (Return res, w').
Proof.
  unfold publish_video_file, try_except.
  destruct (_publish_with_mode env token path caption requested wp)
    as [[r|x] w1] eqn:E1.
  - intros [= <- <-]. exists requested, wp. split; [left; auto | exact E1].
  - destruct x as [exc| | | | |]; cbn [is_api_error]; try discriminate.
    destruct (String.eqb requested "direct") eqn:Ereq; cbn [andb];
      [|discriminate].
    destruct (config.fallback_to_draft (settings env)) eqn:Efb; cbn [andb];
      [|discriminate].
    destruct (client.is_unsupported_or_permission exc) eqn:Eperm;
      [|discriminate].
    intros Hrun. apply String.eqb_eq in Ereq. subst requested.
    exists "draft", w1. split; [|exact Hrun].
    right. split; [reflexivity|]. split; [exact Efb|].
    split; [reflexivity|]. exists exc. split; [exact E1 | exact Eperm].
Qed.

(** [publish] returns what the call of [_publish_with_mode] it ends
    with returns. *)
Lemma publish_of_video_publish item account files caption w0 token path mode_
    wa res w3 :
  video_publish item account files caption w0 token path mode_ wa ->
  _publish_with_mode env token path caption mode_ wa = (Return res, w3) ->
  publisher.publish env item account files caption w0
  = (Return (publisher.result_dict res), w3).
Proof.
  intros (account' & w1 & wp & Hens & Hsrc & Hatt) Hrun.
  pose proof (publish_video_file_attempt _ _ _ _ _ _ _ _ _ Hatt Hrun) as Hpvf.
  unfold publisher.publish. rewrite bind_eq, Hens.
  fold (requested_mode account').
  unfold video_source in Hsrc.
  destruct (String.eqb (ContentItem.content_type item) "video").
  - rewrite bind_eq, Hsrc. rewrite bind_eq, Hpvf. reflexivity.
  - destruct Hsrc as (w1' & Hphoto & Hconv). cbv zeta.
    fold (photo_step files token caption (requested_mode account')).
    rewrite bind_eq, Hphoto. rewrite bind_eq, Hconv, bind_eq, Hpvf.
    reflexivity.
Qed.

(** Every result of [publish] is the photo API's or that of a call of
    [_publish_with_mode]. *)
Lemma publish_inv item account files caption w0 result w' :
  publisher.publish env item account files caption w0 = (Return result, w') ->
  (exists token account' w1,
     oauth.ensure_valid_access_token env account w0
     = (Return (token, account'), w1)
     /\ String.eqb (ContentItem.content_type item) "video" = false
     /\ photo_step files token caption (requested_mode account') w1
        = (Return (Some result), w'))
  \/ exists token path mode_ wa res,
       video_publish item account files caption w0 token path mode_ wa
       /\ _publish_with_mode env token path caption mode_ wa = (Return res, w')
       /\ result = publisher.result_dict res.
Proof.
  unfold publisher.publish. rewrite bind_eq.
  destruct (oauth.ensure_valid_access_token env account w0)
    as [[[token account']|x] w1] eqn:Hens; [|discriminate].
  fold (requested_mode account').
  destruct (String.eqb (ContentItem.content_type item) "video") eqn:Etype.
  - rewrite bind_eq.
    destruct (publisher.first_file files w1) as [[path|x] wp] eqn:Hfirst;
      [|discriminate].
    rewrite bind_eq.
    destruct (publish_video_file env token path caption _ _ wp)
      as [[res|x] w3] eqn:Hpvf; [|discriminate].
    intros [= <- <-]. right.
    apply publish_video_file_inv in Hpvf as (mode_ & wa & Hatt & Hrun).
    exists token, path, mode_, wa, res. split; [|split; [exact Hrun | reflexivity]].
    exists account', w1, wp. split; [exact Hens|]. split; [|exact Hatt].
    unfold video_source. now rewrite Etype.
  - cbv zeta. fold (photo_step files token caption (requested_mode account')).
    rewrite bind_eq.
    destruct (photo_step files token caption (requested_mode account') w1)
      as [[[r|]|x] w1'] eqn:Hphoto; [| |discriminate].
    + intros [= <- <-]. left. exists token, account', w1. auto.
    + rewrite bind_eq.
      destruct (publisher._convert_to_video env item files w1')
        as [[path|x] wp] eqn:Hconv; [|discriminate].
      rewrite bind_eq.
      destruct (publish_video_file env token path caption _ _ wp)
        as [[res|x] w3] eqn:Hpvf; [|discriminate].
      intros [= <- <-]. right.
      apply publish_video_file_inv in Hpvf as (mode_ & wa & Hatt & Hrun).
      exists token, path, mode_, wa, res.
      split; [|split; [exact Hrun | reflexivity]].
      exists account', w1, wp. split; [exact Hens|]. split; [|exact Hatt].
      unfold video_source. rewrite Etype. eauto.
Qed.

(** C10. Every video publish whose init response yields no publish id. A
    video publish is a call of [_publish_with_mode] that [publish] makes
    for the delivery of an item to an account: for a video, a photo or
    an album (whose slideshow is published once the photo API has given
    no result), in the requested mode or, after a direct attempt the
    provider refused, in mode ["draft"]. When the init response of such
    a call yields an upload URL but no publish id under the chain
    [publish_id], [video_id], [creation_id], and the binary is uploaded,
    [finalize_video] returns the empty object and leaves the state, the
    trace of provider calls included, as it is; [_publish_with_mode]
    returns with [publish_id] and [post_id] both [None]; [publish]
    returns that result, in which [_pick_result_post_id] finds no
    identifier; and [_deliver_to_account] returns having set the
    delivery to status ["sent"] with no error text and no provider post
    identifier. No other call publishes a video: a result of [publish]
    is the photo API's or that of such a call. *)
Theorem publish_without_publish_id (item : ContentItem.t)
    (account : TikTokAccount.t) (sk caption : string) (files : list string)
    (w : World) :
  (forall d, Delivery.lookup sk (TikTokAccount.account_label account) (deliveries w)
             = Some d -> is_sent d = false) ->
  let label := TikTokAccount.account_label account in
  let w0 := (note_publish (ContentItem.id item, label)
               (acquire_delivery item account sk w).2).2 in
  (forall (token path mode_ : string) (size : Z) (init_data : dict)
          (wa w2 w3 : World),
     video_publish item account files caption w0 token path mode_ wa ->
     stat_size env path = Return size ->
     client.init_video_upload env token caption mode_ size wa
     = (Return init_data, w2) ->
     opt_truthy (_extract_upload_url init_data) = true ->
     _extract_publish_id init_data = None ->
     client.upload_binary env (default "" (_extract_upload_url init_data))
       path "video/mp4" w2 = (Return tt, w3) ->
     let result := {| mode := mode_; publish_id := None; post_id := None |} in
     client.finalize_video env token (_extract_publish_id init_data) caption
       mode_ w3
     = (Return [], w3)
     /\ _publish_with_mode env token path caption mode_ wa = (Return result, w3)
     /\ publisher.publish env item account files caption w0
        = (Return (publisher.result_dict result), w3)
     /\ _pick_result_post_id (publisher.result_dict result) = None
     /\ exists w4 d,
          _deliver_to_account env item account sk caption files w
          = (Return tt, w4)
          /\ trace w4 = trace w3
          /\ Delivery.lookup sk label (deliveries w4) = Some d
          /\ Delivery.status d = "sent"
          /\ Delivery.tiktok_post_id d = None
          /\ Delivery.error_text d = None)
  /\ (forall (result : dict) (w' : World),
        publisher.publish env item account files caption w0 = (Return result, w') ->
        (exists token account' w1,
           oauth.ensure_valid_access_token env account w0
           = (Return (token, account'), w1)
           /\ String.eqb (ContentItem.content_type item) "video" = false
           /\ photo_step files token caption (requested_mode account') w1
              = (Return (Some result), w'))
        \/ exists token path mode_ wa res,
             video_publish item account files caption w0 token path mode_ wa
             /\ _publish_with_mode env token path caption mode_ wa
                = (Return res, w')
             /\ result = publisher.result_dict res).
Proof.
  intros Hunsent label w0. split; [|intros result w'; apply publish_inv].
  intros token path mode_ size init_data wa w2 w3 Hvideo Hstat Hinit Hurl Hpid
    Hup result.
  destruct (_publish_with_mode_no_id token path caption mode_ size init_data
              wa w2 w3 Hstat Hinit Hurl Hpid Hup) as [Hfin Hpub].
  fold result in Hpub.
  pose proof (publish_of_video_publish item account files caption w0 token path
                mode_ wa result w3 Hvideo Hpub) as Hpublish.
  split; [assumption|]. split; [assumption|]. split; [assumption|].
  split; [reflexivity|].
  set (wq := (acquire_delivery item account sk w).2) in *.
  assert (wq = (acquire_delivery item account sk w).2) as Hwq by reflexivity.
  clearbody wq. subst w0.
  assert (forall d0,
    Delivery.lookup sk label (deliveries wq) = Some d0 ->
    exists w4 d,
      publish_and_record env item account caption files d0 wq
      = (Return tt, w4)
      /\ trace w4 = trace w3
      /\ Delivery.lookup sk label (deliveries w4) = Some d
      /\ Delivery.status d = "sent" /\ Delivery.tiktok_post_id d = None
      /\ Delivery.error_text d = None) as Htail.
  { intros d0 Hd0. unfold publish_and_record. fold label. rewrite Hpublish.
    pose proof (publish_frame env item account files caption
                  (note_publish (ContentItem.id item, label) wq).2) as (Hd & _).
    rewrite Hpublish in Hd. cbn [snd] in Hd.
    eexists _, _. split; [reflexivity|]. split; [reflexivity|].
    cbn [snd set_deliveries deliveries]. rewrite Hd.
    cbn [note_publish snd deliveries].
    split; [apply lookup_update_same; [apply outcome_assign_keeps_key | exact Hd0]|].
    repeat split. }
  rewrite _deliver_to_account_eq. rewrite acquire_delivery_eq in Hwq.
  fold label in Hunsent, Hwq |- *.
  destruct (Delivery.lookup sk label (deliveries w)) as [d|] eqn:El.
  - rewrite (Hunsent d eq_refl). cbn [snd] in Hwq. subst wq.
    now apply Htail.
  - cbv zeta in Hwq |- *. cbn [snd] in Hwq. rewrite <- Hwq. apply Htail.
    rewrite Hwq. cbn [set_deliveries snd deliveries].
    rewrite lookup_snoc, El.
    assert (Delivery.has_key sk label (pending_row (deliveries w) item account sk)
            = true) as -> by now apply has_key_true.
    reflexivity.
Qed.
End NoPublishId.

End tasks_facts.

(** ** The properties on concrete runs *)

Module run_facts.
Import scenarios python_model aggregator delivery_facts tasks tasks_facts.

Lemma flush_emits_one_complete_bundle_witness :
  In "group-1"
     (due_group_ids (seconds 100 - seconds (flush_seconds (__init__ 3))) album_buffer)
  /\ exists b,
       List.filter (fun b => String.eqb (media_group_id b) "group-1")
                   (flush_due_groups (__init__ 3) album_buffer (seconds 100)).1 = [b]
       /\ file_ids b = ["file-1"; "file-2"]
       /\ caption b = "album caption".
Proof.
  assert (In "group-1"
            (due_group_ids (seconds 100 - seconds (flush_seconds (__init__ 3)))
               album_buffer)) as Hdue by (vm_compute; auto).
  split; [exact Hdue|].
  destruct (aggregator_facts.flush_emits_one_complete_bundle
              (__init__ 3) album_buffer (seconds 100) "group-1" Hdue)
    as (b & r0 & rows & Hone & _).
  exists b. split; [exact Hone|].
  vm_compute in Hone. injection Hone as <-. split; reflexivity.
Defined.

Lemma add_twice_raises_witness :
  exists msg,
    add (add [] member1 []).2 member1 []
    = (Raise (IntegrityError msg), (add [] member1 []).2).
Proof.
  apply (aggregator_facts.add_twice_raises [] (add [] member1 []).2 member1 [] []
           "group-1").
  - reflexivity.
  - discriminate.
  - reflexivity.
Defined.

Lemma constraints_fresh_world : constraints fresh_world.
Proof.
  split; [split|]; cbn; repeat constructor; intros [].
Qed.

Lemma process_content_item_exactly_once_witness :
  constraints fresh_world
  /\ (process_content_item accepting_env 1 fresh_world).1 = Return tt
  /\ keys (deliveries
             (process_content_item accepting_env 1
                (process_content_item accepting_env 1 fresh_world).2).2)
     = [("msg:-100:7", "a")].
Proof.
  split; [exact constraints_fresh_world|]. split; [vm_compute; reflexivity|].
  rewrite (proj1 (proj2 (process_content_item_exactly_once
                           accepting_env accepting_env 1 fresh_world
                           constraints_fresh_world eq_refl)));
    vm_compute; reflexivity.
Defined.

(** C2 fails on the code. The delivery of the video to account [a] is in
    status ["sent"]; the content item is processed again while its local
    file is gone and the source platform does not deliver it;
    [_mark_all_deliveries_failed] sets the delivery to ["failed"]. *)
Lemma reprocessing_overwrites_sent :
  map Delivery.status (deliveries delivered_world) = ["sent"]
  /\ exists w',
       process_content_item offline_env 1 delivered_world = (Return tt, w')
       /\ map Delivery.key (deliveries w') = [("msg:-100:7", "a")]
       /\ map Delivery.status (deliveries w') = ["failed"].
Proof.
  split; [reflexivity|]. eexists. split; [vm_compute; reflexivity|].
  split; reflexivity.
Qed.

(** The run after that calls [publish] for the delivered pair again. *)
Lemma reprocessing_publishes_again :
  let w1 := (process_content_item offline_env 1 delivered_world).2 in
  let w2 := (process_content_item accepting_env 1 w1).2 in
  publish_calls w2 = [(1, "a")].
Proof. vm_compute. reflexivity. Qed.

(** The account as the table hands it out carries a naive expiry: the
    comparison with the clock raises before any provider call, and the
    delivery is recorded as failed with the text of the [TypeError]. *)
Lemma stored_expiry_fails_delivery :
  let w' := (process_content_item accepting_env 1 fresh_world).2 in
  map Delivery.status (deliveries w') = ["failed"]
  /\ map Delivery.error_text (deliveries w')
     = [Some "can't compare offset-naive and offset-aware datetimes"]
  /\ trace w' = [].
Proof. vm_compute. repeat split. Qed.

(** An account in direct mode against a provider that answers the direct
    init call with HTTP 403: the publish succeeds as a draft. *)
Lemma publish_video_file_fallback_witness :
  exists res w',
    video_posting.publish_video_file refusing_env "old-token"
      "./data/media/1/1.mp4" "hello" "direct" true fresh_world
    = (Return res, w')
    /\ video_posting.mode res = "draft"
    /\ length (trace w') = 4%nat.
Proof.
  destruct (video_facts.publish_video_file_fallback refusing_env "old-token"
              "./data/media/1/1.mp4" "hello" "direct" true fresh_world)
    as [Hfb _].
  cbv zeta in Hfb. destruct Hfb as [_ Hmode].
  { split; [reflexivity|]. split; [reflexivity|].
    eexists. split; vm_compute; reflexivity. }
  eexists _, _. split; [vm_compute; reflexivity|].
  split; [|reflexivity]. eapply Hmode. vm_compute. reflexivity.
Defined.

(** The slideshow of a photo, for an account in direct mode: the provider
    refuses the direct attempt, and answers the init call of the draft
    that follows without a publish id. The delivery is sent without an
    identifier, after three provider calls: the two init calls and the
    upload. *)
Lemma publish_without_publish_id_witness :
  exists w4 d,
    _deliver_to_account refusing_no_id_env photo_item account_direct "msg:-100:8"
      "hello" ["./data/media/2/1.jpg"] fresh_world
    = (Return tt, w4)
    /\ Delivery.lookup "msg:-100:8" "a" (deliveries w4) = Some d
    /\ Delivery.status d = "sent"
    /\ Delivery.tiktok_post_id d = None
    /\ length (trace w4) = 3%nat.
Proof.
  destruct (publish_without_publish_id refusing_no_id_env photo_item
              account_direct "msg:-100:8" "hello" ["./data/media/2/1.jpg"]
              fresh_world) as [Hmain _].
  { intros d Hd. vm_compute in Hd. discriminate. }
  cbv zeta in Hmain.
  set (w0 := (note_publish (ContentItem.id photo_item,
                            TikTokAccount.account_label account_direct)
                (acquire_delivery photo_item account_direct "msg:-100:8"
                   fresh_world).2).2) in *.
  set (w1 := (oauth.ensure_valid_access_token refusing_no_id_env account_direct
                w0).2).
  set (wp := (publisher._convert_to_video refusing_no_id_env photo_item
                ["./data/media/2/1.jpg"] w1).2).
  set (path := "./data/media/2/2_slideshow.mp4").
  set (wa := (video_posting._publish_with_mode refusing_no_id_env "old-token"
                path "hello" "direct" wp).2).
  set (w2 := (client.init_video_upload refusing_no_id_env "old-token" "hello"
                "draft" 1024 wa).2).
  set (w3 := (client.upload_binary refusing_no_id_env
                "https://upload.example/1" path "video/mp4" w2).2).
  destruct (Hmain "old-token" path "draft" 1024 no_id_init wa w2 w3)
    as (_ & _ & _ & _ & w4 & d & Hrun & Htrace & Hlook & Hstatus & Hpost & _).
  - exists account_direct, w1, wp. split; [vm_compute; reflexivity|]. split.
    + exists w1. split; vm_compute; reflexivity.
    + right. split; [reflexivity|]. split; [reflexivity|].
      split; [reflexivity|]. eexists. split; vm_compute; reflexivity.
  - reflexivity.
  - vm_compute. reflexivity.
  - reflexivity.
  - reflexivity.
  - vm_compute. reflexivity.
  - exists w4, d. split; [exact Hrun|]. split; [exact Hlook|].
    split; [exact Hstatus|]. split; [exact Hpost|]. rewrite Htrace. reflexivity.
Defined.

End run_facts.

(* ===================================================================== *)
(** * Further properties of the code *)
(* ===================================================================== *)

(** ** Captions *)

Module caption_facts.
Import captions.

Lemma length_take n s : (String.length (take n s) <= n)%nat.
Proof.
  unfold take. revert s. induction n as [|n IH]; intros s.
  - destruct s; cbn; lia.
  - destruct s as [|c s]; cbn; [lia|]. specialize (IH s). lia.
Qed.

Lemma length_rstrip s : (String.length (rstrip s) <= String.length s)%nat.
Proof.
  induction s as [|c s IH]; [cbn; lia|]. cbn [rstrip].
  destruct (rstrip s) as [|c' r].
  - destruct (isspace c); cbn; lia.
  - cbn in *. lia.
Qed.

Lemma length_slice_to n s :
  0 <= n -> Z.of_nat (String.length (slice_to n s)) <= n.
Proof.
  intros Hn. unfold slice_to. destruct (Z.ltb_spec n 0); [lia|].
  pose proof (length_take (Z.to_nat n) s). lia.
Qed.

(** What [build_caption] works on after the template: the caption with
    the hashtags appended. *)
Definition with_hashtags (env : Env) (caption : string) : string :=
  let hashtags := strip (config.append_hashtags (settings env)) in
  if nonempty hashtags then
    if nonempty caption
    then caption +:+ String "010" (String "010" hashtags)
    else hashtags
  else caption.

(** X1. The caption never exceeds [caption_max_length], for a limit that is
    not negative. *)
Theorem build_caption_length (env : Env) (source_caption source_text result : string) :
  0 <= config.caption_max_length (settings env) ->
  build_caption env source_caption source_text = Return result ->
  Z.of_nat (String.length result) <= config.caption_max_length (settings env).
Proof.
  intros Hmax. unfold build_caption. cbv zeta.
  destruct (if nonempty (strip source_caption) then _ else _) as [caption|x];
    [|discriminate].
  fold (with_hashtags env caption).
  destruct (Z.ltb_spec (config.caption_max_length (settings env))
              (Z.of_nat (String.length (with_hashtags env caption))))
    as [Hover|Hfits]; intros [= <-]; [|assumption].
  pose proof (length_rstrip (slice_to (config.caption_max_length (settings env))
                               (with_hashtags env caption))).
  pose proof (length_slice_to (config.caption_max_length (settings env))
                (with_hashtags env caption) Hmax).
  lia.
Qed.

(** X2. [build_caption] raises exactly when the source caption is blank and
    filling the template with the source text raises, and then with that
    exception: a source caption that is not blank is never passed through
    the template. *)
Theorem build_caption_raises_iff (env : Env) (source_caption source_text : string)
    (x : exn) :
  build_caption env source_caption source_text = Raise x
  <-> strip source_caption = ""
      /\ format_text env (config.caption_template (settings env))
           (strip source_text) = Raise x.
Proof.
  unfold build_caption. cbv zeta.
  destruct (nonempty (strip source_caption)) eqn:E.
  - apply aggregator_facts.nonempty_true in E.
    destruct (_ <? _); split; try discriminate; intros [? _]; contradiction.
  - assert (strip source_caption = "") as Hblank.
    { destruct (String.eqb_spec (strip source_caption) ""); [assumption|].
      unfold nonempty in E. destruct (String.eqb_spec (strip source_caption) "");
        [contradiction | discriminate]. }
    destruct (format_text env _ _) as [caption|y].
    + destruct (_ <? _); split; try discriminate; intros [_ [=]].
    + split; [intros [= ->]; auto | intros [_ [= ->]]; reflexivity].
Qed.

End caption_facts.

(** ** Requests to the provider *)

Module request_facts.
Import frame client.

Section Request.
Context `{Builtins} (env : Env).

(** The call [_request] hands to the HTTP library. *)
Definition call_of (method path_or_url : string) (access_token : option string)
    (json_body : option Py.value) (data : option dict)
    (headers : list (string * string)) : http_call := {|
  runtime.method := method;
  runtime.url := _build_url path_or_url;
  runtime.json := json_body;
  runtime.data := data;
  runtime.content := None;
  runtime.headers :=
    match access_token with
    | Some tok =>
        if nonempty tok then headers ++ [("Authorization", "Bearer " +:+ tok)]
        else headers
    | None => headers
    end |}.

Lemma _request_eq method path tok body data headers w :
  _request env method path tok body data headers w
  = let call := call_of method path tok body data headers in
    let w1 := (send env call w).2 in
    match http env (trace w) call with
    | Raise x => (Raise x, w1)
    | Return response =>
        let payload := _safe_json response in
        if 400 <=? runtime.status_code response then
          (Raise (ApiError (error ("TikTok API HTTP "
                                     +:+ pretty (runtime.status_code response))
                                  (Some (runtime.status_code response)) payload)), w1)
        else if truthy (get payload "error") then
          (Raise (ApiError (error ("TikTok API error: "
                                     +:+ py_str (get payload "error"))
                                  None payload)), w1)
        else if not_in_none_0_str0 (get payload "error_code") then
          (Raise (ApiError (error ("TikTok API error_code="
                                     +:+ py_str (get payload "error_code"))
                                  None payload)), w1)
        else (Return payload, w1)
    end.
Proof.
  unfold _request, call_of. cbv zeta. rewrite bind_eq.
  unfold send at 1. cbn [fst snd].
  destruct (http env (trace w) _) as [response|x]; [|reflexivity].
  destruct (400 <=? runtime.status_code response); [reflexivity|].
  rewrite bind_eq. unfold _raise_if_api_error.
  destruct (truthy (get (_safe_json response) "error")); [reflexivity|].
  destruct (not_in_none_0_str0 (get (_safe_json response) "error_code"));
    reflexivity.
Qed.

Lemma _request_trace method path tok body data headers w :
  trace (_request env method path tok body data headers w).2
  = trace w ++ [call_of method path tok body data headers].
Proof.
  rewrite _request_eq. cbv zeta.
  destruct (http env (trace w) _) as [response|x]; [|reflexivity].
  destruct (400 <=? runtime.status_code response); [reflexivity|].
  destruct (truthy _); [reflexivity|].
  destruct (not_in_none_0_str0 _); reflexivity.
Qed.

(** X3. Every request is one call of the HTTP library, recorded whatever the
    answer; a payload is returned exactly when the library answered with
    a status below 400 and a body that carries neither a true ["error"]
    nor an ["error_code"] other than [None], [0] and ["0"]. *)
Theorem request_returns_iff (method path_or_url : string)
    (access_token : option string) (json_body : option Py.value)
    (data : option dict) (headers : list (string * string))
    (w : World) (payload : dict) :
  let call := call_of method path_or_url access_token json_body data headers in
  let run := _request env method path_or_url access_token json_body data headers w in
  trace run.2 = trace w ++ [call]
  /\ (run.1 = Return payload
      <-> exists response,
            http env (trace w) call = Return response
            /\ runtime.status_code response < 400
            /\ payload = _safe_json response
            /\ truthy (get payload "error") = false
            /\ not_in_none_0_str0 (get payload "error_code") = false).
Proof.
  cbv zeta. rewrite _request_eq. cbv zeta.
  set (call := call_of method path_or_url access_token json_body data headers).
  destruct (http env (trace w) call) as [response|x].
  - destruct (Z.leb_spec 400 (runtime.status_code response)) as [Hhigh|Hlow].
    { split; [reflexivity|]. split; [discriminate|].
      intros (r & [= <-] & Hlt & _). lia. }
    destruct (truthy (get (_safe_json response) "error")) eqn:Eerr.
    { split; [reflexivity|]. split; [discriminate|].
      intros (r & [= <-] & _ & -> & Hno & _). congruence. }
    destruct (not_in_none_0_str0 (get (_safe_json response) "error_code")) eqn:Ecode.
    { split; [reflexivity|]. split; [discriminate|].
      intros (r & [= <-] & _ & -> & _ & Hno). congruence. }
    split; [reflexivity|]. split.
    + intros [= <-]. exists response. auto.
    + intros (r & [= <-] & _ & -> & _). reflexivity.
  - split; [reflexivity|]. split; [discriminate|].
    intros (r & [=] & _).
Qed.

(** X4. An answer with HTTP status 400 or more is raised as a
    [TikTokAPIError] that carries the status and the body; with status
    403 or 404 the classifier takes it for a permission error, whatever
    the body says. *)
Theorem request_http_error (method path_or_url : string)
    (access_token : option string) (json_body : option Py.value)
    (data : option dict) (headers : list (string * string))
    (w : World) (response : Response) :
  http env (trace w)
    (call_of method path_or_url access_token json_body data headers)
  = Return response ->
  400 <= runtime.status_code response ->
  exists e,
    (_request env method path_or_url access_token json_body data headers w).1
    = Raise (ApiError e)
    /\ exceptions.status_code e = Some (runtime.status_code response)
    /\ exceptions.payload e = _safe_json response
    /\ (runtime.status_code response = 403 \/ runtime.status_code response = 404 ->
        is_unsupported_or_permission e = true).
Proof.
  intros Hanswer Hhigh. rewrite _request_eq. cbv zeta. rewrite Hanswer.
  destruct (Z.leb_spec 400 (runtime.status_code response)); [|lia].
  eexists. split; [reflexivity|]. split; [reflexivity|]. split; [reflexivity|].
  intros Hcode. unfold is_unsupported_or_permission. cbn.
  destruct Hcode as [-> | ->]; reflexivity.
Qed.
End Request.

End request_facts.

(** ** Credentials that cannot be used *)

Module token_facts.
Import frame client oauth.

Section Token.
Context `{Builtins} (env : Env).

(** The accounts table after [account.needs_reauth = True; db.commit()]. *)
Definition marked (account : TikTokAccount.t) (rows : list TikTokAccount.t)
    : list TikTokAccount.t :=
  map (fun r => if TikTokAccount.id r =? TikTokAccount.id account
                then TikTokAccount.stored (mark_reauth r) else r) rows.

(** The comparison with the clock can be made, and finds the stored
    credential not good for more than 90 seconds at the reading of the
    clock the call makes: the expiry is an aware [datetime] that is not
    more than 90 seconds ahead, or there is none. *)
Definition stale (account : TikTokAccount.t) (w : World) : Prop :=
  match TikTokAccount.expires_at account with
  | Some expires_at =>
      TikTokAccount.expires_at_tz account = true
      /\ expires_at <= utcnow_at env (clock_reads w) + seconds 90
  | None => True
  end.

(** The expiry is a naive [datetime], as one read from the table is. *)
Definition naive (account : TikTokAccount.t) : Prop :=
  TikTokAccount.expires_at account <> None
  /\ TikTokAccount.expires_at_tz account = false.

Definition TYPE_ERROR : exn :=
  OtherError "can't compare offset-naive and offset-aware datetimes".

(** The state in which the refresh starts: the clock was read when the
    account has an expiry. *)
Definition checked (account : TikTokAccount.t) (w : World) : World :=
  match TikTokAccount.expires_at account with
  | Some _ => (utcnow env w).2
  | None => w
  end.

Lemma ensure_stale_eq account w :
  TikTokAccount.needs_reauth account = false ->
  opt_truthy (TikTokAccount.access_token account) = true ->
  stale account w ->
  ensure_valid_access_token env account w
  = refresh_credentials env account
      (default "" (TikTokAccount.access_token account)) (checked account w).
Proof.
  intros Hflag Htoken Hstale. unfold ensure_valid_access_token, stale, checked in *.
  rewrite Hflag, Htoken. cbn [negb].
  destruct (TikTokAccount.expires_at account) as [expires_at|].
  - destruct Hstale as [-> Hle].
    rewrite !bind_eq. unfold utcnow at 1. rewrite ret_eq.
    destruct (Z.ltb_spec (utcnow_at env (clock_reads w) + seconds 90) expires_at);
      [lia|]. reflexivity.
  - rewrite bind_eq, ret_eq. reflexivity.
Qed.

(** With a naive expiry the comparison raises, once the clock is read. *)
Lemma ensure_naive_eq account w :
  TikTokAccount.needs_reauth account = false ->
  opt_truthy (TikTokAccount.access_token account) = true ->
  naive account ->
  ensure_valid_access_token env account w = (Raise TYPE_ERROR, (utcnow env w).2).
Proof.
  intros Hflag Htoken [Hsome Htz]. unfold ensure_valid_access_token.
  rewrite Hflag, Htoken. cbn [negb].
  destruct (TikTokAccount.expires_at account) as [expires_at|]; [|contradiction].
  rewrite Htz. reflexivity.
Qed.

Lemma marked_needs_reauth account rows r :
  In r (marked account rows) ->
  TikTokAccount.id r = TikTokAccount.id account ->
  TikTokAccount.needs_reauth r = true.
Proof.
  unfold marked. rewrite in_map_iff. intros (r0 & <- & _).
  destruct (Z.eqb_spec (TikTokAccount.id r0) (TikTokAccount.id account));
    [reflexivity|]. intros E. contradiction.
Qed.

(** An account flagged [needs_reauth], or without an access
    credential, is refused with a [ValueError] before anything happens:
    no provider call, no reading of the clock, no change of the
    database. *)
Theorem ensure_valid_access_token_refuses (account : TikTokAccount.t) (w : World) :
  TikTokAccount.needs_reauth account = true
  \/ opt_truthy (TikTokAccount.access_token account) = false ->
  exists msg,
    ensure_valid_access_token env account w = (Raise (ValueError msg), w).
Proof.
  unfold ensure_valid_access_token.
  destruct (TikTokAccount.needs_reauth account).
  - intros _. eexists. reflexivity.
  - intros [[=] | ->]. eexists. reflexivity.
Qed.

(** X5. An account without a refresh credential, not flagged and with an
    access credential. If its expiry is an aware [datetime] that is not
    more than 90 seconds ahead, or it has none, the account's row is
    flagged [needs_reauth] (that row only, and nothing else in it), a
    [ValueError] is raised and the provider is not called. If its expiry
    is a naive [datetime], as one read from the table is, the comparison
    with the clock raises [TypeError] once the clock is read: the
    account is not flagged, and nothing but the clock has moved. *)
Theorem ensure_valid_access_token_no_refresh_token (account : TikTokAccount.t)
    (w : World) :
  TikTokAccount.needs_reauth account = false ->
  opt_truthy (TikTokAccount.access_token account) = true ->
  opt_truthy (TikTokAccount.refresh_token account) = false ->
  let run := ensure_valid_access_token env account w in
  (stale account w ->
   (exists msg, run.1 = Raise (ValueError msg))
   /\ trace run.2 = trace w
   /\ deliveries run.2 = deliveries w
   /\ accounts run.2 = marked account (accounts w)
   /\ (forall r, In r (accounts run.2) ->
         TikTokAccount.id r = TikTokAccount.id account ->
         TikTokAccount.needs_reauth r = true))
  /\ (naive account ->
      run = (Raise TYPE_ERROR, (utcnow env w).2)
      /\ accounts run.2 = accounts w
      /\ trace run.2 = trace w
      /\ deliveries run.2 = deliveries w).
Proof.
  intros Hflag Htoken Hrefresh. cbv zeta. split.
  2:{ intros Hnaive. rewrite ensure_naive_eq by assumption.
      split; [reflexivity|]. split; [reflexivity|]. split; reflexivity. }
  intros Hstale.
  rewrite ensure_stale_eq by assumption.
  unfold refresh_credentials. rewrite Hrefresh. cbn [negb].
  rewrite bind_eq. unfold commit_account. rewrite bind_eq.
  unfold get_world, set_accounts, raise. cbn [fst snd accounts trace deliveries].
  assert (accounts (checked account w) = accounts w
          /\ trace (checked account w) = trace w
          /\ deliveries (checked account w) = deliveries w) as (Ea & Et & Ed).
  { unfold checked. destruct (TikTokAccount.expires_at account); auto. }
  rewrite Ea, Et, Ed.
  split; [eexists; reflexivity|]. split; [reflexivity|]. split; [reflexivity|].
  split; [reflexivity|]. apply marked_needs_reauth.
Qed.

(** X6. A refresh that fails, for an account with a refresh credential,
    not flagged and with an access credential. If the account's expiry
    is an aware [datetime] not more than 90 seconds ahead, or it has
    none, the refresh is reached: when the refresh call raises, the same
    exception leaves [ensure_valid_access_token]; the account's row is
    flagged [needs_reauth] if the exception is a [TikTokAPIError], and
    the accounts table is as it was for any other exception (a transport
    error does not cost the account its authorisation). If the expiry is
    a naive [datetime], as one read from the table is, the refresh is
    not reached: the comparison with the clock raises [TypeError], the
    provider is not called and the account is not flagged. *)
Theorem ensure_valid_access_token_refresh_fails (account : TikTokAccount.t)
    (w : World) :
  TikTokAccount.needs_reauth account = false ->
  opt_truthy (TikTokAccount.access_token account) = true ->
  opt_truthy (TikTokAccount.refresh_token account) = true ->
  let run := ensure_valid_access_token env account w in
  (stale account w ->
   forall (x : exn) (w2 : World),
     refresh_access_token env
       (config.tiktok_client_key (settings env))
       (config.tiktok_client_secret (settings env))
       (default "" (TikTokAccount.refresh_token account)) (checked account w)
     = (Raise x, w2) ->
     run.1 = Raise x
     /\ trace run.2 = trace w2
     /\ accounts run.2
        = if is_api_error x then marked account (accounts w) else accounts w)
  /\ (naive account ->
      run = (Raise TYPE_ERROR, (utcnow env w).2)
      /\ accounts run.2 = accounts w
      /\ trace run.2 = trace w
      /\ deliveries run.2 = deliveries w).
Proof.
  intros Hflag Htoken Hrefresh. cbv zeta. split.
  2:{ intros Hnaive. rewrite ensure_naive_eq by assumption.
      split; [reflexivity|]. split; [reflexivity|]. split; reflexivity. }
  intros Hstale x w2 Hcall.
  rewrite ensure_stale_eq by assumption.
  unfold refresh_credentials. rewrite Hrefresh. cbn [negb].
  rewrite bind_eq. unfold try_except. rewrite Hcall.
  assert (accounts w2 = accounts w) as Ea.
  { pose proof (oauth_facts.refresh_access_token_preserves env accounts
                  ltac:(intros c w0; reflexivity)
                  (config.tiktok_client_key (settings env))
                  (config.tiktok_client_secret (settings env))
                  (default "" (TikTokAccount.refresh_token account))
                  (checked account w)) as Hp.
    rewrite Hcall in Hp. cbn in Hp. rewrite Hp.
    unfold checked. destruct (TikTokAccount.expires_at account); reflexivity. }
  destruct (is_api_error x).
  - rewrite bind_eq. unfold commit_account. rewrite bind_eq.
    unfold get_world, set_accounts, raise. cbn [fst snd accounts trace].
    rewrite Ea. auto.
  - cbn [fst snd]. auto.
Qed.

(** X7. After a refresh the provider refused, the account stays out of
    use: when [ensure_valid_access_token] raises a [TikTokAPIError],
    every stored row of the account is refused from then on, in any
    state, without a provider call. *)
Theorem ensure_valid_access_token_locks_out (account r : TikTokAccount.t)
    (w w' w'' : World) (e : TikTokAPIError) :
  ensure_valid_access_token env account w = (Raise (ApiError e), w') ->
  In r (accounts w') ->
  TikTokAccount.id r = TikTokAccount.id account ->
  exists msg,
    ensure_valid_access_token env r w'' = (Raise (ValueError msg), w'').
Proof.
  intros Hrun Hin Hid.
  assert (TikTokAccount.needs_reauth r = true) as Hflag.
  2:{ unfold ensure_valid_access_token. rewrite Hflag. eexists. reflexivity. }
  revert Hrun. unfold ensure_valid_access_token.
  destruct (TikTokAccount.needs_reauth account); [discriminate|].
  destruct (opt_truthy (TikTokAccount.access_token account)); [|discriminate].
  cbn [negb].
  assert (forall w0,
    refresh_credentials env account
      (default "" (TikTokAccount.access_token account)) w0
    = (Raise (ApiError e), w') ->
    exists rows, accounts w' = marked account rows) as Hrefresh.
  { intros w0. unfold refresh_credentials.
    destruct (opt_truthy (TikTokAccount.refresh_token account)); cbn [negb].
    - rewrite bind_eq. unfold try_except.
      destruct (refresh_access_token env _ _ _ w0) as [[token_data|x] w2].
      + rewrite !bind_eq. unfold utcnow at 1.
        unfold commit_account. rewrite !bind_eq. discriminate.
      + destruct (is_api_error x) eqn:Ex.
        * rewrite bind_eq. unfold commit_account. rewrite bind_eq.
          unfold get_world, set_accounts, raise. intros [= _ <-].
          eexists. reflexivity.
        * intros [= -> _]. discriminate.
    - rewrite bind_eq. unfold commit_account. rewrite bind_eq.
      unfold get_world, set_accounts, raise. discriminate. }
  intros Hrun.
  assert (exists rows, accounts w' = marked account rows) as (rows & Erows).
  { destruct (TikTokAccount.expires_at account) as [expires_at|].
    - rewrite !bind_eq in Hrun. unfold utcnow at 1 in Hrun.
      destruct (TikTokAccount.expires_at_tz account).
      2:{ rewrite raise_eq in Hrun. discriminate. }
      rewrite ret_eq in Hrun.
      destruct (_ <? _); [discriminate|]. eapply Hrefresh, Hrun.
    - rewrite bind_eq, ret_eq in Hrun. eapply Hrefresh, Hrun. }
  rewrite Erows in Hin. eapply marked_needs_reauth; eassumption.
Qed.
End Token.

End token_facts.

(** ** One delivery *)

Module deliver_facts.
Import frame tasks delivery_facts publish_facts tasks_facts.

Section Outcome.
Context `{Builtins} (env : Env).

(** The state in which [_deliver_to_account] calls [publish], and how
    that call ends. *)
Definition publish_state (item : ContentItem.t) (account : TikTokAccount.t)
    (sk : string) (w : World) : World :=
  (note_publish (ContentItem.id item, TikTokAccount.account_label account)
     (acquire_delivery item account sk w).2).2.

Definition published (item : ContentItem.t) (account : TikTokAccount.t)
    (sk caption : string) (files : list string) (w : World) : outcome dict :=
  (publisher.publish env item account files caption
     (publish_state item account sk w)).1.

(** The row of the delivery after [_deliver_to_account]. *)
Lemma _deliver_to_account_row item account sk caption files w :
  unique (deliveries w) ->
  let label := TikTokAccount.account_label account in
  Delivery.lookup sk label
    (deliveries (_deliver_to_account env item account sk caption files w).2)
  = match Delivery.lookup sk label (deliveries w) with
    | Some d =>
        Some (if is_sent d then d
              else outcome_assign (published item account sk caption files w) d)
    | None =>
        Some (outcome_assign (published item account sk caption files w)
                (pending_row (deliveries w) item account sk))
    end.
Proof.
  intros Hu. cbv zeta. rewrite _deliver_to_account_eq.
  unfold published, publish_state. rewrite acquire_delivery_eq.
  destruct (Delivery.lookup sk _ (deliveries w)) as [d|] eqn:El.
  - destruct (is_sent d) eqn:Es; [exact El|]. cbn [fst snd].
    unfold publish_and_record.
    pose proof (publish_frame env item account files caption
                  (note_publish (ContentItem.id item,
                                 TikTokAccount.account_label account) w).2)
      as (Hd & _).
    destruct (publisher.publish env item account files caption _) as [r w2].
    cbn [fst snd deliveries set_deliveries] in *. rewrite Hd.
    apply lookup_update_same; [apply outcome_assign_keeps_key | exact El].
  - cbv zeta. cbn [fst snd].
    set (row := pending_row (deliveries w) item account sk).
    unfold publish_and_record.
    pose proof (publish_frame env item account files caption
                  (note_publish (ContentItem.id item,
                                 TikTokAccount.account_label account)
                     (set_deliveries (deliveries w ++ [row]) w).2).2)
      as (Hd & _).
    destruct (publisher.publish env item account files caption _) as [r w2].
    cbn [fst snd deliveries set_deliveries note_publish] in *. rewrite Hd.
    apply lookup_update_same; [apply outcome_assign_keeps_key|].
    rewrite lookup_snoc, El.
    assert (Delivery.has_key sk (TikTokAccount.account_label account) row = true)
      as -> by now apply has_key_true.
    reflexivity.
Qed.

(** X8. The delivery loop of [process_content_item] never changes a delivery
    that is ["sent"]: whatever the accounts, the files and the provider,
    such a row is found unchanged under its key afterwards. *)
Theorem deliver_loop_keeps_sent (item : ContentItem.t) (sk caption : string)
    (files : list string) (accs : list TikTokAccount.t) (w : World)
    (sk' label' : string) (d : Delivery.t) :
  unique (deliveries w) ->
  Delivery.lookup sk' label' (deliveries w) = Some d ->
  is_sent d = true ->
  Delivery.lookup sk' label'
    (deliveries
       (for_each accs
          (fun account => _deliver_to_account env item account sk caption files)
          w).2)
  = Some d.
Proof.
  revert w. induction accs as [|a accs IH]; intros w Hu Hd Hs; [exact Hd|].
  cbn [for_each]. rewrite bind_eq.
  pose proof (_deliver_to_account_spec env item a sk caption files w Hu)
    as (Hr & Hu' & _ & _ & Hother & _ & Hsame).
  cbv zeta in *.
  destruct (_deliver_to_account env item a sk caption files w) as [r w1].
  cbn [fst snd] in *. subst r. apply IH; [assumption| |assumption].
  destruct (decide ((sk', label') = (sk, TikTokAccount.account_label a)))
    as [[= -> ->]|Hne].
  - rewrite Hd in Hsame. rewrite Hs in Hsame. destruct Hsame as (_ & -> & _).
    exact Hd.
  - rewrite Hother by assumption. exact Hd.
Qed.

(** X9. A delivery that is not ["sent"] ends ["sent"] or ["failed"], never
    ["pending"], and tells how [publish] ended: ["sent"] with no error
    text and the picked post id when it returned; ["failed"] with the
    first 2000 characters of the exception's text, and the post id the
    row had, when it raised. *)
Theorem deliver_to_account_records (item : ContentItem.t)
    (account : TikTokAccount.t) (sk caption : string) (files : list string)
    (w : World) :
  unique (deliveries w) ->
  let label := TikTokAccount.account_label account in
  let before := Delivery.lookup sk label (deliveries w) in
  (forall d, before = Some d -> is_sent d = false) ->
  exists d',
    Delivery.lookup sk label
      (deliveries (_deliver_to_account env item account sk caption files w).2)
    = Some d'
    /\ Delivery.key d' = (sk, label)
    /\ match published item account sk caption files w with
       | Return result =>
           Delivery.status d' = "sent"
           /\ Delivery.error_text d' = None
           /\ Delivery.tiktok_post_id d' = _pick_result_post_id result
       | Raise exc =>
           Delivery.status d' = "failed"
           /\ (exists text,
                 Delivery.error_text d' = Some text
                 /\ text = slice_to 2000 (exn_str exc)
                 /\ (String.length text <= 2000)%nat)
           /\ Delivery.tiktok_post_id d'
              = (before ≫= Delivery.tiktok_post_id)
       end.
Proof.
  intros Hu. cbv zeta. intros Hunsent.
  rewrite _deliver_to_account_row by assumption.
  assert (forall text, (String.length (slice_to 2000 text) <= 2000)%nat) as Hlen.
  { intros text. pose proof (caption_facts.length_slice_to 2000 text). lia. }
  destruct (Delivery.lookup sk _ (deliveries w)) as [d|] eqn:El.
  - rewrite (Hunsent d eq_refl). eexists. split; [reflexivity|].
    apply lookup_Some in El as [_ Hk].
    split; [now rewrite (proj2 (outcome_assign_keeps_key _ d))|].
    destruct (published item account sk caption files w) as [result|exc];
      cbn [outcome_assign Delivery.with_status Delivery.status
           Delivery.error_text Delivery.tiktok_post_id mbind option_bind].
    + auto.
    + split; [reflexivity|]. split; [|reflexivity].
      eexists. split; [reflexivity|]. split; [reflexivity | apply Hlen].
  - eexists. split; [reflexivity|].
    split; [now rewrite (proj2 (outcome_assign_keeps_key _ _))|].
    destruct (published item account sk caption files w) as [result|exc];
      cbn [outcome_assign Delivery.with_status Delivery.status
           Delivery.error_text Delivery.tiktok_post_id mbind option_bind].
    + auto.
    + split; [reflexivity|]. split; [|reflexivity].
      eexists. split; [reflexivity|]. split; [reflexivity | apply Hlen].
Qed.

(** X10. An account flagged [needs_reauth] gets its delivery marked
    ["failed"], with the refusal as error text, and the provider is not
    called. *)
Theorem deliver_to_account_needs_reauth (item : ContentItem.t)
    (account : TikTokAccount.t) (sk caption : string) (files : list string)
    (w : World) :
  unique (deliveries w) ->
  TikTokAccount.needs_reauth account = true ->
  let label := TikTokAccount.account_label account in
  (forall d, Delivery.lookup sk label (deliveries w) = Some d -> is_sent d = false) ->
  let w' := (_deliver_to_account env item account sk caption files w).2 in
  trace w' = trace w
  /\ accounts w' = accounts w
  /\ exists d',
       Delivery.lookup sk label (deliveries w') = Some d'
       /\ Delivery.status d' = "failed"
       /\ Delivery.error_text d'
          = Some (slice_to 2000 ("Account " +:+ label +:+ " requires re-auth")).
Proof.
  intros Hu Hflag. cbv zeta. intros Hunsent.
  assert (forall w0, publisher.publish env item account files caption w0
                     = (Raise (ValueError ("Account "
                                 +:+ TikTokAccount.account_label account
                                 +:+ " requires re-auth")), w0)) as Hpub.
  { intros w0. unfold publisher.publish. rewrite bind_eq.
    unfold oauth.ensure_valid_access_token. rewrite Hflag. reflexivity. }
  split; [|split].
  - rewrite _deliver_to_account_eq.
    destruct (Delivery.lookup sk _ (deliveries w)) as [d|] eqn:El.
    + rewrite (Hunsent d eq_refl). unfold publish_and_record.
      rewrite Hpub. reflexivity.
    + cbv zeta. unfold publish_and_record. rewrite Hpub. reflexivity.
  - rewrite _deliver_to_account_eq.
    destruct (Delivery.lookup sk _ (deliveries w)) as [d|] eqn:El.
    + rewrite (Hunsent d eq_refl). unfold publish_and_record.
      rewrite Hpub. reflexivity.
    + cbv zeta. unfold publish_and_record. rewrite Hpub. reflexivity.
  - rewrite _deliver_to_account_row by assumption.
    unfold published. rewrite Hpub. cbn [fst].
    destruct (Delivery.lookup sk _ (deliveries w)) as [d|] eqn:El.
    + rewrite (Hunsent d eq_refl). eexists. split; [reflexivity|].
      split; reflexivity.
    + eexists. split; [reflexivity|]. split; reflexivity.
Qed.
End Outcome.

End deliver_facts.

(** ** What is read out of the provider's answers *)

Module extract_facts.
Import frame client video_posting.

(** Induction on a JSON value, with the hypothesis for every value
    stored in an object. *)
Fixpoint value_nested_ind (P : value -> Prop)
    (HNone : P VNone) (HBool : forall b, P (VBool b))
    (HInt : forall n, P (VInt n)) (HStr : forall s, P (VStr s))
    (HList : forall l, P (VList l))
    (HDict : forall d, List.Forall (fun kv => P kv.2) d -> P (VDict d))
    (v : value) : P v :=
  match v with
  | VNone => HNone
  | VBool b => HBool b
  | VInt n => HInt n
  | VStr s => HStr s
  | VList l => HList l
  | VDict d =>
      HDict d
        ((fix items (d : list (string * value))
            : List.Forall (fun kv => P kv.2) d :=
            match d with
            | [] => @List.Forall_nil _ _
            | (k, v') :: d' =>
                @List.Forall_cons _ (fun kv => P kv.2) (k, v') d'
                  (value_nested_ind P HNone HBool HInt HStr HList HDict v')
                  (items d')
            end) d)
  end.

Section Extract.
Context `{Builtins} (env : Env).

(** A text as the extraction helpers return it: not empty, and without
    blanks at either end. *)
Definition clean (s : string) : Prop := s <> "" /\ strip s = s.

Lemma _string_or_none_clean value s : _string_or_none value = Some s -> clean s.
Proof.
  unfold _string_or_none, clean.
  assert (forall t, (if nonempty (strip t) then Some (strip t) else None) = Some s ->
                    s <> "" /\ strip s = s) as Hstrip.
  { intros t. destruct (nonempty (strip t)) eqn:E; [|discriminate].
    intros [= <-]. apply aggregator_facts.nonempty_true in E.
    split; [assumption | apply string_facts.strip_idempotent]. }
  destruct value; try discriminate; apply Hstrip.
Qed.

Lemma opt_or_clean a b s :
  (forall t, a = Some t -> clean t) -> (forall t, b = Some t -> clean t) ->
  opt_or a b = Some s -> clean s.
Proof. unfold opt_or. destruct (opt_truthy a); auto. Qed.

Lemma first_string_clean items s : first_string items = Some s -> clean s.
Proof.
  unfold first_string. induction items as [|v items IH]; [discriminate|].
  cbn [map next_or]. destruct (opt_truthy (_string_or_none v)); [|exact IH].
  apply _string_or_none_clean.
Qed.

Lemma extract_upload_url_of_clean :
  forall v s, extract_upload_url_of v = Some s -> clean s.
Proof.
  intros v. induction v as [| | | | |data IH] using value_nested_ind;
    intros url; try discriminate.
  cbn [extract_upload_url_of]. cbv zeta.
  destruct (opt_truthy (_string_or_none (get data "upload_url")));
    [apply _string_or_none_clean|].
  destruct (opt_truthy _) eqn:E.
  { destruct (get data "upload_urls"); try discriminate.
    apply first_string_clean. }
  clear E. induction IH as [|[k v'] data Hv _ IHdata]; [discriminate|].
  destruct (String.eqb "source_info" k); [|exact IHdata].
  destruct v'; try discriminate. apply Hv.
Qed.

Lemma _extract_publish_id_clean data s :
  _extract_publish_id data = Some s -> clean s.
Proof.
  unfold _extract_publish_id.
  apply opt_or_clean; [apply _string_or_none_clean|].
  intros t. apply opt_or_clean; apply _string_or_none_clean.
Qed.

(** X11. The upload URL and the publish id read out of an init answer are
    never the empty string and carry no surrounding blanks: where the
    code tests them for truth, it tests that they are there. *)
Theorem extracted_texts_clean (data : dict) (s : string) :
  _extract_upload_url data = Some s \/ _extract_publish_id data = Some s ->
  s <> "" /\ strip s = s.
Proof.
  intros [Hurl | Hid].
  - apply (extract_upload_url_of_clean (VDict data)), Hurl.
  - apply (_extract_publish_id_clean data), Hid.
Qed.

(** What [_publish_with_mode] returns, read off its two answers. *)
Lemma _publish_with_mode_result tok path caption mode_ w res w' :
  _publish_with_mode env tok path caption mode_ w = (Return res, w') ->
  exists init_data finalize_data,
    publish_id res = _extract_publish_id init_data
    /\ post_id res
       = opt_or (_string_or_none (get finalize_data "post_id"))
           (opt_or (_string_or_none (get finalize_data "item_id"))
                   (_extract_publish_id init_data)).
Proof.
  unfold _publish_with_mode. rewrite bind_eq.
  destruct (lift _ w) as [[size|x] w1]; [|discriminate].
  rewrite bind_eq.
  destruct (init_video_upload env tok caption mode_ size w1) as [[init_data|x] w2];
    [|discriminate].
  cbv zeta.
  destruct (negb (opt_truthy (_extract_upload_url init_data))); [discriminate|].
  rewrite bind_eq.
  destruct (upload_binary env _ path "video/mp4" w2) as [[[]|x] w3]; [|discriminate].
  rewrite bind_eq.
  destruct (finalize_video env tok _ caption mode_ w3) as [[fin|x] w4]; [|discriminate].
  rewrite ret_eq. intros [= <- _]. exists init_data, fin. split; reflexivity.
Qed.

(** X12. The post id a successful video delivery stores is the [post_id] of
    the publish result: the finalize answer's ["post_id"], else its
    ["item_id"], else the publish id of the init answer, and nothing when
    there is none of them. [str] is the identity on strings. *)
Theorem publish_video_file_post_id (access_token video_path caption
    requested_mode : string) (fallback_to_draft : bool) (w w' : World)
    (res : PublishResult) :
  (forall s, py_str (VStr s) = s) ->
  publish_video_file env access_token video_path caption requested_mode
    fallback_to_draft w = (Return res, w') ->
  tasks._pick_result_post_id (publisher.result_dict res) = post_id res
  /\ (forall s, post_id res = Some s -> s <> "" /\ strip s = s)
  /\ (post_id res = None -> publish_id res = None).
Proof.
  intros Hstr Hrun.
  assert (exists mode_ w0 w1,
            _publish_with_mode env access_token video_path caption mode_ w0
            = (Return res, w1)) as (mode_ & w0 & w1 & Hmode).
  { revert Hrun. unfold publish_video_file, try_except.
    destruct (_publish_with_mode env access_token video_path caption
                requested_mode w) as [[res0|x] w1] eqn:E1.
    - intros [= <- <-]. eauto.
    - destruct (is_api_error x); [|discriminate].
      destruct x as [exc| | | | |]; try discriminate.
      destruct (_ && _); [|discriminate]. eauto. }
  apply _publish_with_mode_result in Hmode as (init_data & fin & Hpid & Hpost).
  assert (forall t, publish_id res = Some t -> clean t) as Hcp.
  { intros t E. apply (_extract_publish_id_clean init_data). congruence. }
  assert (forall t, post_id res = Some t -> clean t) as Hcpost.
  { intros t. rewrite Hpost.
    apply opt_or_clean; [apply _string_or_none_clean|].
    intros t'. apply opt_or_clean; [apply _string_or_none_clean|].
    rewrite <- Hpid. apply Hcp. }
  assert (post_id res = None -> publish_id res = None) as Hnone.
  { rewrite Hpost, <- Hpid. unfold opt_or.
    destruct (opt_truthy (_string_or_none (get fin "post_id"))) eqn:E1.
    { intros E. rewrite E in E1. discriminate. }
    destruct (opt_truthy (_string_or_none (get fin "item_id"))) eqn:E2.
    { intros E. rewrite E in E2. discriminate. }
    auto. }
  split; [|split; [exact Hcpost | exact Hnone]].
  unfold tasks._pick_result_post_id, publisher.result_dict. cbv zeta.
  cbn [get String.eqb Ascii.eqb Bool.eqb].
  destruct (post_id res) as [p|].
  - destruct (Hcpost p eq_refl) as [Hne _]. cbn [photo_posting.opt_value truthy].
    destruct (String.eqb_spec p ""); [contradiction|]. cbn [negb].
    now rewrite Hstr.
  - rewrite (Hnone eq_refl). reflexivity.
Qed.
End Extract.

End extract_facts.

(** ** Marking every delivery failed *)

Module mark_facts.
Import frame tasks delivery_facts publish_facts tasks_facts.

Section MarkAll.
Context `{Builtins} (env : Env).

(** What [_mark_all_deliveries_failed] assigns to a stored delivery. *)
Definition failed_assign (err : string) (d : Delivery.t) : Delivery.t :=
  Delivery.with_status d "failed" (Some (slice_to 2000 err))
    (Delivery.tiktok_post_id d).

Definition mark_if (err : string) (p : Delivery.t -> bool) (d : Delivery.t)
    : Delivery.t :=
  if p d then failed_assign err d else d.

(** The stored row is the delivery of one of the accounts. *)
Definition hit (sk : string) (stored : list Delivery.t)
    (accs : list TikTokAccount.t) (r : Delivery.t) : bool :=
  existsb
    (fun a => match Delivery.lookup sk (TikTokAccount.account_label a) stored with
              | Some d => Delivery.id r =? Delivery.id d
              | None => false
              end) accs.

Definition is_failed (err : string) (d : Delivery.t) : Prop :=
  Delivery.status d = "failed"
  /\ Delivery.error_text d = Some (slice_to 2000 err).

Lemma update_mark_if err p pk stored :
  Delivery.update pk (failed_assign err) (map (mark_if err p) stored)
  = map (mark_if err (fun r => p r || (Delivery.id r =? pk))) stored.
Proof.
  unfold Delivery.update. rewrite map_map. apply map_ext. intros r.
  unfold mark_if. destruct (p r); cbn [orb].
  - cbn [failed_assign Delivery.with_status Delivery.id].
    now destruct (Delivery.id r =? pk).
  - reflexivity.
Qed.

Lemma mark_fold_rows item sk err stored accs : forall p pend,
  let acc' := fold_left (mark_step item sk err stored) accs
                (map (mark_if err p) stored, pend) in
  acc'.1 = map (mark_if err (fun r => p r || hit sk stored accs r)) stored
  /\ (List.Forall (is_failed err) pend -> List.Forall (is_failed err) acc'.2).
Proof.
  induction accs as [|a accs IH]; intros p pend; cbv zeta.
  - cbn [fold_left fst snd]. split; [|auto].
    apply map_ext. intros r. unfold mark_if, hit. cbn. now rewrite orb_false_r.
  - cbn [fold_left].
    destruct (Delivery.lookup sk (TikTokAccount.account_label a) stored)
      as [d|] eqn:El.
    + assert (mark_step item sk err stored (map (mark_if err p) stored, pend) a
              = (map (mark_if err (fun r => p r || (Delivery.id r =? Delivery.id d)))
                   stored, pend)) as ->.
      { unfold mark_step. rewrite El. cbn [fst snd].
        fold (failed_assign err). now rewrite update_mark_if. }
      destruct (IH (fun r => p r || (Delivery.id r =? Delivery.id d)) pend)
        as (H1 & H2).
      split; [|exact H2].
      rewrite H1. apply map_ext. intros r. unfold mark_if, hit.
      cbn [existsb]. rewrite El. now rewrite orb_assoc.
    + set (row := {|
         Delivery.id := 0;
         Delivery.content_item_id := ContentItem.id item;
         Delivery.source_key := sk;
         Delivery.account_label := TikTokAccount.account_label a;
         Delivery.status := "failed";
         Delivery.error_text := Some (slice_to 2000 err);
         Delivery.tiktok_post_id := None |}).
      assert (mark_step item sk err stored (map (mark_if err p) stored, pend) a
              = (map (mark_if err p) stored, pend ++ [row])) as ->.
      { unfold mark_step. rewrite El. reflexivity. }
      destruct (IH p (pend ++ [row])) as (H1 & H2).
      split.
      * rewrite H1. apply map_ext. intros r. unfold mark_if, hit.
        cbn [existsb]. now rewrite El.
      * intros Hp. apply H2. apply List.Forall_app. split; [assumption|].
        constructor; [|constructor]. split; reflexivity.
Qed.

Lemma flush_new_rows pending : forall table table',
  flush_new pending table = Return table' ->
  forall r, In r table' ->
    In r table
    \/ exists q, In q pending
                 /\ Delivery.status r = Delivery.status q
                 /\ Delivery.error_text r = Delivery.error_text q.
Proof.
  induction pending as [|row pending IH]; intros table table'.
  - cbn. intros [= <-] r Hr. now left.
  - cbn [flush_new]. destruct (Delivery.insert _ table) as [table1|x] eqn:E;
      [|discriminate].
    intros Hf r Hr. destruct (IH _ _ Hf r Hr) as [Hin | (q & Hq & Hs)].
    + unfold Delivery.insert in E. destruct (existsb _ table); [discriminate|].
      injection E as <-. apply in_app_or in Hin as [Hin | [<- | []]].
      * now left.
      * right. exists row. split; [now left|]. split; reflexivity.
    + right. exists q. split; [now right | exact Hs].
Qed.

Lemma same_key table d d' :
  List.NoDup (keys table) -> In d table -> In d' table ->
  Delivery.key d = Delivery.key d' -> d = d'.
Proof.
  unfold keys. induction table as [|x table IH]; [intros _ []|].
  cbn. intros Hnd. apply NoDup_cons_iff in Hnd as [Hx Hnd].
  intros [->|Hd] [->|Hd'] E; try reflexivity.
  - exfalso. apply Hx. rewrite E. now apply in_map.
  - exfalso. apply Hx. rewrite <- E. now apply in_map.
  - now apply IH.
Qed.

Lemma mark_fold_from_stored item sk err stored accs :
  exists updated pending,
    fold_left (mark_step item sk err stored) accs (stored, []) = (updated, pending)
    /\ updated = map (mark_if err (hit sk stored accs)) stored
    /\ List.Forall (is_failed err) pending.
Proof.
  pose proof (mark_fold_rows item sk err stored accs (fun _ => false) [])
    as (Hrows & Hpend).
  cbv zeta in *.
  assert (map (mark_if err (fun _ => false)) stored = stored) as Hid.
  { rewrite <- (map_id stored) at 2. now apply map_ext. }
  rewrite Hid in Hrows, Hpend.
  destruct (fold_left (mark_step item sk err stored) accs (stored, []))
    as [updated pending].
  exists updated, pending. split; [reflexivity|]. split.
  - exact Hrows.
  - apply Hpend. constructor.
Qed.

(** X13. When the download fails, every target account ends with a delivery
    that is ["failed"] and carries the first 2000 characters of the
    error text; nothing is published and the provider is not called. *)
Theorem mark_all_deliveries_failed_marks (item : ContentItem.t) (err : string)
    (w : World) (label : string) :
  unique (deliveries w) -> List.NoDup (labels w) ->
  In label (targets_of env item w) ->
  let w' := (_mark_all_deliveries_failed env item err w).2 in
  trace w' = trace w
  /\ publish_calls w' = publish_calls w
  /\ exists d,
       Delivery.lookup (ContentItem.source_key item) label (deliveries w') = Some d
       /\ Delivery.status d = "failed"
       /\ Delivery.error_text d = Some (slice_to 2000 err)
       /\ (String.length (slice_to 2000 err) <= 2000)%nat.
Proof.
  intros Hu Hnd Hlabel. cbv zeta.
  pose proof (_mark_all_deliveries_failed_spec env item err w Hu Hnd)
    as (Hret & _ & _ & _ & Hcalls & Hsome & _).
  cbv zeta in *. destruct (Hsome label Hlabel) as [d Hd].
  split; [|split; [exact Hcalls|]].
  { rewrite _mark_all_deliveries_failed_eq. cbv zeta.
    now destruct (flush_new _ _). }
  exists d. split; [exact Hd|].
  assert (is_failed err d) as [Hs He].
  2:{ split; [exact Hs|]. split; [exact He|].
      pose proof (caption_facts.length_slice_to 2000 err). lia. }
  apply lookup_Some in Hd as [Hin Hkey]. revert Hin Hret.
  rewrite _mark_all_deliveries_failed_eq. cbv zeta.
  set (sk := ContentItem.source_key item) in *.
  set (accs := resolve (config.chat_account_mapping (settings env)) (accounts w)
                 (ContentItem.source_chat_id item)).
  assert (account_labels accs = targets_of env item w) as Hacc.
  { unfold accs, targets_of. apply resolve_labels. }
  destruct (mark_fold_from_stored item sk err (deliveries w) accs)
    as (updated & pending & -> & Hrows & Hpend).
  cbn [fst snd].
  destruct (flush_new pending updated) as [table'|x] eqn:Ef; [|discriminate].
  cbn [fst snd set_deliveries deliveries]. intros Hin _.
  destruct (flush_new_rows _ _ _ Ef d Hin) as [Hup | (q & Hq & Hsq & Heq)].
  - rewrite Hrows in Hup. apply in_map_iff in Hup as (r & <- & Hr).
    assert (Delivery.key r = (sk, label)) as Hkr.
    { rewrite <- Hkey. unfold mark_if. now destruct (hit _ _ _ r). }
    assert (hit sk (deliveries w) accs r = true) as Hhit.
    { rewrite <- Hacc in Hlabel. apply in_map_iff in Hlabel as (a & Ha & Hin').
      unfold hit. apply existsb_exists. exists a. split; [assumption|].
      rewrite Ha.
      destruct (Delivery.lookup sk label (deliveries w)) as [r'|] eqn:El.
      - apply lookup_Some in El as [Hr' Hk'].
        assert (r = r') as <-.
        { apply (same_key (deliveries w)); [apply Hu | assumption.. |congruence]. }
        apply Z.eqb_refl.
      - exfalso. apply lookup_None in El. apply El. rewrite <- Hkr.
        now apply in_map. }
    unfold mark_if. rewrite Hhit. split; reflexivity.
  - rewrite List.Forall_forall in Hpend. destruct (Hpend q Hq) as [Hs' He'].
    split; congruence.
Qed.
End MarkAll.

End mark_facts.

(** ** Materialising the files *)

Module files_facts.
Import frame tasks.

Section Files.
Context `{Builtins} (env : Env).

Lemma download_all_length item media_dir file_ids : forall index,
  (length (download_all env item media_dir index file_ids) <= length file_ids)%nat.
Proof.
  induction file_ids as [|file_id rest IH]; intros index; [reflexivity|].
  cbn [download_all]. rewrite length_app. specialize (IH (index + 1)).
  destruct (download_one env item media_dir index file_id); cbn [length] in *; lia.
Qed.

(** The directory of a content item's files. *)
Definition media_dir_of (item : ContentItem.t) : string :=
  config.media_storage_path (settings env) +:+ "/" +:+ pretty (ContentItem.id item).

(** X14. When [_ensure_local_files] returns, it returns at least one file and
    at most one per file handle. Either every recorded file is on disk
    and there is one per handle: then nothing is fetched and neither the
    object nor the database changes; or the files are what the download
    loop has written, and they are recorded in the object and in the
    item's row, and in no other row. *)
Theorem ensure_local_files_returns (item item' : ContentItem.t)
    (files : list string) (w w' : World) :
  _ensure_local_files env item w = (Return (files, item'), w') ->
  files <> []
  /\ (length files <= length (ContentItem.telegram_file_ids item))%nat
  /\ ((files = List.filter (path_exists env) (ContentItem.local_files item)
       /\ length files = length (ContentItem.telegram_file_ids item)
       /\ item' = item /\ w' = w)
      \/ (files = download_all env item (media_dir_of item) 1
                    (ContentItem.telegram_file_ids item)
          /\ ContentItem.local_files_json item' = files
          /\ content_items w'
             = map (fun c => if ContentItem.id c =? ContentItem.id item
                             then with_local_files c files else c)
                   (content_items w)
          /\ deliveries w' = deliveries w /\ accounts w' = accounts w)).
Proof.
  unfold _ensure_local_files. cbv zeta. fold (media_dir_of item).
  destruct (List.filter (path_exists env) (ContentItem.local_files item))
    as [|p ps] eqn:Eex.
  - cbn [andb].
    destruct (negb (nonempty (config.tg_bot_token (settings env))));
      [discriminate|].
    rewrite bind_eq. unfold lift at 1.
    destruct (mkdir env (media_dir_of item)) as [[]|x]; [|discriminate].
    pose proof (download_all_length item (media_dir_of item)
                  (ContentItem.telegram_file_ids item) 1) as Hlen.
    destruct (download_all env item (media_dir_of item) 1
                (ContentItem.telegram_file_ids item)) as [|q qs] eqn:Ed;
      [discriminate|].
    rewrite bind_eq. unfold commit_content_item. rewrite bind_eq.
    unfold get_world, set_content_items. rewrite ret_eq.
    intros [= <- <- <-]. split; [discriminate|]. split; [exact Hlen|].
    right. cbn. auto.
  - cbn [andb].
    destruct (Nat.eqb_spec (length (p :: ps))
                (length (ContentItem.telegram_file_ids item))) as [Hn|Hn].
    + rewrite ret_eq. intros [= <- <- <-]. split; [discriminate|].
      split; [lia|]. left. auto.
    + destruct (negb (nonempty (config.tg_bot_token (settings env))));
        [discriminate|].
      rewrite bind_eq. unfold lift at 1.
      destruct (mkdir env (media_dir_of item)) as [[]|x]; [|discriminate].
      pose proof (download_all_length item (media_dir_of item)
                    (ContentItem.telegram_file_ids item) 1) as Hlen.
      destruct (download_all env item (media_dir_of item) 1
                  (ContentItem.telegram_file_ids item)) as [|q qs] eqn:Ed;
        [discriminate|].
      rewrite bind_eq. unfold commit_content_item. rewrite bind_eq.
      unfold get_world, set_content_items. rewrite ret_eq.
      intros [= <- <- <-]. split; [discriminate|]. split; [exact Hlen|].
      right. cbn. auto.
Qed.

(** X15. Only three things make [_ensure_local_files] raise: an empty bot
    token, a directory that cannot be created, and a download loop that
    has written no file at all; a failure on a single file is swallowed
    by the loop. Whenever it raises, the state is as before. *)
Theorem ensure_local_files_raises (item : ContentItem.t) (w w' : World)
    (x : exn) :
  _ensure_local_files env item w = (Raise x, w') ->
  w' = w
  /\ ((x = RuntimeError "TG_BOT_TOKEN is empty"
       /\ config.tg_bot_token (settings env) = "")
      \/ mkdir env (media_dir_of item) = Raise x
      \/ (x = RuntimeError "No files could be downloaded from Telegram"
          /\ download_all env item (media_dir_of item) 1
               (ContentItem.telegram_file_ids item) = [])).
Proof.
  unfold _ensure_local_files. cbv zeta. fold (media_dir_of item).
  destruct (_ && _); [discriminate|].
  destruct (nonempty (config.tg_bot_token (settings env))) eqn:Etok; cbn [negb].
  - rewrite bind_eq. unfold lift at 1.
    destruct (mkdir env (media_dir_of item)) as [[]|y].
    + destruct (download_all env item (media_dir_of item) 1
                  (ContentItem.telegram_file_ids item)) as [|q qs] eqn:Ed.
      * rewrite raise_eq. intros [= <- <-]. auto.
      * rewrite bind_eq. unfold commit_content_item. rewrite bind_eq.
        unfold get_world, set_content_items. rewrite ret_eq. discriminate.
    + intros [= <- <-]. auto.
  - rewrite raise_eq. intros [= <- <-]. split; [reflexivity|]. left.
    split; [reflexivity|]. unfold nonempty in Etok.
    destruct (String.eqb_spec (config.tg_bot_token (settings env)) "");
      [assumption | discriminate].
Qed.
End Files.

End files_facts.

(** ** The photo path *)

Module photo_facts.
Import frame client photo_posting.

Section Photo.
Context `{Builtins} (env : Env).

(** X16. The photo path gives up, with [None] and without uploading anything,
    when the init answer lists fewer upload URLs than there are images
    (none at all included): the init call is the only provider call. *)
Theorem try_publish_photo_too_few_urls (access_token caption mode : string)
    (image_paths : list string) (init_data : dict) (w w1 : World) :
  image_paths <> [] ->
  init_photo_upload env access_token caption mode
    (Z.of_nat (length image_paths)) w = (Return init_data, w1) ->
  (length (_extract_upload_urls init_data) < length image_paths)%nat ->
  try_publish_photo_or_carousel env access_token image_paths caption mode w
  = (Return None, w1)
  /\ exists call, trace w1 = trace w ++ [call].
Proof.
  intros Hne Hinit Hfew. split.
  - unfold try_publish_photo_or_carousel.
    destruct image_paths as [|p ps]; [contradiction|].
    unfold try_except. rewrite bind_eq, Hinit. cbv zeta.
    destruct (_extract_upload_urls init_data) as [|u us] eqn:Eu; [reflexivity|].
    destruct (Nat.ltb_spec (length (u :: us)) (length (p :: ps))); [reflexivity|lia].
  - revert Hinit. unfold init_photo_upload. rewrite bind_eq.
    pose proof (request_facts._request_trace env "POST"
                  PHOTO_INIT_ENDPOINT (Some access_token)
                  (Some (VDict [ ("post_mode", VStr mode);
                     ("post_info", VDict [("title", VStr caption)]);
                     ("source_info", VDict [ ("source", VStr "FILE_UPLOAD");
                        ("media_count", VInt (Z.of_nat (length image_paths)));
                        ("media_type", VStr "PHOTO") ]) ]))
                  None [] w) as Htrace.
    destruct (_request env "POST" PHOTO_INIT_ENDPOINT _ _ None [] w)
      as [[payload|x] w2]; [|discriminate].
    rewrite ret_eq. intros [= _ <-]. eexists. exact Htrace.
Qed.

(** X17. The photo path never lets a permission error out: a [TikTokAPIError]
    that leaves [try_publish_photo_or_carousel] is one the classifier does
    not take for unsupported or permission, so the caller's fallback to a
    slideshow video is not bypassed by such an error. *)
Theorem try_publish_photo_raises (access_token caption mode : string)
    (image_paths : list string) (w w' : World) (e : TikTokAPIError) :
  try_publish_photo_or_carousel env access_token image_paths caption mode w
  = (Raise (ApiError e), w') ->
  is_unsupported_or_permission e = false.
Proof.
  unfold try_publish_photo_or_carousel.
  destruct image_paths as [|p ps]; [discriminate|].
  unfold try_except.
  match goal with |- context [match ?body w with _ => _ end] =>
    destruct (body w) as [[r|x] w1] end; [discriminate|].
  destruct x as [exc| | | | |]; cbn [is_api_error]; try discriminate.
  destruct (is_unsupported_or_permission exc) eqn:E; [discriminate|].
  rewrite raise_eq. now intros [= <- _].
Qed.
End Photo.

End photo_facts.

(** ** The configured mapping *)

Module mapping_facts.
Import config.

Section Mapping.
Context `{Builtins}.

(** The labels a payload item contributes for a chat: those of a list
    value with at least one label that is not blank, under a key that
    [int] reads as the chat id. *)
Definition entry_for (chat_id : Z) (item : string * value) : option (list string) :=
  match py_int (VStr item.1), item.2 with
  | Some c, VList value =>
      if c =? chat_id then
        match map (fun item => strip (py_str item))
                  (List.filter (fun item => nonempty (strip (py_str item))) value) with
        | [] => None
        | labels => Some labels
        end
      else None
  | _, _ => None
  end.

Lemma mapping_step_lookup mapping item chat_id :
  mapping_step mapping item !! chat_id
  = match entry_for chat_id item with
    | Some labels => Some labels
    | None => mapping !! chat_id
    end.
Proof.
  unfold mapping_step, entry_for.
  destruct (py_int (VStr item.1)) as [c|]; [|reflexivity].
  destruct item.2 as [| | | |value|]; try reflexivity.
  destruct (map _ _) as [|l ls] eqn:E.
  - now destruct (c =? chat_id).
  - rewrite lookup_insert. destruct (Z.eqb_spec c chat_id) as [->|Hne].
    + now rewrite decide_True.
    + now rewrite decide_False.
Qed.

Lemma fold_mapping_lookup items chat_id : forall mapping,
  fold_left mapping_step items mapping !! chat_id
  = match last (omap (entry_for chat_id) items) with
    | Some labels => Some labels
    | None => mapping !! chat_id
    end.
Proof.
  induction items as [|item items IH]; intros mapping; [reflexivity|].
  cbn [fold_left]. rewrite IH, mapping_step_lookup.
  change (omap (entry_for chat_id) (item :: items))
    with (match entry_for chat_id item with
          | Some labels => labels :: omap (entry_for chat_id) items
          | None => omap (entry_for chat_id) items
          end).
  destruct (entry_for chat_id item) as [labels|]; [|reflexivity].
  destruct (omap (entry_for chat_id) items) as [|l ls] eqn:E; [reflexivity|].
  rewrite !last_cons. now destruct (last ls).
Qed.

(** X18. The labels configured for a chat are those of the last item of the
    JSON object whose key reads as the chat id and whose value is a list
    with a label that is not blank; items of another shape neither add
    nor remove an entry, and anything but a JSON object gives the empty
    mapping. *)
Theorem chat_account_mapping_lookup (self : Settings) (chat_id : Z) :
  chat_account_mapping self !! chat_id
  = match tg_to_tiktok_mapping_json self with
    | Some (VDict payload) => last (omap (entry_for chat_id) payload)
    | _ => None
    end.
Proof.
  unfold chat_account_mapping.
  destruct (tg_to_tiktok_mapping_json self) as [[| | | | |payload]|];
    try apply lookup_empty.
  rewrite fold_mapping_lookup, lookup_empty.
  now destruct (last _).
Qed.

(** X19. Every label of the mapping is stripped and not empty. *)
Theorem chat_account_mapping_labels (self : Settings) (chat_id : Z)
    (labels : list string) (label : string) :
  chat_account_mapping self !! chat_id = Some labels ->
  In label labels ->
  label <> "" /\ strip label = label.
Proof.
  unfold chat_account_mapping.
  destruct (tg_to_tiktok_mapping_json self) as [[| | | | |payload]|];
    try (rewrite lookup_empty; discriminate).
  rewrite fold_mapping_lookup, lookup_empty.
  intros Hlast Hin.
  assert (last (omap (entry_for chat_id) payload) = Some labels) as Hlast'
    by (now destruct (last _)).
  clear Hlast. rename Hlast' into Hlast.
  apply last_Some_elem_of in Hlast.
  apply list_elem_of_omap in Hlast as (item & _ & Hentry).
  revert Hentry. unfold entry_for.
  destruct (py_int (VStr item.1)) as [c|]; [|discriminate].
  destruct item.2 as [| | | |value|]; try discriminate.
  destruct (c =? chat_id); [|discriminate].
  destruct (map _ _) as [|l ls] eqn:E; [discriminate|].
  intros [= <-]. rewrite <- E in Hin.
  apply in_map_iff in Hin as (v & <- & Hv). apply filter_In in Hv as [_ Hv].
  apply aggregator_facts.nonempty_true in Hv.
  split; [assumption | apply string_facts.strip_idempotent].
Qed.
End Mapping.

End mapping_facts.

(** ** The album buffer over several calls *)

Module buffer_facts.
Import aggregator aggregator_facts.

(** The columns of [uq_media_group_buffer_item]. *)
Definition item_key (r : MediaGroupBuffer.t) : string * Z * string :=
  (MediaGroupBuffer.media_group_id r, MediaGroupBuffer.source_message_id r,
   MediaGroupBuffer.telegram_file_id r).

(** What the table guarantees, and what [add] sees to: distinct primary
    keys, the unique constraint, and no row without an album id. *)
Definition buffer_ok (db : list MediaGroupBuffer.t) : Prop :=
  List.NoDup (map MediaGroupBuffer.id db)
  /\ List.NoDup (map item_key db)
  /\ forall r, In r db -> MediaGroupBuffer.media_group_id r <> "".

Lemma clash_true a b : MediaGroupBuffer.clash a b = true <-> item_key a = item_key b.
Proof.
  unfold MediaGroupBuffer.clash, item_key.
  rewrite !andb_true_iff, !String.eqb_eq, Z.eqb_eq. split.
  - intros [[-> ->] ->]. reflexivity.
  - intros [= -> -> ->]. auto.
Qed.

Lemma next_id_fresh_row (db : list MediaGroupBuffer.t) :
  ~ In (next_id MediaGroupBuffer.id db) (map MediaGroupBuffer.id db).
Proof.
  assert (forall r, In r db ->
            MediaGroupBuffer.id r < next_id MediaGroupBuffer.id db) as Habove.
  { unfold next_id. induction db as [|x db IH]; [intros r []|].
    cbn [fold_right]. intros r [->|Hr]; [lia|]. specialize (IH r Hr). lia. }
  intros Hin. apply in_map_iff in Hin as (r & E & Hr).
  specialize (Habove r Hr). lia.
Qed.

(** What [add] does to the table when it stores the member. *)
Lemma add_returns db parsed raw g db1 :
  ParsedMessage.media_group_id parsed = Some g -> g <> "" ->
  add db parsed raw = (Return tt, db1) ->
  exists row,
    db1 = db ++ [row]
    /\ MediaGroupBuffer.id row = next_id MediaGroupBuffer.id db
    /\ item_key row = (g, ParsedMessage.message_id parsed,
                       ParsedMessage.telegram_file_id parsed)
    /\ ~ In (item_key row) (map item_key db).
Proof.
  intros Hg Hne. unfold add. rewrite Hg.
  apply nonempty_true in Hne. rewrite Hne. cbn [negb].
  unfold MediaGroupBuffer.insert.
  destruct (existsb _ db) eqn:E; [discriminate|].
  intros [= <-]. eexists. split; [reflexivity|]. split; [reflexivity|].
  split; [reflexivity|].
  intros Hin. apply in_map_iff in Hin as (r & Hk & Hr).
  assert (existsb (MediaGroupBuffer.clash
            {| MediaGroupBuffer.id := next_id MediaGroupBuffer.id db;
               MediaGroupBuffer.media_group_id := g;
               MediaGroupBuffer.source_chat_id := ParsedMessage.source_chat_id parsed;
               MediaGroupBuffer.source_message_id := ParsedMessage.message_id parsed;
               MediaGroupBuffer.content_type := ParsedMessage.content_type parsed;
               MediaGroupBuffer.telegram_file_id := ParsedMessage.telegram_file_id parsed;
               MediaGroupBuffer.caption := ParsedMessage.caption parsed;
               MediaGroupBuffer.source_text := ParsedMessage.text parsed;
               MediaGroupBuffer.raw_message_json := raw;
               MediaGroupBuffer.created_at := ParsedMessage.created_at parsed |})
            db = true) as Hex.
  { apply existsb_exists. exists r. split; [assumption|].
    apply clash_true. now rewrite Hk. }
  congruence.
Qed.

(** X20. [add] keeps the table's constraints, however it ends; a message
    without an album id leaves the table as it is. *)
Theorem add_keeps_buffer_ok (db : list MediaGroupBuffer.t)
    (parsed : ParsedMessage.t) (raw_message : dict) :
  buffer_ok db ->
  buffer_ok (add db parsed raw_message).2
  /\ (opt_truthy (ParsedMessage.media_group_id parsed) = false ->
      add db parsed raw_message = (Return tt, db)).
Proof.
  intros (Hid & Hkey & Hgid). split.
  - destruct (ParsedMessage.media_group_id parsed) as [g|] eqn:Eg.
    2:{ unfold add. rewrite Eg. cbn. repeat split; assumption. }
    destruct (String.eqb_spec g "") as [->|Hne].
    { unfold add. rewrite Eg. cbn. repeat split; assumption. }
    destruct (add db parsed raw_message) as [[[]|x] db1] eqn:Ea.
    + destruct (add_returns db parsed raw_message g db1 Eg Hne Ea)
        as (row & -> & Hrid & Hrk & Hfresh).
      cbn [snd]. unfold buffer_ok. rewrite !map_app. cbn [map].
      split; [|split].
      * apply delivery_facts.NoDup_snoc; [assumption|].
        rewrite Hrid. apply next_id_fresh_row.
      * now apply delivery_facts.NoDup_snoc.
      * intros r Hr. apply in_app_or in Hr as [Hr | [<- | []]]; [now apply Hgid|].
        injection Hrk as -> _ _. assumption.
    + revert Ea. unfold add. rewrite Eg.
      destruct (negb (nonempty g)); [discriminate|].
      destruct (MediaGroupBuffer.insert _ db); [discriminate|].
      intros [= _ <-]. cbn. repeat split; assumption.
  - unfold add. destruct (ParsedMessage.media_group_id parsed) as [g|];
      [|reflexivity].
    cbn [opt_truthy]. now intros ->.
Qed.

(** X21. A member that [add] has stored comes out with its album: once the
    album is due, the flush emits a bundle of that album which lists the
    member's message id and its file handle, and no row of the album is
    left in the buffer. *)
Theorem added_member_is_flushed (self : MediaGroupAggregator)
    (db db1 : list MediaGroupBuffer.t) (parsed : ParsedMessage.t)
    (raw_message : dict) (g : string) (now : instant) :
  ParsedMessage.media_group_id parsed = Some g -> g <> "" ->
  add db parsed raw_message = (Return tt, db1) ->
  is_due (now - seconds (flush_seconds self)) db1 g = true ->
  let flushed := flush_due_groups self db1 now in
  (exists b,
     In b flushed.1
     /\ media_group_id b = g
     /\ In (ParsedMessage.message_id parsed) (source_message_ids b)
     /\ In (ParsedMessage.telegram_file_id parsed) (file_ids b))
  /\ forall r, In r flushed.2 -> MediaGroupBuffer.media_group_id r <> g.
Proof.
  intros Hg Hne Hadd Hdue. cbv zeta. rewrite flush_due_groups_eq. cbv zeta.
  cbn [fst snd].
  destruct (add_returns db parsed raw_message g db1 Hg Hne Hadd)
    as (row & -> & _ & Hrk & _).
  injection Hrk as Hrg Hrm Hrf.
  set (db1 := db ++ [row]) in *.
  assert (In row db1) as Hrow by (apply in_or_app; right; now left).
  assert (In g (map MediaGroupBuffer.media_group_id db1)) as Hin.
  { rewrite <- Hrg. now apply in_map. }
  assert (In g (due_group_ids (now - seconds (flush_seconds self)) db1)) as Hd.
  { apply due_In. auto. }
  split.
  - destruct (bundle_of_spec db1 g Hin)
      as (b & r0 & rows' & Hb & Hrows & Hbg & _ & Hids & Hfiles & _).
    exists b. split; [|split; [exact Hbg|]].
    + apply list_elem_of_In, list_elem_of_omap. exists g.
      split; [now apply list_elem_of_In | exact Hb].
    + assert (In row (r0 :: rows')) as Hr.
      { rewrite <- Hrows. apply order_by_In. apply rows_of_In. auto. }
      rewrite Hids, Hfiles, <- Hrm, <- Hrf. split; now apply in_map.
  - intros r Hr. apply filter_In in Hr as [_ Hkeep]. intros Hrg'.
    apply negb_true_iff in Hkeep.
    assert (existsb (String.eqb (MediaGroupBuffer.media_group_id r))
              (due_group_ids (now - seconds (flush_seconds self)) db1) = true)
      as Hex.
    { apply existsb_exists. exists g. split; [assumption|].
      now apply String.eqb_eq. }
    congruence.
Qed.

Lemma rows_of_filter (keep : MediaGroupBuffer.t -> bool) g db :
  (forall r, MediaGroupBuffer.media_group_id r = g -> keep r = true) ->
  rows_of g (List.filter keep db) = rows_of g db.
Proof.
  intros Hkeep. unfold rows_of.
  induction db as [|x db IH]; [reflexivity|]. cbn [List.filter].
  destruct (String.eqb_spec (MediaGroupBuffer.media_group_id x) g) as [Ex|Ex].
  - rewrite (Hkeep x Ex). cbn [List.filter].
    rewrite (proj2 (String.eqb_eq _ _) Ex). now rewrite IH.
  - destruct (keep x); cbn [List.filter]; [|exact IH].
    rewrite (proj2 (String.eqb_neq _ _) Ex). exact IH.
Qed.

(** X22. A flush leaves nothing due: flushing again at the same instant, or
    at an earlier one, emits nothing and leaves the buffer as it is. *)
Theorem flush_leaves_nothing_due (self : MediaGroupAggregator)
    (db : list MediaGroupBuffer.t) (now now' : instant) :
  now' <= now ->
  let db' := (flush_due_groups self db now).2 in
  flush_due_groups self db' now' = ([], db').
Proof.
  intros Hle. cbv zeta. rewrite (flush_due_groups_eq self db now). cbv zeta.
  cbn [snd].
  set (t := now - seconds (flush_seconds self)).
  set (due := due_group_ids t db).
  set (keep := fun r => negb (existsb (String.eqb (MediaGroupBuffer.media_group_id r)) due)).
  set (db' := List.filter keep db).
  unfold flush_due_groups. cbv zeta.
  set (t' := now' - seconds (flush_seconds self)).
  assert (t' <= t) as Ht by (unfold t, t'; lia).
  destruct (due_group_ids t' db') as [|g gs] eqn:E; [reflexivity|].
  exfalso.
  assert (In g (due_group_ids t' db')) as Hg by (rewrite E; now left).
  apply due_In in Hg as [Hin Hdue].
  apply in_map_iff in Hin as (r & Hrg & Hr).
  apply filter_In in Hr as [Hr Hkeep].
  assert (~ In g due) as Hnot.
  { intros Hd. unfold keep in Hkeep. apply negb_true_iff in Hkeep.
    assert (existsb (String.eqb (MediaGroupBuffer.media_group_id r)) due = true)
      as Hex.
    { apply existsb_exists. exists g. split; [assumption|].
      now apply String.eqb_eq. }
    congruence. }
  assert (rows_of g db' = rows_of g db) as Hrows.
  { apply rows_of_filter. intros x Ex. unfold keep. apply negb_true_iff.
    destruct (existsb _ due) eqn:Eex; [|reflexivity].
    apply existsb_exists in Eex as (g' & Hg' & Heq).
    apply String.eqb_eq in Heq. exfalso. apply Hnot. congruence. }
  assert (is_due t db g = false) as Hnotdue.
  { destruct (is_due t db g) eqn:Ed; [|reflexivity].
    exfalso. apply Hnot. apply due_In. split; [|assumption].
    rewrite <- Hrg. now apply in_map. }
  unfold is_due in Hdue, Hnotdue. rewrite Hrows in Hdue.
  destruct (min_created_at (rows_of g db)) as [m|]; [|discriminate].
  apply Z.leb_le in Hdue. apply Z.leb_gt in Hnotdue. lia.
Qed.

End buffer_facts.

(** ** Reading a message *)

Module parser_facts.
Import parser message_parser.

Lemma key_lt_true a b :
  key_lt a b = true <-> a.1 < b.1 \/ (a.1 = b.1 /\ a.2 < b.2).
Proof.
  unfold key_lt. rewrite orb_true_iff, andb_true_iff, !Z.ltb_lt, Z.eqb_eq.
  reflexivity.
Qed.

Lemma key_lt_false a b :
  key_lt a b = false <-> b.1 < a.1 \/ (a.1 = b.1 /\ b.2 <= a.2).
Proof.
  destruct (key_lt a b) eqn:E.
  - apply key_lt_true in E. split; [discriminate | lia].
  - split; [|reflexivity]. intros _.
    assert (~ (a.1 < b.1 \/ (a.1 = b.1 /\ a.2 < b.2))) as Hn.
    { intros Ht. apply key_lt_true in Ht. congruence. }
    lia.
Qed.

Section Parser.
Context `{Builtins} (fromtimestamp : Z -> timestamp) (utc_now : instant).

(** The items before [best] have a smaller key, those after it a key
    that is not greater: [best] is the first item with the greatest
    key. *)
Definition first_largest (sizes : list value) (best : value) : Prop :=
  exists pre post kb,
    sizes = pre ++ best :: post
    /\ sort_key best = Return kb
    /\ (forall item, In item pre ->
          exists k, sort_key item = Return k /\ key_lt k kb = true)
    /\ (forall item, In item post ->
          exists k, sort_key item = Return k /\ key_lt kb k = false).

Lemma max_from_spec rest : forall pre best kb mid r,
  sort_key best = Return kb ->
  (forall item, In item pre ->
     exists k, sort_key item = Return k /\ key_lt k kb = true) ->
  (forall item, In item mid ->
     exists k, sort_key item = Return k /\ key_lt kb k = false) ->
  max_from best kb rest = Return r ->
  first_largest (pre ++ best :: mid ++ rest) r.
Proof.
  induction rest as [|item rest IH]; intros pre best kb mid r Hb Hpre Hmid.
  - cbn [max_from]. intros [= <-]. rewrite app_nil_r.
    exists pre, mid, kb. auto.
  - cbn [max_from]. destruct (sort_key item) as [k|x] eqn:Ek; [|discriminate].
    cbn [and_then]. destruct (key_lt kb k) eqn:Elt.
    + intros Hr.
      replace (pre ++ best :: mid ++ item :: rest)
        with ((pre ++ best :: mid) ++ item :: [] ++ rest)
        by (rewrite <- app_assoc; reflexivity).
      apply (IH (pre ++ best :: mid) item k [] r Ek); [| intros ? [] | exact Hr].
      apply key_lt_true in Elt.
      intros it Hit. apply in_app_or in Hit as [Hit | [<- | Hit]].
      * destruct (Hpre it Hit) as (k' & Hk' & Hlt). exists k'. split; [assumption|].
        apply key_lt_true in Hlt. apply key_lt_true. lia.
      * exists kb. split; [assumption|]. apply key_lt_true. lia.
      * destruct (Hmid it Hit) as (k' & Hk' & Hle). exists k'. split; [assumption|].
        apply key_lt_false in Hle. apply key_lt_true. lia.
    + intros Hr.
      replace (pre ++ best :: mid ++ item :: rest)
        with (pre ++ best :: (mid ++ [item]) ++ rest)
        by (rewrite <- app_assoc; reflexivity).
      apply (IH pre best kb (mid ++ [item]) r Hb Hpre); [|exact Hr].
      intros it Hit. apply in_app_or in Hit as [Hit | [<- | []]].
      * now apply Hmid.
      * exists k. auto.
Qed.

(** X23. [_pick_largest_photo] returns the first of the sizes whose key
    [(file_size, width * height)] is the greatest in the order of
    tuples; when it raises, the list is empty or the key of one of the
    sizes cannot be computed. *)
Theorem pick_largest_photo_spec (photo_sizes : list value) :
  match _pick_largest_photo photo_sizes with
  | Return best => first_largest photo_sizes best
  | Raise x =>
      photo_sizes = []
      \/ exists item, In item photo_sizes /\ sort_key item = Raise x
  end.
Proof.
  destruct (_pick_largest_photo photo_sizes) as [best|x] eqn:E.
  - revert E. unfold _pick_largest_photo.
    destruct photo_sizes as [|item rest]; [discriminate|].
    destruct (sort_key item) as [k|y] eqn:Ek; [|discriminate]. cbn [and_then].
    intros Hr.
    apply (max_from_spec rest [] item k [] best Ek); [intros ? [] | intros ? [] | exact Hr].
  - revert E. unfold _pick_largest_photo.
    destruct photo_sizes as [|item rest]; [now left|]. right.
    destruct (sort_key item) as [k|y] eqn:Ek.
    2:{ cbn in E. injection E as ->. exists item. split; [now left | assumption]. }
    cbn [and_then] in E.
    assert (forall rest best kb, max_from best kb rest = Raise x ->
              exists it, In it rest /\ sort_key it = Raise x) as Hloop.
    { clear. induction rest as [|it rest IH]; intros best kb; [discriminate|].
      cbn [max_from]. destruct (sort_key it) as [k|y] eqn:Ek.
      - cbn [and_then]. destruct (key_lt kb k); intros Hr;
          destruct (IH _ _ Hr) as (it' & Hin & Hk); exists it'; split;
          try assumption; now right.
      - cbn. intros [= ->]. exists it. split; [now left | assumption]. }
    destruct (Hloop rest item k E) as (it & Hin & Hk).
    exists it. split; [now right | assumption].
Qed.

(** X24. What [parse_message] hands on is normalised: the kind is ["video"]
    or ["photo"], the file handle is not empty, handle, caption and text
    carry no surrounding blanks, an album id, if any, is not empty, and
    the ids are the integers of the message. *)
Theorem parse_message_normalised (message : dict) (p : ParsedMessage.t) :
  parse_message fromtimestamp utc_now message = Return (Some p) ->
  (ParsedMessage.content_type p = "video" \/ ParsedMessage.content_type p = "photo")
  /\ ParsedMessage.telegram_file_id p <> ""
  /\ strip (ParsedMessage.telegram_file_id p) = ParsedMessage.telegram_file_id p
  /\ strip (ParsedMessage.caption p) = ParsedMessage.caption p
  /\ strip (ParsedMessage.text p) = ParsedMessage.text p
  /\ (forall g, ParsedMessage.media_group_id p = Some g -> g <> "" /\ strip g = g)
  /\ int_value (get message "message_id") = Some (ParsedMessage.message_id p)
  /\ (exists chat, get message "chat" = VDict chat
                   /\ int_value (get chat "id") = Some (ParsedMessage.source_chat_id p)).
Proof.
  unfold parse_message.
  destruct (or_ (get message "chat") (VDict [])) as [| | | | |chat] eqn:Echat;
    try discriminate.
  destruct (int_value (get chat "id")) as [chat_id|] eqn:Ecid; [|discriminate].
  destruct (int_value (get message "message_id")) as [message_id|] eqn:Emid;
    [|discriminate].
  destruct (_parse_created_at fromtimestamp utc_now (get message "date"))
    as [created_at|x]; [|discriminate].
  cbn [and_then]. cbv zeta.
  assert (forall kind file_id q,
    (kind = "video" \/ kind = "photo") -> nonempty file_id = true ->
    strip file_id = file_id ->
    q = {| ParsedMessage.source_chat_id := chat_id;
           ParsedMessage.message_id := message_id;
           ParsedMessage.media_group_id :=
             (if nonempty (_safe_text (get message "media_group_id"))
              then Some (_safe_text (get message "media_group_id")) else None);
           ParsedMessage.content_type := kind;
           ParsedMessage.telegram_file_id := file_id;
           ParsedMessage.caption := _safe_text (get message "caption");
           ParsedMessage.text := _safe_text (get message "text");
           ParsedMessage.created_at := created_at |} ->
    (ParsedMessage.content_type q = "video" \/ ParsedMessage.content_type q = "photo")
    /\ ParsedMessage.telegram_file_id q <> ""
    /\ strip (ParsedMessage.telegram_file_id q) = ParsedMessage.telegram_file_id q
    /\ strip (ParsedMessage.caption q) = ParsedMessage.caption q
    /\ strip (ParsedMessage.text q) = ParsedMessage.text q
    /\ (forall g, ParsedMessage.media_group_id q = Some g -> g <> "" /\ strip g = g)
    /\ Some message_id = Some (ParsedMessage.message_id q)
    /\ (exists chat0, get message "chat" = VDict chat0
          /\ int_value (get chat0 "id") = Some (ParsedMessage.source_chat_id q)))
    as Hbuild.
  { intros kind file_id q Hkind Hne Hstrip ->. cbn.
    split; [assumption|]. split; [now apply aggregator_facts.nonempty_true|].
    split; [assumption|].
    split; [apply string_facts._safe_text_stripped|].
    split; [apply string_facts._safe_text_stripped|].
    split; [|split; [reflexivity|]].
    - intros g. destruct (nonempty (_safe_text (get message "media_group_id"))) eqn:Eg;
        [|discriminate].
      intros [= <-]. split; [now apply aggregator_facts.nonempty_true|].
      apply string_facts._safe_text_stripped.
    - revert Echat. unfold or_.
      destruct (truthy (get message "chat")) eqn:Et.
      + intros ->. exists chat. auto.
      + intros [= <-]. discriminate. }
  destruct (match get message "video" with VDict _ => _ | _ => None end)
    as [file_id|] eqn:Ev.
  { intros [= <-].
    destruct (get message "video") as [| | | | |video]; try discriminate.
    destruct (nonempty (_safe_text (get video "file_id"))) eqn:Ef; [|discriminate].
    injection Ev as <-.
    eapply Hbuild; [left; reflexivity | exact Ef
                    | apply string_facts._safe_text_stripped | reflexivity]. }
  destruct (match get message "document" with VDict _ => _ | _ => None end)
    as [file_id|] eqn:Ed.
  { intros [= <-].
    destruct (get message "document") as [| | | | |document]; try discriminate.
    destruct (nonempty (_safe_text (get document "file_id"))) eqn:Ef;
      [|discriminate].
    cbn [andb] in Ed. destruct (String.prefix _ _); [|discriminate].
    injection Ed as <-.
    eapply Hbuild; [left; reflexivity | exact Ef
                    | apply string_facts._safe_text_stripped | reflexivity]. }
  destruct (get message "photo") as [| | | |[|size sizes]|]; try discriminate.
  destruct (_pick_largest_photo (size :: sizes)) as [best|x]; [|discriminate].
  cbn [and_then]. destruct best as [| | | | |best]; try discriminate.
  destruct (nonempty (_safe_text (get best "file_id"))) eqn:Ef; [|discriminate].
  intros [= <-].
  eapply Hbuild; [right; reflexivity | exact Ef
                  | apply string_facts._safe_text_stripped | reflexivity].
Qed.
End Parser.

End parser_facts.

(** ** Ingestion *)

Module ingest_facts.
Import frame message_parser ingest.

Lemma next_id_above_item (table : list ContentItem.t) c :
  In c table -> ContentItem.id c < next_id ContentItem.id table.
Proof.
  unfold next_id. induction table as [|x table IH]; [intros []|].
  cbn [fold_right]. intros [->|Hin]; [lia|]. specialize (IH Hin). lia.
Qed.

(** A row appended with the next primary key is the one a lookup by
    that key finds. *)
Lemma find_appended (table : list ContentItem.t) item :
  ContentItem.id item = next_id ContentItem.id table ->
  List.find (fun c => ContentItem.id c =? ContentItem.id item) (table ++ [item])
  = Some item.
Proof.
  intros Hid.
  assert (forall c, In c table -> (ContentItem.id c =? ContentItem.id item) = false)
    as Hother.
  { intros c Hc. apply next_id_above_item in Hc. apply Z.eqb_neq. lia. }
  clear Hid. induction table as [|x table IH]; cbn [app find].
  - now rewrite Z.eqb_refl.
  - rewrite (Hother x (or_introl eq_refl)). apply IH.
    intros c Hc. apply Hother. now right.
Qed.

Section Ingest.
Context `{Builtins} (env : Env)
  (fromtimestamp : Z -> timestamp) (utc_now : instant)
  (tg_allowed_chat_ids : string).

Lemma _create_content_item_eq content_type chat message_id group caption text
    file_ids raw w :
  _create_content_item content_type chat message_id group caption text
    file_ids raw w
  = let item := {|
      ContentItem.id := next_id ContentItem.id (content_items w);
      ContentItem.content_type := content_type;
      ContentItem.source_chat_id := chat;
      ContentItem.source_message_id := message_id;
      ContentItem.media_group_id := group;
      ContentItem.caption := caption;
      ContentItem.source_text := text;
      ContentItem.telegram_file_ids_json := file_ids;
      ContentItem.local_files_json := [];
      ContentItem.raw_update_json := raw;
      ContentItem.processed_at := None |} in
    (Return item, (set_content_items (content_items w ++ [item]) w).2).
Proof. reflexivity. Qed.

(** X25. What one update does. It never touches accounts, deliveries or the
    provider. If it raises, nothing has changed. If nothing is handed to
    the queue, no content item was created, and the buffer is as before
    or has one more row. If an id is handed to the queue, the buffer is
    as before and exactly one content item was created: the one a lookup
    by that id finds, keyed ["msg:<chat>:<message>"], with the one file
    handle of the message. *)
Theorem ingest_update_effect (update : dict) (db : list MediaGroupBuffer.t)
    (w : World) :
  let run := ingest_update fromtimestamp utc_now tg_allowed_chat_ids update db w in
  let w' := run.2 in
  accounts w' = accounts w /\ deliveries w' = deliveries w
  /\ trace w' = trace w /\ publish_calls w' = publish_calls w
  /\ match run.1 with
     | Raise _ => w' = w
     | Return (db', None) =>
         w' = w /\ (db' = db \/ exists row, db' = db ++ [row])
     | Return (db', Some item_id) =>
         db' = db
         /\ exists item,
              content_items w' = content_items w ++ [item]
              /\ List.find (fun c => ContentItem.id c =? item_id) (content_items w')
                 = Some item
              /\ ContentItem.media_group_id item = None
              /\ ContentItem.local_files_json item = []
              /\ ContentItem.processed_at item = None
              /\ exists message_id file_id,
                   ContentItem.source_message_id item = Some message_id
                   /\ ContentItem.telegram_file_ids_json item = [file_id]
                   /\ ContentItem.source_key item
                      = "msg:" +:+ pretty (ContentItem.source_chat_id item)
                          +:+ ":" +:+ pretty message_id
     end.
Proof.
  cbv zeta. unfold ingest_update.
  destruct (extract_message update) as [message|]; [|solve [cbn; auto 10]].
  destruct (truthy message); cbn [negb]; [|solve [cbn; auto 10]].
  destruct message as [| | | | |message]; try solve [cbn; auto 10].
  rewrite bind_eq. unfold lift.
  destruct (parse_message fromtimestamp utc_now message) as [[parsed|]|x];
    [| solve [cbn; auto 10] | solve [cbn; auto 10]].
  cbv zeta.
  match goal with
  | |- context [if ?c then mret (db, None) else _] => destruct c
  end; [solve [cbn; auto 10]|].
  destruct (opt_truthy (ParsedMessage.media_group_id parsed)) eqn:Eg.
  - destruct (aggregator.add db parsed message) as [[[]|x] db'] eqn:Ea.
    + rewrite ret_eq. cbn [fst snd].
      split; [reflexivity|]. split; [reflexivity|]. split; [reflexivity|].
      split; [reflexivity|]. split; [reflexivity|].
      revert Ea. unfold aggregator.add.
      destruct (ParsedMessage.media_group_id parsed) as [g|]; [|discriminate].
      destruct (negb (nonempty g)); [intros [= <-]; now left|].
      unfold MediaGroupBuffer.insert. destruct (existsb _ db); [discriminate|].
      intros [= <-]. right. eexists. reflexivity.
    + cbn. auto 10.
  - rewrite bind_eq, _create_content_item_eq. cbv beta iota zeta. rewrite ret_eq.
    cbn [fst snd set_content_items accounts deliveries trace publish_calls
         content_items].
    split; [reflexivity|]. split; [reflexivity|]. split; [reflexivity|].
    split; [reflexivity|]. split; [reflexivity|].
    eexists. split; [reflexivity|]. split; [now apply find_appended|].
    split; [reflexivity|]. split; [reflexivity|]. split; [reflexivity|].
    eexists _, _. split; [reflexivity|]. split; reflexivity.
Qed.

(** The items [create_album_items] appends, one per bundle. *)
Definition album_of (bundle : aggregator.MediaGroupBundle) (item : ContentItem.t)
    : Prop :=
  ContentItem.content_type item = "album"
  /\ ContentItem.source_chat_id item = aggregator.source_chat_id bundle
  /\ ContentItem.media_group_id item = Some (aggregator.media_group_id bundle)
  /\ ContentItem.telegram_file_ids_json item = aggregator.file_ids bundle
  /\ ContentItem.caption item = aggregator.caption bundle
  /\ ContentItem.source_text item = aggregator.source_text bundle
  /\ (exists m, ContentItem.source_message_id item = Some m
                /\ aggregator_facts.is_min m (aggregator.source_message_ids bundle))
  /\ (aggregator.media_group_id bundle <> "" ->
      ContentItem.source_key item
      = "group:" +:+ pretty (aggregator.source_chat_id bundle)
          +:+ ":" +:+ aggregator.media_group_id bundle).

Lemma create_album_items_spec bundles : forall w,
  (forall b, In b bundles -> aggregator.source_message_ids b <> []) ->
  exists items,
    create_album_items bundles w
    = (Return (map ContentItem.id items),
       (set_content_items (content_items w ++ items) w).2)
    /\ List.Forall2 album_of bundles items
    /\ List.NoDup (map ContentItem.id items)
    /\ (forall c item, In c (content_items w) -> In item items ->
          ContentItem.id c < ContentItem.id item).
Proof.
  induction bundles as [|b bundles IH]; intros w Hids.
  - exists []. cbn. rewrite app_nil_r. split; [now destruct w|].
    split; [constructor|]. split; [constructor | intros _ _ _ []].
  - cbn [create_album_items]. rewrite bind_eq. unfold create_album_item.
    destruct (aggregator.source_message_ids b) as [|m ms] eqn:Em.
    { exfalso. apply (Hids b); [now left | assumption]. }
    rewrite bind_eq, _create_content_item_eq. cbv beta iota zeta.
    rewrite ret_eq. cbv beta iota.
    match goal with
    | |- context [content_items w ++ [?it]] => set (item := it)
    end.
    set (w1 := (set_content_items (content_items w ++ [item]) w).2).
    destruct (IH w1) as (items & Hrun & Hall & Hnd & Hlt).
    { intros b' Hb'. apply Hids. now right. }
    rewrite bind_eq, Hrun. cbv beta iota. rewrite ret_eq.
    exists (item :: items). split; [|split; [|split]].
    + cbn [map]. f_equal. unfold w1. cbn. now rewrite <- app_assoc.
    + constructor; [|exact Hall].
      unfold album_of. cbn.
      split; [reflexivity|]. split; [reflexivity|]. split; [reflexivity|].
      split; [reflexivity|]. split; [reflexivity|]. split; [reflexivity|].
      split.
      * exists (aggregator.min_of m ms). split; [reflexivity|].
        rewrite Em. apply aggregator_facts.min_of_is_min.
      * intros Hne. unfold ContentItem.source_key. cbn.
        apply aggregator_facts.nonempty_true in Hne. now rewrite Hne.
    + cbn [map]. constructor; [|exact Hnd].
      intros Hin. apply in_map_iff in Hin as (it & Hid & Hit).
      assert (ContentItem.id item < ContentItem.id it) as Hlt'.
      { apply Hlt; [|assumption]. unfold w1. cbn. apply in_or_app. right. now left. }
      lia.
    + intros c it Hc [<- | Hit].
      * now apply next_id_above_item.
      * apply Hlt; [|assumption]. unfold w1. cbn. apply in_or_app. now left.
Qed.

(** X26. One run of the flush loop turns every due album into one content
    item and hands the new ids to the queue in that order. The item is an
    ["album"] with the bundle's chat, album id, file handles in message
    order, caption and text; its message id is the least of the album's;
    its delivery key is ["group:<chat>:<album id>"]. The ids are new and
    pairwise distinct, nothing else in the state changes, and the call
    does not raise. *)
Theorem flush_due_media_groups_once_spec (self : aggregator.MediaGroupAggregator)
    (now : instant) (db : list MediaGroupBuffer.t) (w : World) :
  (forall r, In r db -> MediaGroupBuffer.media_group_id r <> "") ->
  let flushed := aggregator.flush_due_groups self db now in
  exists items,
    flush_due_media_groups_once self now db w
    = (Return (flushed.2, map ContentItem.id items),
       (set_content_items (content_items w ++ items) w).2)
    /\ List.Forall2
         (fun bundle item =>
            album_of bundle item
            /\ ContentItem.source_key item
               = "group:" +:+ pretty (aggregator.source_chat_id bundle)
                   +:+ ":" +:+ aggregator.media_group_id bundle)
         flushed.1 items
    /\ List.NoDup (map ContentItem.id items)
    /\ (forall c item, In c (content_items w) -> In item items ->
          ContentItem.id c < ContentItem.id item).
Proof.
  intros Hgid. cbv zeta. unfold flush_due_media_groups_once.
  pose proof (aggregator_facts.flush_bundles self db now) as Hb.
  destruct (aggregator.flush_due_groups self db now) as [bundles db'].
  cbn [fst snd] in *.
  assert (forall b, In b bundles ->
            aggregator.source_message_ids b <> []
            /\ aggregator.media_group_id b <> "") as Hbundle.
  { intros b Hin. destruct (Hb b Hin) as (g & Hg & Hbo).
    apply aggregator_facts.due_In in Hg as [Hg _].
    destruct (aggregator_facts.bundle_of_spec db g Hg)
      as (b' & r0 & rows' & Hb' & _ & Hbg & _ & Hids & _).
    assert (b' = b) as -> by congruence.
    split; [rewrite Hids; discriminate|].
    rewrite Hbg. apply in_map_iff in Hg as (r & <- & Hr). now apply Hgid. }
  destruct (create_album_items_spec bundles w) as (items & Hrun & Hall & Hnd & Hlt).
  { intros b Hin. now apply Hbundle. }
  exists items. rewrite bind_eq, Hrun, ret_eq.
  split; [reflexivity|]. split; [|split; assumption].
  clear Hrun Hnd Hlt Hb. induction Hall as [|b item bundles items Hbi Hall IH];
    constructor.
  - split; [assumption|]. apply Hbi. apply Hbundle. now left.
  - apply IH. intros b' Hb'. apply Hbundle. now right.
Qed.
End Ingest.

End ingest_facts.

(** ** Authorising an account *)

Module oauth_flow_facts.
Import frame client oauth oauth_flow publish_facts.

Lemma find_none_all {A} (p : A -> bool) l :
  (forall x, In x l -> p x = false) -> List.find p l = None.
Proof.
  induction l as [|x l IH]; [reflexivity|]. intros Hall. cbn [find].
  rewrite (Hall x (or_introl eq_refl)). apply IH. intros y Hy. apply Hall. now right.
Qed.

Lemma find_snoc_none {A} (p : A -> bool) l x :
  List.find p l = None ->
  List.find p (l ++ [x]) = if p x then Some x else None.
Proof.
  induction l as [|y l IH]; [reflexivity|]. cbn [app find].
  destruct (p y); [discriminate | exact IH].
Qed.

Lemma next_id_fresh_account (table : list TikTokAccount.t) a :
  In a table -> TikTokAccount.id a < next_id TikTokAccount.id table.
Proof.
  unfold next_id. induction table as [|x table IH]; [intros []|].
  cbn [fold_right]. intros [->|Hin]; [lia|]. specialize (IH Hin). lia.
Qed.

Section Flow.
Context `{Builtins} (env : Env) (tiktok_redirect_uri : string).

(** The challenge a callback with [state] picks. *)
Definition challenge_of (states : list OAuthState.t) (state : string)
    : option OAuthState.t :=
  List.find (fun r => String.eqb (OAuthState.state r) state
                      && negb (OAuthState.used r)) states.

(** What [handle_callback] reads out of the token answer. *)
Definition granted_scopes_of (token_data : dict) : outcome string :=
  let scope := or_ (get token_data "scope") (get token_data "granted_scopes") in
  match scope with
  | VList items => join_comma items
  | _ => Return (py_str (or_ scope (VStr "")))
  end.

Definition open_id_of (token_data : dict) : option string :=
  let s := text_of (get token_data "open_id") in
  if nonempty s then Some s else None.

(** The account the callback installs, from the row [a] it starts
    from. *)
Definition installed (challenge : OAuthState.t) (token_data : dict)
    (granted_scopes : string) (now : instant) (a : TikTokAccount.t)
    : TikTokAccount.t :=
  authorise a (open_id_of token_data)
    (text_of (get token_data "access_token"))
    (text_of (get token_data "refresh_token"))
    (now + seconds (Z.max 60 (_safe_int (get token_data "expires_in") 3600)))
    granted_scopes (OAuthState.mode challenge).

(** The call of the provider [handle_callback] makes. *)
Definition exchange (code : string) : M dict :=
  exchange_code_for_token env
    (config.tiktok_client_key (settings env))
    (config.tiktok_client_secret (settings env))
    code tiktok_redirect_uri.

Lemma exchange_preserves {X} (f : World -> X) code :
  (forall c, preserves f (send env c)) -> preserves f (exchange code).
Proof.
  intros Hf. unfold exchange, exchange_code_for_token.
  apply preserves_bind.
  - apply oauth_facts._request_preserves. exact Hf.
  - intros a. apply preserves_ret.
Qed.

Lemma exchange_frame code w :
  let w1 := (exchange code w).2 in
  accounts w1 = accounts w /\ clock_reads w1 = clock_reads w
  /\ deliveries w1 = deliveries w /\ content_items w1 = content_items w
  /\ exists call, trace w1 = trace w ++ [call].
Proof.
  cbv zeta. split; [|split; [|split; [|split]]].
  - apply (exchange_preserves accounts). intros c w0. reflexivity.
  - apply (exchange_preserves clock_reads). intros c w0. reflexivity.
  - apply (exchange_preserves deliveries). intros c w0. reflexivity.
  - apply (exchange_preserves content_items). intros c w0. reflexivity.
  - unfold exchange, exchange_code_for_token. rewrite bind_eq.
    match goal with
    | |- context [_request env ?m ?p ?t ?b ?d ?h w] =>
        pose proof (request_facts._request_trace env m p t b d h w) as Htrace;
        destruct (_request env m p t b d h w) as [[payload|x] w1]
    end; cbn [fst snd] in *; eexists; exact Htrace.
Qed.

(** [handle_callback], step by step. *)
Lemma handle_callback_eq states code state w :
  handle_callback env tiktok_redirect_uri states code state w
  = match challenge_of states state with
    | None => (Raise (ValueError "Invalid or already used OAuth state"), w)
    | Some challenge =>
        if negb (nonempty (config.tiktok_client_secret (settings env))) then
          (Raise (ValueError "TIKTOK_CLIENT_SECRET is empty"), w)
        else
          match exchange code w with
          | (Raise x, w1) => (Raise x, w1)
          | (Return token_data, w1) =>
              if negb (nonempty (text_of (get token_data "access_token")))
                 || negb (nonempty (text_of (get token_data "refresh_token")))
              then
                (Raise (ValueError
                   "OAuth token response does not contain access_token/refresh_token"),
                 w1)
              else
                match granted_scopes_of token_data with
                | Raise x => (Raise x, w1)
                | Return granted_scopes =>
                    let label := OAuthState.account_label challenge in
                    let assign :=
                      installed challenge token_data granted_scopes
                        (utcnow_at env (clock_reads w1)) in
                    let w2 := (utcnow env w1).2 in
                    let states' := mark_used (OAuthState.id challenge) states in
                    match List.find
                            (fun a => String.eqb (TikTokAccount.account_label a) label)
                            (accounts w1) with
                    | Some account =>
                        (Return (states', TikTokAccount.stored (assign account)),
                         (set_accounts
                            (map (fun r => if TikTokAccount.id r
                                              =? TikTokAccount.id account
                                           then TikTokAccount.stored (assign r)
                                           else r) (accounts w1))
                            w2).2)
                    | None =>
                        let account :=
                          TikTokAccount.stored
                            (assign (new_account
                                       (next_id TikTokAccount.id (accounts w1))
                                       label)) in
                        (Return (states', account),
                         (set_accounts (accounts w1 ++ [account]) w2).2)
                    end
                end
          end
    end.
Proof.
  unfold handle_callback, challenge_of.
  destruct (List.find _ states) as [challenge|]; [|reflexivity].
  destruct (negb (nonempty (config.tiktok_client_secret (settings env))));
    [reflexivity|].
  rewrite bind_eq. fold (exchange code).
  destruct (exchange code w) as [[token_data|x] w1]; [|reflexivity].
  cbv zeta.
  destruct (negb (nonempty (text_of (get token_data "access_token")))
            || negb (nonempty (text_of (get token_data "refresh_token"))));
    [reflexivity|].
  rewrite bind_eq. unfold lift at 1. fold (granted_scopes_of token_data).
  destruct (granted_scopes_of token_data) as [granted_scopes|x]; [|reflexivity].
  rewrite bind_eq. unfold get_world at 1. rewrite bind_eq. unfold utcnow at 1.
  cbv beta iota zeta. cbn [accounts].
  destruct (List.find _ (accounts w1)) as [account|]; reflexivity.
Qed.

(** The challenge behind a callback that returns. *)
Lemma handle_callback_challenge states states' code state account w w' :
  handle_callback env tiktok_redirect_uri states code state w
  = (Return (states', account), w') ->
  exists challenge,
    challenge_of states state = Some challenge
    /\ states' = mark_used (OAuthState.id challenge) states
    /\ TikTokAccount.account_label account = OAuthState.account_label challenge
    /\ TikTokAccount.posting_mode account = OAuthState.mode challenge.
Proof.
  rewrite handle_callback_eq.
  destruct (challenge_of states state) as [challenge|]; [|discriminate].
  destruct (negb _); [discriminate|].
  destruct (exchange code w) as [[token_data|x] w1]; [|discriminate].
  destruct (_ || _); [discriminate|].
  destruct (granted_scopes_of token_data); [|discriminate]. cbv zeta.
  destruct (List.find _ (accounts w1)) as [stored|] eqn:Efind;
    intros [= <- <- _]; exists challenge.
  - apply find_some in Efind as [_ Hl]. apply String.eqb_eq in Hl.
    split; [reflexivity|]. split; [reflexivity|]. split; [exact Hl | reflexivity].
  - split; [reflexivity|]. split; [reflexivity|]. split; reflexivity.
Qed.

(** X27. When [handle_callback] returns, it has installed an account
    for the challenge's label: the challenge was unused and is used now;
    the account carries the challenge's label and mode, is not flagged
    [needs_reauth], has an access and a refresh credential that are not
    empty, and expires at least 60 seconds after the reading of the
    clock; it is a row of the accounts table, whose labels stay pairwise
    distinct; one provider call was made. *)
Theorem handle_callback_installs (states states' : list OAuthState.t)
    (code state : string) (account : TikTokAccount.t) (w w' : World) :
  handle_callback env tiktok_redirect_uri states code state w
  = (Return (states', account), w') ->
  (exists challenge,
     challenge_of states state = Some challenge
     /\ OAuthState.state challenge = state
     /\ OAuthState.used challenge = false
     /\ states' = mark_used (OAuthState.id challenge) states
     /\ TikTokAccount.account_label account = OAuthState.account_label challenge
     /\ TikTokAccount.posting_mode account = OAuthState.mode challenge)
  /\ TikTokAccount.needs_reauth account = false
  /\ (exists access refresh,
        TikTokAccount.access_token account = Some access
        /\ TikTokAccount.refresh_token account = Some refresh
        /\ access <> "" /\ strip access = access
        /\ refresh <> "" /\ strip refresh = refresh)
  /\ (exists expiry,
        TikTokAccount.expires_at account = Some expiry
        /\ utcnow_at env (clock_reads w) + seconds 60 <= expiry)
  /\ In account (accounts w')
  /\ (List.NoDup (labels w) -> List.NoDup (labels w'))
  /\ deliveries w' = deliveries w
  /\ exists call, trace w' = trace w ++ [call].
Proof.
  rewrite handle_callback_eq.
  destruct (challenge_of states state) as [challenge|] eqn:Ech; [|discriminate].
  destruct (negb (nonempty (config.tiktok_client_secret (settings env))));
    [discriminate|].
  pose proof (exchange_frame code w) as (Hacc & Hclock & Hdel & _ & Htrace).
  cbv zeta in *.
  destruct (exchange code w) as [[token_data|x] w1]; [|discriminate].
  cbn [fst snd] in *.
  destruct (nonempty (text_of (get token_data "access_token"))) eqn:Eaccess;
    [|discriminate].
  destruct (nonempty (text_of (get token_data "refresh_token"))) eqn:Erefresh;
    [|discriminate].
  cbn [negb orb].
  destruct (granted_scopes_of token_data) as [granted_scopes|x]; [|discriminate].
  cbv zeta.
  set (label := OAuthState.account_label challenge).
  set (assign := installed challenge token_data granted_scopes
                   (utcnow_at env (clock_reads w1))).
  assert (forall a,
    (exists access refresh,
       TikTokAccount.access_token (TikTokAccount.stored (assign a)) = Some access
       /\ TikTokAccount.refresh_token (TikTokAccount.stored (assign a))
          = Some refresh
       /\ access <> "" /\ strip access = access
       /\ refresh <> "" /\ strip refresh = refresh)
    /\ (exists expiry,
          TikTokAccount.expires_at (TikTokAccount.stored (assign a)) = Some expiry
          /\ utcnow_at env (clock_reads w) + seconds 60 <= expiry)) as Hassign.
  { intros a. split.
    - eexists _, _. split; [reflexivity|]. split; [reflexivity|].
      apply aggregator_facts.nonempty_true in Eaccess, Erefresh.
      split; [exact Eaccess|]. split; [apply string_facts.strip_idempotent|].
      split; [exact Erefresh | apply string_facts.strip_idempotent].
    - eexists. split; [reflexivity|]. rewrite Hclock. unfold seconds. lia. }
  assert (challenge_of states state = Some challenge
          /\ OAuthState.state challenge = state
          /\ OAuthState.used challenge = false) as (Hch & Hstate & Hused).
  { split; [exact Ech|]. unfold challenge_of in Ech.
    apply find_some in Ech as [_ Hp]. apply andb_true_iff in Hp as [Hs Hu].
    apply String.eqb_eq in Hs. apply negb_true_iff in Hu. auto. }
  destruct (List.find _ (accounts w1)) as [stored|] eqn:Efind.
  - intros [= <- <- <-].
    apply find_some in Efind as [Hin Hlabel]. apply String.eqb_eq in Hlabel.
    split; [exists challenge; repeat (split; [solve [auto]|]); reflexivity|].
    split; [reflexivity|].
    destruct (Hassign stored) as [Htok Hexp].
    split; [exact Htok|]. split; [exact Hexp|].
    cbn [fst snd set_accounts accounts deliveries trace utcnow].
    split; [|split; [|split; [exact Hdel | exact Htrace]]].
    + apply in_map_iff. exists stored. split; [|exact Hin].
      now rewrite Z.eqb_refl.
    + unfold labels. cbn [accounts]. rewrite map_map.
      rewrite <- Hacc.
      assert (map (fun x => TikTokAccount.account_label
                              (if TikTokAccount.id x =? TikTokAccount.id stored
                               then TikTokAccount.stored (assign x) else x))
                  (accounts w1)
              = map TikTokAccount.account_label (accounts w1)) as ->; [|auto].
      apply map_ext. intros a. now destruct (_ =? _).
  - intros [= <- <- <-].
    split; [exists challenge; repeat (split; [solve [auto]|]); reflexivity|].
    split; [reflexivity|].
    destruct (Hassign (new_account (next_id TikTokAccount.id (accounts w1)) label))
      as [Htok Hexp].
    split; [exact Htok|]. split; [exact Hexp|].
    cbn [fst snd set_accounts accounts deliveries trace utcnow].
    split; [|split; [|split; [exact Hdel | exact Htrace]]].
    + apply in_or_app. right. now left.
    + unfold labels. cbn [accounts]. rewrite map_app, <- Hacc. cbn [map].
      intros Hnd. apply delivery_facts.NoDup_snoc; [assumption|].
      cbn. intros Hin. apply in_map_iff in Hin as (a & Hl & Ha).
      apply (find_none _ _ Efind) in Ha. apply String.eqb_neq in Ha. contradiction.
Qed.

(** X28. A challenge is good for one callback. Once [handle_callback] has
    returned for a state, any further callback with that state is
    refused as invalid, with no provider call and nothing changed; the
    column [state] is unique. *)
Theorem handle_callback_single_use (states states' : list OAuthState.t)
    (code code' state : string) (account : TikTokAccount.t) (w w' w'' : World) :
  List.NoDup (map OAuthState.state states) ->
  handle_callback env tiktok_redirect_uri states code state w
  = (Return (states', account), w') ->
  handle_callback env tiktok_redirect_uri states' code' state w''
  = (Raise (ValueError "Invalid or already used OAuth state"), w'').
Proof.
  intros Hnd Hrun.
  assert (exists challenge,
            challenge_of states state = Some challenge
            /\ states' = mark_used (OAuthState.id challenge) states)
    as (challenge & Hch & ->).
  { apply handle_callback_challenge in Hrun as (challenge & Hch & Hs & _).
    eauto. }
  rewrite handle_callback_eq.
  assert (challenge_of (mark_used (OAuthState.id challenge) states) state = None)
    as ->; [|reflexivity].
  unfold challenge_of in *. apply find_some in Hch as [Hin Hp].
  apply andb_true_iff in Hp as [Hs _]. apply String.eqb_eq in Hs.
  apply find_none_all. intros r' Hr'. unfold mark_used in Hr'.
  apply in_map_iff in Hr' as (r & <- & Hr).
  destruct (Z.eqb_spec (OAuthState.id r) (OAuthState.id challenge)) as [Eid|Nid].
  - cbn. apply andb_false_r.
  - apply andb_false_iff. left. apply String.eqb_neq. intros Hrs.
    apply Nid. f_equal.
    assert (forall l a b, List.NoDup (map OAuthState.state l) ->
              In a l -> In b l -> OAuthState.state a = OAuthState.state b -> a = b)
      as Hsame.
    { clear. induction l as [|x l IH]; [intros a b _ []|].
      cbn. intros a b Hnd. apply NoDup_cons_iff in Hnd as [Hx Hnd].
      intros [->|Ha] [->|Hb] E; try reflexivity.
      - exfalso. apply Hx. rewrite E. now apply in_map.
      - exfalso. apply Hx. rewrite <- E. now apply in_map.
      - now apply IH. }
    apply (Hsame states); [assumption.. | congruence].
Qed.

(** X29. A callback that raises has installed nothing: the accounts table is
    as before. A callback for a state that is unknown or already used is
    refused before anything happens. *)
Theorem handle_callback_raises (states : list OAuthState.t)
    (code state : string) (w w' : World) (x : exn) :
  handle_callback env tiktok_redirect_uri states code state w = (Raise x, w') ->
  accounts w' = accounts w
  /\ deliveries w' = deliveries w
  /\ clock_reads w' = clock_reads w
  /\ (challenge_of states state = None ->
      w' = w /\ x = ValueError "Invalid or already used OAuth state").
Proof.
  rewrite handle_callback_eq.
  destruct (challenge_of states state) as [challenge|].
  2:{ intros [= <- <-]. auto. }
  destruct (negb _).
  { intros [= <- <-]. split; [reflexivity|]. split; [reflexivity|].
    split; [reflexivity | discriminate]. }
  pose proof (exchange_frame code w) as (Hacc & Hclock & Hdel & _).
  cbv zeta in *.
  destruct (exchange code w) as [[token_data|y] w1]; cbn [fst snd] in *.
  - destruct (_ || _).
    { intros [= <- <-]. split; [assumption|]. split; [assumption|]. split; [assumption|]. discriminate. }
    destruct (granted_scopes_of token_data) as [granted_scopes|y].
    + cbv zeta. destruct (List.find _ (accounts w1)); discriminate.
    + intros [= <- <-]. split; [assumption|]. split; [assumption|]. split; [assumption|]. discriminate.
  - intros [= <- <-]. split; [assumption|]. split; [assumption|]. split; [assumption|]. discriminate.
Qed.

(** X30. From the authorisation link to the account: the challenge that
    [build_authorization_url] has stored is the one a callback with its
    state picks, so the account the callback installs carries the
    stripped label and the mode the link was asked for, and the mode is
    ["draft"] or ["direct"]. *)
Theorem authorization_round_trip (token : string)
    (urlencode : list (string * string) -> string)
    (states states1 states2 : list OAuthState.t)
    (account_label mode url code : string)
    (account : TikTokAccount.t) (w w' : World) :
  build_authorization_url env tiktok_redirect_uri token urlencode states
    account_label mode = Return (states1, url) ->
  handle_callback env tiktok_redirect_uri states1 code token w
  = (Return (states2, account), w') ->
  TikTokAccount.account_label account = strip account_label
  /\ strip account_label <> ""
  /\ TikTokAccount.posting_mode account = mode
  /\ (mode = "draft" \/ mode = "direct")
  /\ states1 = states ++ [ {| OAuthState.id := next_id OAuthState.id states;
                              OAuthState.state := token;
                              OAuthState.account_label := strip account_label;
                              OAuthState.mode := mode;
                              OAuthState.used := false |} ].
Proof.
  unfold build_authorization_url.
  destruct (String.eqb mode "draft" || String.eqb mode "direct") eqn:Emode;
    [|discriminate]. cbn [negb].
  destruct (nonempty (strip account_label)) eqn:Elabel; [|discriminate].
  cbn [negb].
  destruct (negb (nonempty (config.tiktok_client_key (settings env))));
    [discriminate|].
  destruct (existsb _ states) eqn:Eex; [discriminate|].
  intros [= <- _] Hrun.
  apply handle_callback_challenge in Hrun as (challenge & Hch & _ & Hl & Hm).
  assert (challenge = {| OAuthState.id := next_id OAuthState.id states;
                         OAuthState.state := token;
                         OAuthState.account_label := strip account_label;
                         OAuthState.mode := mode;
                         OAuthState.used := false |}) as ->.
  { revert Hch. unfold challenge_of. rewrite find_snoc_none.
    - cbn. rewrite String.eqb_refl. cbn. now intros [= <-].
    - apply find_none_all. intros r Hr.
      assert (String.eqb (OAuthState.state r) token = false) as ->; [|reflexivity].
      destruct (String.eqb (OAuthState.state r) token) eqn:E; [|reflexivity].
      assert (existsb (fun r => String.eqb (OAuthState.state r) token) states = true)
        as Hex by (apply existsb_exists; eauto).
      congruence. }
  cbn in Hl, Hm.
  split; [exact Hl|]. split; [now apply aggregator_facts.nonempty_true|].
  split; [exact Hm|]. split; [|reflexivity].
  apply orb_true_iff in Emode as [E|E]; apply String.eqb_eq in E; auto.
Qed.
End Flow.

End oauth_flow_facts.

(** ** The zone of the stored expiry *)

Module zone_facts.
Import frame oauth tasks oauth_flow oauth_flow_facts.

(** No row of the accounts table carries a zone: the state of a
    database that only the code has written to. *)
Definition table_naive (w : World) : Prop :=
  Forall (fun r => TikTokAccount.expires_at_tz r = false) (accounts w).

(** [m] leaves the accounts table without zones, however it ends. *)
Definition keeps {A} (m : M A) : Prop :=
  forall w, table_naive w -> table_naive (m w).2.

Lemma keeps_of_preserves {A} (m : M A) : preserves accounts m -> keeps m.
Proof. intros Hm w Hw. unfold table_naive. now rewrite Hm. Qed.

Lemma keeps_bind {A B} (m : M A) (k : A -> M B) :
  keeps m -> (forall a, keeps (k a)) -> keeps (m ≫= k).
Proof.
  intros Hm Hk w Hw. rewrite bind_eq. specialize (Hm w Hw).
  destruct (m w) as [[a|x] w1]; cbn [snd] in *; [|assumption].
  now apply Hk.
Qed.

Lemma keeps_try {A} (body : M A) handles handler :
  keeps body -> (forall x, keeps (handler x)) ->
  keeps (try_except body handles handler).
Proof.
  intros Hb Hh w Hw. unfold try_except. specialize (Hb w Hw).
  destruct (body w) as [[a|x] w1]; cbn [snd] in *; [assumption|].
  destruct (handles x); cbn [snd]; [|assumption]. now apply Hh.
Qed.

Lemma keeps_attempt {A} (body : M A) : keeps body -> keeps (attempt body).
Proof.
  intros Hb w Hw. unfold attempt. specialize (Hb w Hw).
  now destruct (body w) as [r w1].
Qed.

Lemma keeps_for_each {A} (xs : list A) (body : A -> M unit) :
  (forall x, keeps (body x)) -> keeps (for_each xs body).
Proof.
  intros Hb. induction xs as [|x xs IH]; simpl.
  - now intros w Hw.
  - apply keeps_bind; [apply Hb | intros _; apply IH].
Qed.

(** A commit writes the row as the table keeps it. *)
Lemma commit_account_keeps pk assign : keeps (commit_account pk assign).
Proof.
  intros w Hw. unfold commit_account. rewrite bind_eq. unfold get_world.
  cbn [snd set_accounts]. unfold table_naive in *. cbn [accounts].
  apply Forall_map. eapply Forall_impl; [exact Hw|].
  intros r Hr. cbn. now destruct (_ =? _).
Qed.

Section Pipeline.
Context `{Builtins} (env : Env).

Lemma client_preserves_accounts :
  forall c, preserves accounts (send env c).
Proof. intros c w. reflexivity. Qed.

Lemma refresh_credentials_keeps account tok :
  keeps (refresh_credentials env account tok).
Proof.
  unfold refresh_credentials.
  destruct (negb _).
  - apply keeps_bind; [apply commit_account_keeps|].
    intros _. now intros w Hw.
  - apply keeps_bind.
    + apply keeps_try.
      * apply keeps_of_preserves.
        apply oauth_facts.refresh_access_token_preserves.
        apply client_preserves_accounts.
      * intros x. apply keeps_bind; [apply commit_account_keeps|].
        intros _. now intros w Hw.
    + intros token_data. cbv zeta. apply keeps_bind.
      * apply keeps_of_preserves. intros w. reflexivity.
      * intros now. apply keeps_bind; [apply commit_account_keeps|].
        intros _. now intros w Hw.
Qed.

Lemma ensure_valid_access_token_keeps account :
  keeps (ensure_valid_access_token env account).
Proof.
  unfold ensure_valid_access_token.
  destruct (TikTokAccount.needs_reauth account); [now intros w Hw|].
  destruct (negb _); [now intros w Hw|].
  apply keeps_bind.
  - apply keeps_of_preserves.
    destruct (TikTokAccount.expires_at account); [|apply preserves_ret].
    apply preserves_bind; [intros w; reflexivity|].
    intros now. destruct (TikTokAccount.expires_at_tz account);
      [apply preserves_ret | apply preserves_raise].
  - intros [|]; [now intros w Hw | apply refresh_credentials_keeps].
Qed.

Lemma publish_keeps item account files caption :
  keeps (publisher.publish env item account files caption).
Proof.
  unfold publisher.publish.
  apply keeps_bind; [apply ensure_valid_access_token_keeps|].
  intros [token account']. apply keeps_of_preserves.
  unfold publisher.first_file.
  pose proof client_preserves_accounts as Hsend.
  pose proof (publish_facts.publish_video_file_preserves env accounts Hsend)
    as Hvideo.
  pose proof (publish_facts.try_publish_photo_or_carousel_preserves env accounts
                Hsend) as Hphoto.
  pose proof (publish_facts._convert_to_video_preserves env accounts)
    as Hconvert.
  frame.
Qed.

Lemma _deliver_to_account_keeps item account sk caption files :
  keeps (_deliver_to_account env item account sk caption files).
Proof.
  unfold _deliver_to_account.
  apply keeps_bind.
  { apply keeps_of_preserves. unfold acquire_delivery. frame. }
  intros [delivery|]; [|now intros w Hw].
  apply keeps_bind; [apply keeps_of_preserves; frame|]. intros _.
  apply keeps_bind; [apply keeps_attempt, publish_keeps|]. intros r.
  apply keeps_of_preserves. frame.
Qed.

(** Processing a content item writes no zone into the accounts table. *)
Lemma process_content_item_keeps cid : keeps (process_content_item env cid).
Proof.
  unfold process_content_item.
  apply keeps_bind; [apply keeps_of_preserves; frame|]. intros w0.
  destruct (List.find _ _) as [item|]; [|now intros w Hw].
  apply keeps_bind.
  { apply keeps_attempt, keeps_of_preserves,
      tasks_facts._ensure_local_files_preserves.
    intros l w. reflexivity. }
  intros [[local_files item']|exc].
  - apply keeps_bind; [apply keeps_of_preserves, preserves_lift|].
    intros caption.
    apply keeps_bind;
      [apply keeps_of_preserves; unfold _resolve_target_accounts; frame|].
    intros [|account accounts]; [now intros w Hw|].
    cbv zeta. apply keeps_bind.
    { apply keeps_for_each. intros a. apply _deliver_to_account_keeps. }
    intros _.
    apply keeps_bind; [apply keeps_of_preserves; intros w; reflexivity|].
    intros now. apply keeps_of_preserves. unfold commit_content_item. frame.
  - apply keeps_of_preserves.
    unfold _mark_all_deliveries_failed, _resolve_target_accounts. frame.
Qed.

(** Neither does a callback of the authorisation. *)
Lemma handle_callback_keeps tiktok_redirect_uri states code state :
  keeps (handle_callback env tiktok_redirect_uri states code state).
Proof.
  intros w Hw. rewrite handle_callback_eq.
  destruct (challenge_of states state) as [challenge|]; [|assumption].
  destruct (negb _); [assumption|].
  pose proof (exchange_frame env tiktok_redirect_uri code w) as (Hacc & _).
  cbv zeta in Hacc.
  destruct (exchange env tiktok_redirect_uri code w) as [[token_data|x] w1];
    cbn [fst snd] in *; unfold table_naive in *.
  2:{ now rewrite Hacc. }
  destruct (_ || _); [cbn [snd]; now rewrite Hacc|].
  destruct (granted_scopes_of token_data) as [granted_scopes|x];
    [|cbn [snd]; now rewrite Hacc].
  cbv zeta. rewrite <- Hacc in Hw.
  destruct (List.find _ (accounts w1)) as [account|];
    cbn [snd set_accounts accounts utcnow].
  - apply Forall_map. eapply Forall_impl; [exact Hw|].
    intros r Hr. cbn. now destruct (_ =? _).
  - apply Forall_app. split; [exact Hw|]. now constructor.
Qed.

(** The accounts [_resolve_target_accounts] reads from such a table
    carry no zone. *)
Lemma _resolve_target_accounts_naive source_chat_id w result w' :
  table_naive w ->
  _resolve_target_accounts env source_chat_id w = (Return result, w') ->
  Forall (fun r => TikTokAccount.expires_at_tz r = false) result.
Proof.
  intros Hw. unfold _resolve_target_accounts. rewrite bind_eq.
  unfold get_world. rewrite ret_eq. intros [= <- _].
  unfold table_naive in Hw. rewrite List.Forall_forall in Hw |- *.
  intros r Hr. apply Hw. unfold resolve in Hr.
  eapply Permutation_in in Hr; [|apply order_by_perm].
  destruct (config.chat_account_mapping (settings env) !! source_chat_id)
    as [[|l ls]|]; try exact Hr.
  now apply filter_In in Hr as [Hr _].
Qed.

(** So an account read from the table that has an expiry and is
    otherwise in order is not published for: [publish] raises the
    [TypeError] of the comparison, without a provider call and without
    touching the accounts. *)
Lemma publish_stored_expiry item account files caption w :
  TikTokAccount.needs_reauth account = false ->
  opt_truthy (TikTokAccount.access_token account) = true ->
  TikTokAccount.expires_at account <> None ->
  TikTokAccount.expires_at_tz account = false ->
  let run := publisher.publish env item account files caption w in
  run.1 = Raise token_facts.TYPE_ERROR
  /\ trace run.2 = trace w
  /\ accounts run.2 = accounts w.
Proof.
  intros Hflag Htoken Hsome Htz. cbv zeta. unfold publisher.publish.
  rewrite bind_eq.
  rewrite (token_facts.ensure_naive_eq env account w Hflag Htoken
             (conj Hsome Htz)).
  repeat split.
Qed.
End Pipeline.

End zone_facts.

(** ** Concrete runs of the further properties *)

Module more_runs.
Import scenarios python_model aggregator delivery_facts tasks tasks_facts.

(** A provider that refuses every call with HTTP 400. *)
Definition rejecting_http (_ : list http_call) (_ : http_call) : outcome Response :=
  answer 400 [("error", VStr "invalid_grant")].

(** The clock stands at 2000 s: the credential of account [a], which
    expired at 1000 s, has to be refreshed, and the provider refuses. *)
Definition rejecting_env : Env := env_with rejecting_http (seconds 2000) true.

(** Account [a] without a refresh credential, and flagged for
    re-authorisation. *)
Definition account_no_refresh : TikTokAccount.t :=
  oauth.with_credentials account_a (Some "old-token") None (Some (seconds 1000))
    true false.

Definition account_locked : TikTokAccount.t :=
  TikTokAccount.stored (oauth.mark_reauth account_a).

(** A provider that grants both credentials. *)
Definition granting_http (_ : list http_call) (_ : http_call) : outcome Response :=
  answer 200 [ ("access_token", VStr "at-1"); ("refresh_token", VStr "rt-1");
               ("expires_in", VInt 3600);
               ("scope", VStr "user.info.basic,video.upload") ].

Definition granting_env : Env := env_with granting_http (seconds 100) true.

Definition challenge_b : OAuthState.t := {|
  OAuthState.id := 1;
  OAuthState.state := "st-1";
  OAuthState.account_label := "b";
  OAuthState.mode := "direct";
  OAuthState.used := false |}.

(** The video message of the parser's test. *)
Definition video_message : dict :=
  [ ("message_id", VInt 101); ("date", VInt 1700000000);
    ("chat", VDict [("id", VInt (-100123)); ("type", VStr "channel")]);
    ("caption", VStr "video caption");
    ("video", VDict [("file_id", VStr "video_file_id_1")]) ].

Definition utc_seconds (n : Z) : message_parser.timestamp :=
  message_parser.At (seconds n).

Definition mapped_settings : config.Settings := {|
  config.tg_bot_token := "bot-token";
  config.tiktok_client_key := "key";
  config.tiktok_client_secret := "secret";
  config.posting_mode := "draft";
  config.fallback_to_draft := true;
  config.append_hashtags := "";
  config.caption_template := "From TG: {text}";
  config.caption_max_length := 2200;
  config.media_storage_path := "./data/media";
  config.media_group_flush_seconds := 3;
  config.slide_seconds := 2;
  config.slideshow_fps := 30;
  config.enable_photo_api := false;
  config.tg_to_tiktok_mapping_json :=
    Some (VDict [("-100", VList [VStr " a "; VStr " "; VStr "b"])]);
|}.

Lemma unique_nil : unique [].
Proof. split; constructor. Qed.

Lemma unique_delivered : unique (deliveries delivered_world).
Proof. split; cbn; repeat constructor; intros []. Qed.

Lemma build_caption_length_witness :
  captions.build_caption accepting_env "  hello " "" = Return "hello"
  /\ Z.of_nat (String.length "hello") <= 2200.
Proof.
  assert (captions.build_caption accepting_env "  hello " "" = Return "hello")
    as Hrun by (vm_compute; reflexivity).
  split; [exact Hrun|].
  apply (caption_facts.build_caption_length accepting_env "  hello " "" "hello");
    [vm_compute; discriminate | exact Hrun].
Defined.

Lemma request_http_error_witness :
  exists e,
    (client._request (H := builtins) rejecting_env "POST"
       client.VIDEO_INIT_ENDPOINT (Some "old-token") None None [] fresh_world).1
    = Raise (ApiError e)
    /\ exceptions.status_code e = Some 400.
Proof.
  destruct (request_facts.request_http_error (H := builtins) rejecting_env "POST"
              client.VIDEO_INIT_ENDPOINT (Some "old-token") None None []
              fresh_world
              {| runtime.status_code := 400;
                 runtime.json_body := Some (VDict [("error", VStr "invalid_grant")]);
                 runtime.text := "" |})
    as (e & Hrun & Hstatus & _).
  - reflexivity.
  - vm_compute. discriminate.
  - exists e. split; [exact Hrun | exact Hstatus].
Defined.

Lemma ensure_valid_access_token_refuses_witness :
  exists msg,
    oauth.ensure_valid_access_token (H := builtins) accepting_env account_locked
      fresh_world
    = (Raise (ValueError msg), fresh_world).
Proof.
  apply (token_facts.ensure_valid_access_token_refuses (H := builtins)
           accepting_env account_locked fresh_world).
  left. reflexivity.
Defined.

(** The object of a session that has assigned the expiry is flagged;
    the same account as the table hands it out is not, the comparison
    of its expiry with the clock raising first. *)
Lemma ensure_valid_access_token_no_refresh_token_witness :
  let w := world_of [TikTokAccount.stored account_no_refresh] [] [] in
  let run := oauth.ensure_valid_access_token (H := builtins) short_lived_env
               account_no_refresh w in
  let run' := oauth.ensure_valid_access_token (H := builtins) short_lived_env
                (TikTokAccount.stored account_no_refresh) w in
  (trace run.2 = []
   /\ map TikTokAccount.needs_reauth (accounts run.2) = [true])
  /\ (run'.1 = Raise (token_facts.TYPE_ERROR)
      /\ map TikTokAccount.needs_reauth (accounts run'.2) = [false]).
Proof.
  cbv zeta. split.
  - destruct (token_facts.ensure_valid_access_token_no_refresh_token
                (H := builtins) short_lived_env account_no_refresh
                (world_of [TikTokAccount.stored account_no_refresh] [] []))
      as [Haware _].
    + reflexivity.
    + reflexivity.
    + reflexivity.
    + destruct Haware as (_ & Htrace & _ & Hacc & _).
      * split; [reflexivity | vm_compute; discriminate].
      * split; [exact Htrace|]. rewrite Hacc. reflexivity.
  - destruct (token_facts.ensure_valid_access_token_no_refresh_token
                (H := builtins) short_lived_env
                (TikTokAccount.stored account_no_refresh)
                (world_of [TikTokAccount.stored account_no_refresh] [] []))
      as [_ Hnaive].
    + reflexivity.
    + reflexivity.
    + reflexivity.
    + destruct Hnaive as (Hrun & Hacc & _).
      * split; [discriminate | reflexivity].
      * split; [rewrite Hrun; reflexivity|]. rewrite Hacc. reflexivity.
Defined.

(** The refresh the provider refuses flags the account, for the object
    of a session that has assigned the expiry; for the account as the
    table hands it out the refresh is not reached. *)
Lemma ensure_valid_access_token_refresh_fails_witness :
  let run := oauth.ensure_valid_access_token (H := builtins) rejecting_env
               account_a fresh_world in
  let run' := oauth.ensure_valid_access_token (H := builtins) rejecting_env
                (TikTokAccount.stored account_a) fresh_world in
  ((exists e, run.1 = Raise (ApiError e))
   /\ map TikTokAccount.needs_reauth (accounts run.2) = [true])
  /\ (run'.1 = Raise (token_facts.TYPE_ERROR)
      /\ trace run'.2 = []
      /\ map TikTokAccount.needs_reauth (accounts run'.2) = [false]).
Proof.
  cbv zeta. split.
  - destruct (token_facts.ensure_valid_access_token_refresh_fails (H := builtins)
                rejecting_env account_a fresh_world) as [Haware _].
    + reflexivity.
    + reflexivity.
    + reflexivity.
    + assert (exists e w2,
                client.refresh_access_token (H := builtins) rejecting_env
                  (config.tiktok_client_key (settings rejecting_env))
                  (config.tiktok_client_secret (settings rejecting_env))
                  (default "" (TikTokAccount.refresh_token account_a))
                  (token_facts.checked rejecting_env account_a fresh_world)
                = (Raise (ApiError e), w2)) as (e & w2 & Hcall)
        by (eexists _, _; vm_compute; reflexivity).
      destruct (Haware ltac:(split; [reflexivity | vm_compute; discriminate])
                  (ApiError e) w2 Hcall) as (Hrun & _ & Hacc).
      split; [exists e; exact Hrun|]. rewrite Hacc. reflexivity.
  - destruct (token_facts.ensure_valid_access_token_refresh_fails (H := builtins)
                rejecting_env (TikTokAccount.stored account_a) fresh_world)
      as [_ Hnaive].
    + reflexivity.
    + reflexivity.
    + reflexivity.
    + destruct Hnaive as (Hrun & Hacc & Htrace & _).
      * split; [discriminate | reflexivity].
      * split; [rewrite Hrun; reflexivity|].
        split; [exact Htrace|]. rewrite Hacc. reflexivity.
Defined.

Lemma ensure_valid_access_token_locks_out_witness :
  exists msg,
    oauth.ensure_valid_access_token (H := builtins) rejecting_env account_locked
      fresh_world
    = (Raise (ValueError msg), fresh_world).
Proof.
  eapply (token_facts.ensure_valid_access_token_locks_out (H := builtins)
            rejecting_env account_a account_locked fresh_world _ fresh_world).
  - vm_compute. reflexivity.
  - left. reflexivity.
  - reflexivity.
Defined.

Lemma deliver_loop_keeps_sent_witness :
  Delivery.lookup "msg:-100:7" "a"
    (deliveries
       (for_each [account_a]
          (fun account =>
             _deliver_to_account accepting_env video_item account "msg:-100:7"
               "hello" ["./data/media/1/1.mp4"])
          delivered_world).2)
  = Some sent_delivery.
Proof.
  apply (deliver_facts.deliver_loop_keeps_sent (H := builtins) accepting_env
           video_item "msg:-100:7" "hello" ["./data/media/1/1.mp4"] [account_a]
           delivered_world "msg:-100:7" "a" sent_delivery).
  - exact unique_delivered.
  - reflexivity.
  - reflexivity.
Defined.

Lemma deliver_to_account_records_witness :
  exists d',
    Delivery.lookup "msg:-100:7" "a"
      (deliveries
         (_deliver_to_account accepting_env video_item account_a "msg:-100:7"
            "hello" ["./data/media/1/1.mp4"] fresh_world).2)
    = Some d'
    /\ Delivery.status d' = "sent".
Proof.
  destruct (deliver_facts.deliver_to_account_records (H := builtins) accepting_env
              video_item account_a "msg:-100:7" "hello" ["./data/media/1/1.mp4"]
              fresh_world unique_nil)
    as (d' & Hlook & _ & Hout).
  - intros d Hd. vm_compute in Hd. discriminate.
  - exists d'. split; [exact Hlook|].
    assert (exists result,
              deliver_facts.published accepting_env video_item account_a
                "msg:-100:7" "hello" ["./data/media/1/1.mp4"] fresh_world
              = Return result) as [result Hres]
      by (eexists; vm_compute; reflexivity).
    rewrite Hres in Hout. apply Hout.
Defined.

Lemma deliver_to_account_needs_reauth_witness :
  let w' := (_deliver_to_account accepting_env video_item account_locked
               "msg:-100:7" "hello" ["./data/media/1/1.mp4"] fresh_world).2 in
  trace w' = []
  /\ exists d',
       Delivery.lookup "msg:-100:7" "a" (deliveries w') = Some d'
       /\ Delivery.status d' = "failed".
Proof.
  destruct (deliver_facts.deliver_to_account_needs_reauth (H := builtins)
              accepting_env video_item account_locked "msg:-100:7" "hello"
              ["./data/media/1/1.mp4"] fresh_world unique_nil eq_refl)
    as (Htrace & _ & d' & Hlook & Hstatus & _).
  - intros d Hd. vm_compute in Hd. discriminate.
  - cbv zeta. split; [exact Htrace|]. exists d'. split; assumption.
Defined.

Lemma extracted_texts_clean_witness :
  video_posting._extract_upload_url (H := builtins)
    [("source_info", VDict [("upload_url", VStr " https://upload.example/1 ")])]
  = Some "https://upload.example/1"
  /\ strip "https://upload.example/1" = "https://upload.example/1".
Proof.
  assert (video_posting._extract_upload_url (H := builtins)
            [("source_info", VDict [("upload_url", VStr " https://upload.example/1 ")])]
          = Some "https://upload.example/1") as Hurl by (vm_compute; reflexivity).
  split; [exact Hurl|].
  apply (extract_facts.extracted_texts_clean (H := builtins) _ _ (or_introl Hurl)).
Defined.

Lemma publish_video_file_post_id_witness :
  exists res w',
    video_posting.publish_video_file accepting_env "old-token"
      "./data/media/1/1.mp4" "hello" "draft" true fresh_world
    = (Return res, w')
    /\ _pick_result_post_id (publisher.result_dict res)
       = video_posting.post_id res.
Proof.
  eexists _, _. split; [vm_compute; reflexivity|].
  eapply (extract_facts.publish_video_file_post_id (H := builtins) accepting_env
            "old-token" "./data/media/1/1.mp4" "hello" "draft" true fresh_world).
  - reflexivity.
  - vm_compute. reflexivity.
Defined.

Lemma mark_all_deliveries_failed_marks_witness :
  exists d,
    Delivery.lookup "msg:-100:7" "a"
      (deliveries
         (_mark_all_deliveries_failed offline_env video_item "Telegram download failed"
            fresh_world).2)
    = Some d
    /\ Delivery.status d = "failed".
Proof.
  destruct (mark_facts.mark_all_deliveries_failed_marks (H := builtins)
              offline_env video_item "Telegram download failed" fresh_world "a")
    as (_ & _ & d & Hlook & Hstatus & _).
  - exact unique_nil.
  - cbn. repeat constructor. intros [].
  - vm_compute. auto.
  - exists d. split; assumption.
Defined.

Lemma ensure_local_files_returns_witness :
  exists files item' w',
    _ensure_local_files accepting_env video_item fresh_world
    = (Return (files, item'), w')
    /\ files <> []
    /\ (length files <= 1)%nat.
Proof.
  eexists _, _, _. split; [vm_compute; reflexivity|].
  destruct (files_facts.ensure_local_files_returns (H := builtins) accepting_env
              video_item video_item ["./data/media/1/1.mp4"] fresh_world
              fresh_world)
    as (Hne & Hlen & _).
  - vm_compute. reflexivity.
  - split; [exact Hne | exact Hlen].
Defined.

Lemma ensure_local_files_raises_witness :
  exists x w',
    _ensure_local_files offline_env video_item fresh_world = (Raise x, w')
    /\ w' = fresh_world.
Proof.
  eexists _, _. split; [vm_compute; reflexivity|].
  eapply (files_facts.ensure_local_files_raises (H := builtins) offline_env
            video_item fresh_world).
  vm_compute. reflexivity.
Defined.

Lemma try_publish_photo_too_few_urls_witness :
  exists w1,
    photo_posting.try_publish_photo_or_carousel (H := builtins) accepting_env
      "old-token" ["./data/media/1/1.jpg"] "hello" "draft" fresh_world
    = (Return None, w1)
    /\ length (trace w1) = 1%nat.
Proof.
  edestruct (photo_facts.try_publish_photo_too_few_urls (H := builtins)
               accepting_env "old-token" "hello" "draft" ["./data/media/1/1.jpg"])
    as (Hrun & call & Htrace).
  - discriminate.
  - vm_compute. reflexivity.
  - vm_compute. lia.
  - eexists. split; [exact Hrun|]. rewrite Htrace. reflexivity.
Defined.

Lemma try_publish_photo_raises_witness :
  exists e w',
    photo_posting.try_publish_photo_or_carousel (H := builtins) rejecting_env
      "old-token" ["./data/media/1/1.jpg"] "hello" "draft" fresh_world
    = (Raise (ApiError e), w')
    /\ client.is_unsupported_or_permission e = false.
Proof.
  eexists _, _. split; [vm_compute; reflexivity|].
  eapply (photo_facts.try_publish_photo_raises (H := builtins) rejecting_env
            "old-token" "hello" "draft" ["./data/media/1/1.jpg"] fresh_world).
  vm_compute. reflexivity.
Defined.

Lemma chat_account_mapping_labels_witness :
  config.chat_account_mapping mapped_settings !! (-100) = Some ["a"; "b"]
  /\ strip "a" = "a".
Proof.
  assert (config.chat_account_mapping mapped_settings !! (-100) = Some ["a"; "b"])
    as Hmap by (vm_compute; reflexivity).
  split; [exact Hmap|].
  apply (mapping_facts.chat_account_mapping_labels (H := builtins)
           mapped_settings (-100) ["a"; "b"] "a" Hmap).
  now left.
Defined.

Lemma buffer_ok_nil : buffer_facts.buffer_ok [].
Proof. split; [constructor|]. split; [constructor | intros r []]. Qed.

Lemma add_keeps_buffer_ok_witness :
  buffer_facts.buffer_ok (add [] member1 []).2.
Proof.
  apply (buffer_facts.add_keeps_buffer_ok [] member1 [] buffer_ok_nil).
Defined.

Lemma added_member_is_flushed_witness :
  exists b,
    In b (flush_due_groups (__init__ 3) (add [] member1 []).2 (seconds 100)).1
    /\ In "file-1" (file_ids b).
Proof.
  destruct (buffer_facts.added_member_is_flushed (__init__ 3) []
              (add [] member1 []).2 member1 [] "group-1" (seconds 100))
    as ((b & Hin & _ & _ & Hfile) & _).
  - reflexivity.
  - discriminate.
  - reflexivity.
  - vm_compute. reflexivity.
  - exists b. split; assumption.
Defined.

Lemma flush_leaves_nothing_due_witness :
  let db' := (flush_due_groups (__init__ 3) album_buffer (seconds 100)).2 in
  flush_due_groups (__init__ 3) db' (seconds 100) = ([], db').
Proof.
  apply (buffer_facts.flush_leaves_nothing_due (__init__ 3) album_buffer
           (seconds 100) (seconds 100)).
  lia.
Defined.

Lemma parse_message_normalised_witness :
  exists p,
    message_parser.parse_message (H := builtins) utc_seconds 0 video_message
    = Return (Some p)
    /\ ParsedMessage.telegram_file_id p <> ""
    /\ ParsedMessage.message_id p = 101.
Proof.
  eexists. split; [vm_compute; reflexivity|].
  edestruct (parser_facts.parse_message_normalised (H := builtins) utc_seconds 0
               video_message)
    as (_ & Hfile & _).
  - vm_compute. reflexivity.
  - split; [exact Hfile | reflexivity].
Defined.

Lemma flush_due_media_groups_once_witness :
  exists items,
    (ingest.flush_due_media_groups_once (__init__ 3) (seconds 100) album_buffer
       fresh_world).1
    = Return ([], map ContentItem.id items)
    /\ length items = 1%nat.
Proof.
  destruct (ingest_facts.flush_due_media_groups_once_spec (__init__ 3)
              (seconds 100) album_buffer fresh_world)
    as (items & Hrun & Hall & _).
  - intros r Hr. vm_compute in Hr. destruct Hr as [<-|[<-|[]]]; discriminate.
  - exists items. split; [now rewrite Hrun|].
    apply List.Forall2_length in Hall. rewrite <- Hall. reflexivity.
Defined.

Lemma handle_callback_installs_witness :
  exists states' account w',
    oauth_flow.handle_callback (H := builtins) granting_env
      "http://localhost:8000/tiktok/auth/callback" [challenge_b] "code-1" "st-1"
      fresh_world
    = (Return (states', account), w')
    /\ TikTokAccount.needs_reauth account = false
    /\ In account (accounts w').
Proof.
  assert (exists states' account w',
            oauth_flow.handle_callback (H := builtins) granting_env
              "http://localhost:8000/tiktok/auth/callback" [challenge_b]
              "code-1" "st-1" fresh_world
            = (Return (states', account), w'))
    as (states' & account & w' & Hrun)
    by (eexists _, _, _; vm_compute; reflexivity).
  exists states', account, w'. split; [exact Hrun|].
  destruct (oauth_flow_facts.handle_callback_installs (H := builtins)
              granting_env "http://localhost:8000/tiktok/auth/callback"
              [challenge_b] states' "code-1" "st-1" account fresh_world w' Hrun)
    as (_ & Hflag & _ & _ & Hin & _).
  split; [exact Hflag | exact Hin].
Defined.

Lemma handle_callback_single_use_witness :
  exists states' account w',
    oauth_flow.handle_callback (H := builtins) granting_env
      "http://localhost:8000/tiktok/auth/callback" [challenge_b] "code-1" "st-1"
      fresh_world
    = (Return (states', account), w')
    /\ oauth_flow.handle_callback (H := builtins) granting_env
         "http://localhost:8000/tiktok/auth/callback" states' "code-2" "st-1"
         fresh_world
       = (Raise (ValueError "Invalid or already used OAuth state"), fresh_world).
Proof.
  assert (exists states' account w',
            oauth_flow.handle_callback (H := builtins) granting_env
              "http://localhost:8000/tiktok/auth/callback" [challenge_b]
              "code-1" "st-1" fresh_world
            = (Return (states', account), w'))
    as (states' & account & w' & Hrun)
    by (eexists _, _, _; vm_compute; reflexivity).
  exists states', account, w'. split; [exact Hrun|].
  apply (oauth_flow_facts.handle_callback_single_use (H := builtins)
           granting_env "http://localhost:8000/tiktok/auth/callback"
           [challenge_b] states' "code-1" "code-2" "st-1" account
           fresh_world w' fresh_world).
  - cbn. repeat constructor. intros [].
  - exact Hrun.
Defined.

Lemma authorization_round_trip_witness :
  exists states1 url states2 account w',
    oauth_flow.build_authorization_url granting_env
      "http://localhost:8000/tiktok/auth/callback" "st-1" (fun _ => "q") []
      " b " "direct"
    = Return (states1, url)
    /\ oauth_flow.handle_callback (H := builtins) granting_env
         "http://localhost:8000/tiktok/auth/callback" states1 "code-1" "st-1"
         fresh_world
       = (Return (states2, account), w')
    /\ TikTokAccount.account_label account = "b"
    /\ TikTokAccount.posting_mode account = "direct".
Proof.
  assert (exists states1 url,
            oauth_flow.build_authorization_url granting_env
              "http://localhost:8000/tiktok/auth/callback" "st-1" (fun _ => "q") []
              " b " "direct"
            = Return (states1, url)
            /\ exists states2 account w',
                 oauth_flow.handle_callback (H := builtins) granting_env
                   "http://localhost:8000/tiktok/auth/callback" states1 "code-1"
                   "st-1" fresh_world
                 = (Return (states2, account), w'))
    as (states1 & url & Hbuild & states2 & account & w' & Hrun).
  { eexists _, _. split; [vm_compute; reflexivity|].
    eexists _, _, _. vm_compute. reflexivity. }
  exists states1, url, states2, account, w'.
  split; [exact Hbuild|]. split; [exact Hrun|].
  destruct (oauth_flow_facts.authorization_round_trip (H := builtins)
              granting_env "http://localhost:8000/tiktok/auth/callback" "st-1"
              (fun _ => "q") [] states1 states2 " b " "direct" url "code-1"
              account fresh_world w' Hbuild Hrun)
    as (Hlabel & _ & Hmode & _).
  split; [rewrite Hlabel; reflexivity | exact Hmode].
Defined.

Lemma handle_callback_raises_witness :
  exists x w',
    oauth_flow.handle_callback (H := builtins) granting_env
      "http://localhost:8000/tiktok/auth/callback" [challenge_b] "code-1" "st-2"
      fresh_world
    = (Raise x, w')
    /\ accounts w' = accounts fresh_world.
Proof.
  assert (exists x w',
            oauth_flow.handle_callback (H := builtins) granting_env
              "http://localhost:8000/tiktok/auth/callback" [challenge_b]
              "code-1" "st-2" fresh_world
            = (Raise x, w')) as (x & w' & Hrun)
    by (eexists _, _; vm_compute; reflexivity).
  exists x, w'. split; [exact Hrun|].
  apply (oauth_flow_facts.handle_callback_raises (H := builtins) granting_env
           "http://localhost:8000/tiktok/auth/callback" [challenge_b] "code-1"
           "st-2" fresh_world w' x Hrun).
Defined.

End more_runs.
